(** * Chronicle ring buffer: a shallow embedding of [ring_buffer.c]

    The arena is a list of bytes, [size_t] and the fixed-width counters are
    [Z] with their wrap-around written out, the packed frame header is laid
    out in memory in little-endian order (the host order of the supported
    targets), and [double] is IEEE binary64 as specified by [SpecFloat].
    A null handle is [None]. *)

From Stdlib Require Import ZArith List Lia Bool SpecFloat.
From Stdlib Require String.
From coqutil Require Import Byte Word.LittleEndianList.
Import ListNotations.
Import String.StringSyntax.
Delimit Scope string_scope with string.
Local Open Scope Z_scope.

(** ** Constants of [ring_buffer.h] and [ring_buffer.c] *)

Definition RING_BUFFER_DEFAULT_SIZE : Z := 64 * 1024 * 1024.
Definition RING_BUFFER_MAX_MESSAGE_SIZE : Z := 16 * 1024 * 1024.
Definition ARROW_IPC_MAGIC : Z := 0x41524157.
Definition MESSAGE_ALIGNMENT : Z := 8.
Definition RING_BUFFER_MAGIC : Z := 0x52424652.
Definition CRC32_POLYNOMIAL : Z := 0xEDB88320.

(** [sizeof(arrow_ipc_header_t)]: the struct is packed, 4+4+8+4+4 bytes. *)
Definition sizeof_arrow_ipc_header_t : Z := 24.

(** ** Machine integers *)

(** [size_t] and [uint64_t] arithmetic wraps modulo [2^64], [uint32_t]
    modulo [2^32]. *)
Definition u64 (z : Z) : Z := z mod 2 ^ 64.
Definition u32 (z : Z) : Z := z mod 2 ^ 32.

(** A value that fits a [size_t]. *)
Definition is_size_t (z : Z) : Prop := 0 <= z < 2 ^ 64.

(** ** IEEE binary64 *)

Definition double : Type := spec_float.

(** [(double)n] for an unsigned integer [n]: round to nearest, ties to even. *)
Definition double_of_size_t (n : Z) : double := binary_normalize 53 1024 n 0 false.
Definition double_div (x y : double) : double := SFdiv 53 1024 x y.
(** [x >= y] on doubles; false when either side is a NaN. *)
Definition double_ge (x y : double) : bool := SFleb y x.
Definition double_zero : double := S754_zero false.

(** The literal [0.8]: the double nearest to 4/5. *)
Definition RING_BUFFER_BACKPRESSURE_THRESHOLD : double :=
  double_div (double_of_size_t 4) (double_of_size_t 5).

(** ** Alignment *)

(** [(size + MESSAGE_ALIGNMENT - 1) & ~(MESSAGE_ALIGNMENT - 1)] in [size_t]. *)
Definition align_size (size : Z) : Z :=
  Z.land (u64 (size + MESSAGE_ALIGNMENT - 1)) (u64 (Z.lnot (MESSAGE_ALIGNMENT - 1))).

Definition total_message_size (data_size : Z) : Z :=
  align_size (u64 (sizeof_arrow_ipc_header_t + data_size)).

(** ** CRC-32 *)

(** The process-wide table and its flag. *)
Record crc32_globals : Type := {
  crc32_table : list Z;
  crc32_table_initialized : bool
}.

(** Static storage starts zeroed. *)
Definition crc32_globals_initial : crc32_globals :=
  {| crc32_table := repeat 0 256; crc32_table_initialized := false |}.

(** [table[i] = v]; out of range the C store is undefined, here it is dropped. *)
Definition table_store (table : list Z) (i : nat) (v : Z) : list Z :=
  if (i <? length table)%nat then firstn i table ++ v :: skipn (S i) table else table.

(** One turn of the inner loop of [init_crc32_table]. *)
Definition crc32_shift (crc : Z) : Z :=
  if Z.land crc 1 =? 0 then Z.shiftr crc 1
  else Z.lxor (Z.shiftr crc 1) CRC32_POLYNOMIAL.

Definition init_crc32_table (g : crc32_globals) : crc32_globals :=
  if crc32_table_initialized g then g
  else
    {| crc32_table :=
         fold_left (fun table i => table_store table i (Nat.iter 8 crc32_shift (Z.of_nat i)))
                   (seq 0 256) (crc32_table g);
       crc32_table_initialized := true |}.

(** The body of the byte loop of [ring_buffer_crc32]. *)
Definition crc32_update (table : list Z) (crc : Z) (b : byte) : Z :=
  Z.lxor (nth (Z.to_nat (Z.land (Z.lxor crc (byte.unsigned b)) 0xFF)) table 0)
         (Z.shiftr crc 8).

(** [ring_buffer_crc32(data, size)] with the globals threaded through; the
    loop reads [data[0..size)]. *)
Definition ring_buffer_crc32 (g : crc32_globals) (data : list byte) (size : Z)
  : crc32_globals * Z :=
  let g := if negb (crc32_table_initialized g) then init_crc32_table g else g in
  let crc := fold_left (crc32_update (crc32_table g))
                       (firstn (Z.to_nat size) data) 0xFFFFFFFF in
  (g, Z.lxor crc 0xFFFFFFFF).

(** The globals once [ring_buffer_create] has run: it calls
    [init_crc32_table], and nothing resets the flag afterwards. *)
Definition crc32_globals_ready : crc32_globals := init_crc32_table crc32_globals_initial.

(** The checksum as [ring_buffer_write] and [ring_buffer_read] obtain it: both
    run on an arena made by [ring_buffer_create], hence on the ready table. *)
Definition crc32_of (data : list byte) (size : Z) : Z :=
  snd (ring_buffer_crc32 crc32_globals_ready data size).

(** The reference CRC-32 (IEEE 802.3, reflected), one bit at a time: start
    from [0xFFFFFFFF]; for each byte, xor it into the low bits and shift right
    eight times, xoring in [0xEDB88320] whenever a one is shifted out; invert
    at the end. *)
Definition crc32_reference_bit (crc : Z) : Z :=
  Z.lxor (Z.shiftr crc 1) (if Z.testbit crc 0 then 0xEDB88320 else 0).

Definition crc32_reference_byte (crc : Z) (b : byte) : Z :=
  Nat.iter 8 crc32_reference_bit (Z.lxor crc (byte.unsigned b)).

Definition crc32_reference (data : list byte) : Z :=
  Z.lxor (fold_left crc32_reference_byte data 0xFFFFFFFF) 0xFFFFFFFF.

(** ** Power-of-two rounding *)

Definition ring_buffer_next_power_of_2 (n : Z) : Z :=
  if n =? 0 then 1
  else
    let n := u64 (n - 1) in
    let n := Z.lor n (Z.shiftr n 1) in
    let n := Z.lor n (Z.shiftr n 2) in
    let n := Z.lor n (Z.shiftr n 4) in
    let n := Z.lor n (Z.shiftr n 8) in
    let n := Z.lor n (Z.shiftr n 16) in
    let n := Z.lor n (Z.shiftr n 32) in
    u64 (n + 1).

(** ** Frame header *)

Record arrow_ipc_header_t : Type := {
  h_magic : Z;      (* uint32_t *)
  h_length : Z;     (* uint32_t *)
  h_timestamp : Z;  (* uint64_t *)
  h_checksum : Z;   (* uint32_t *)
  h_reserved : Z    (* uint32_t *)
}.

(** The 24 bytes of the packed struct as they lie in memory. *)
Definition header_to_bytes (h : arrow_ipc_header_t) : list byte :=
  le_split 4 (h_magic h) ++ le_split 4 (h_length h) ++ le_split 8 (h_timestamp h)
  ++ le_split 4 (h_checksum h) ++ le_split 4 (h_reserved h).

(** The fields read back from the bytes of the struct. *)
Definition header_of_bytes (bs : list byte) : arrow_ipc_header_t :=
  {| h_magic := le_combine (firstn 4 bs);
     h_length := le_combine (firstn 4 (skipn 4 bs));
     h_timestamp := le_combine (firstn 8 (skipn 8 bs));
     h_checksum := le_combine (firstn 4 (skipn 16 bs));
     h_reserved := le_combine (firstn 4 (skipn 20 bs)) |}.

(** ** Memory *)

(** [memcpy(dest + dest_off, src + src_off, n)] on the bytes of two objects. *)
Definition memcpy (dest : list byte) (dest_off : Z) (src : list byte) (src_off n : Z)
  : list byte :=
  firstn (Z.to_nat dest_off) dest
  ++ firstn (Z.to_nat n) (skipn (Z.to_nat src_off) src)
  ++ skipn (Z.to_nat (dest_off + n)) dest.

(** [safe_memcpy]: [None] stands for a null pointer. Returns the [int] result
    and the destination object afterwards. *)
Definition safe_memcpy (dest : option (list byte)) (dest_off : Z)
    (src : option (list byte)) (src_off : Z) (n dest_size : Z)
  : Z * option (list byte) :=
  match dest, src with
  | Some d, Some s =>
      if dest_size <? n then (-1, dest)
      else (0, Some (memcpy d dest_off s src_off n))
  | _, _ => (-1, dest)
  end.

(** How the arena was obtained. *)
Inductive alloc_method : Type := By_mmap | By_malloc.

(** The value of [rb->buffer]. *)
Inductive buffer_ptr : Type :=
  | Buf_null
  | Buf_map_failed
  | Buf_region (how : alloc_method) (bytes : list byte).

(** [(uint8_t * )rb->buffer] as an object to copy from or into. *)
Definition buffer_bytes (p : buffer_ptr) : option (list byte) :=
  match p with
  | Buf_null => None
  | Buf_map_failed => Some []
  | Buf_region _ bytes => Some bytes
  end.

Definition buffer_with_bytes (p : buffer_ptr) (bytes : option (list byte)) : buffer_ptr :=
  match p, bytes with
  | Buf_region how _, Some bs => Buf_region how bs
  | _, _ => p
  end.

(** ** Descriptor *)

Inductive ring_buffer_error_t : Type :=
  | RING_BUFFER_SUCCESS
  | RING_BUFFER_ERROR_INVALID_PARAM
  | RING_BUFFER_ERROR_MEMORY
  | RING_BUFFER_ERROR_FULL
  | RING_BUFFER_ERROR_EMPTY
  | RING_BUFFER_ERROR_TOO_LARGE
  | RING_BUFFER_ERROR_CORRUPTED
  | RING_BUFFER_ERROR_BACKPRESSURE
  | RING_BUFFER_ERROR. (* returned by the copy-failure branches; the header
                          does not declare it *)

Record ring_buffer_stats_t : Type := {
  messages_written : Z;
  messages_read : Z;
  bytes_written : Z;
  bytes_read : Z;
  write_errors : Z;
  read_errors : Z;
  backpressure_events : Z
}.

Record ring_buffer_t : Type := {
  rb_buffer : buffer_ptr;
  rb_size : Z;
  rb_fd : Z;
  rb_write_pos : Z;
  rb_read_pos : Z;
  rb_commit_pos : Z;
  rb_is_full : bool;
  rb_backpressure : bool;
  rb_messages_written : Z;
  rb_messages_read : Z;
  rb_bytes_written : Z;
  rb_bytes_read : Z;
  rb_write_errors : Z;
  rb_read_errors : Z;
  rb_backpressure_events : Z;
  rb_backpressure_threshold : double;
  rb_magic : Z
}.

(** Stores into one field of the descriptor. *)
Definition store_buffer (rb : ring_buffer_t) (v : buffer_ptr) : ring_buffer_t :=
  {| rb_buffer := v;
     rb_size := rb_size rb;
     rb_fd := rb_fd rb;
     rb_write_pos := rb_write_pos rb;
     rb_read_pos := rb_read_pos rb;
     rb_commit_pos := rb_commit_pos rb;
     rb_is_full := rb_is_full rb;
     rb_backpressure := rb_backpressure rb;
     rb_messages_written := rb_messages_written rb;
     rb_messages_read := rb_messages_read rb;
     rb_bytes_written := rb_bytes_written rb;
     rb_bytes_read := rb_bytes_read rb;
     rb_write_errors := rb_write_errors rb;
     rb_read_errors := rb_read_errors rb;
     rb_backpressure_events := rb_backpressure_events rb;
     rb_backpressure_threshold := rb_backpressure_threshold rb;
     rb_magic := rb_magic rb |}.

Definition store_write_pos (rb : ring_buffer_t) (v : Z) : ring_buffer_t :=
  {| rb_buffer := rb_buffer rb;
     rb_size := rb_size rb;
     rb_fd := rb_fd rb;
     rb_write_pos := v;
     rb_read_pos := rb_read_pos rb;
     rb_commit_pos := rb_commit_pos rb;
     rb_is_full := rb_is_full rb;
     rb_backpressure := rb_backpressure rb;
     rb_messages_written := rb_messages_written rb;
     rb_messages_read := rb_messages_read rb;
     rb_bytes_written := rb_bytes_written rb;
     rb_bytes_read := rb_bytes_read rb;
     rb_write_errors := rb_write_errors rb;
     rb_read_errors := rb_read_errors rb;
     rb_backpressure_events := rb_backpressure_events rb;
     rb_backpressure_threshold := rb_backpressure_threshold rb;
     rb_magic := rb_magic rb |}.

Definition store_read_pos (rb : ring_buffer_t) (v : Z) : ring_buffer_t :=
  {| rb_buffer := rb_buffer rb;
     rb_size := rb_size rb;
     rb_fd := rb_fd rb;
     rb_write_pos := rb_write_pos rb;
     rb_read_pos := v;
     rb_commit_pos := rb_commit_pos rb;
     rb_is_full := rb_is_full rb;
     rb_backpressure := rb_backpressure rb;
     rb_messages_written := rb_messages_written rb;
     rb_messages_read := rb_messages_read rb;
     rb_bytes_written := rb_bytes_written rb;
     rb_bytes_read := rb_bytes_read rb;
     rb_write_errors := rb_write_errors rb;
     rb_read_errors := rb_read_errors rb;
     rb_backpressure_events := rb_backpressure_events rb;
     rb_backpressure_threshold := rb_backpressure_threshold rb;
     rb_magic := rb_magic rb |}.

Definition store_commit_pos (rb : ring_buffer_t) (v : Z) : ring_buffer_t :=
  {| rb_buffer := rb_buffer rb;
     rb_size := rb_size rb;
     rb_fd := rb_fd rb;
     rb_write_pos := rb_write_pos rb;
     rb_read_pos := rb_read_pos rb;
     rb_commit_pos := v;
     rb_is_full := rb_is_full rb;
     rb_backpressure := rb_backpressure rb;
     rb_messages_written := rb_messages_written rb;
     rb_messages_read := rb_messages_read rb;
     rb_bytes_written := rb_bytes_written rb;
     rb_bytes_read := rb_bytes_read rb;
     rb_write_errors := rb_write_errors rb;
     rb_read_errors := rb_read_errors rb;
     rb_backpressure_events := rb_backpressure_events rb;
     rb_backpressure_threshold := rb_backpressure_threshold rb;
     rb_magic := rb_magic rb |}.

Definition store_backpressure (rb : ring_buffer_t) (v : bool) : ring_buffer_t :=
  {| rb_buffer := rb_buffer rb;
     rb_size := rb_size rb;
     rb_fd := rb_fd rb;
     rb_write_pos := rb_write_pos rb;
     rb_read_pos := rb_read_pos rb;
     rb_commit_pos := rb_commit_pos rb;
     rb_is_full := rb_is_full rb;
     rb_backpressure := v;
     rb_messages_written := rb_messages_written rb;
     rb_messages_read := rb_messages_read rb;
     rb_bytes_written := rb_bytes_written rb;
     rb_bytes_read := rb_bytes_read rb;
     rb_write_errors := rb_write_errors rb;
     rb_read_errors := rb_read_errors rb;
     rb_backpressure_events := rb_backpressure_events rb;
     rb_backpressure_threshold := rb_backpressure_threshold rb;
     rb_magic := rb_magic rb |}.

Definition store_messages_written (rb : ring_buffer_t) (v : Z) : ring_buffer_t :=
  {| rb_buffer := rb_buffer rb;
     rb_size := rb_size rb;
     rb_fd := rb_fd rb;
     rb_write_pos := rb_write_pos rb;
     rb_read_pos := rb_read_pos rb;
     rb_commit_pos := rb_commit_pos rb;
     rb_is_full := rb_is_full rb;
     rb_backpressure := rb_backpressure rb;
     rb_messages_written := v;
     rb_messages_read := rb_messages_read rb;
     rb_bytes_written := rb_bytes_written rb;
     rb_bytes_read := rb_bytes_read rb;
     rb_write_errors := rb_write_errors rb;
     rb_read_errors := rb_read_errors rb;
     rb_backpressure_events := rb_backpressure_events rb;
     rb_backpressure_threshold := rb_backpressure_threshold rb;
     rb_magic := rb_magic rb |}.

Definition store_messages_read (rb : ring_buffer_t) (v : Z) : ring_buffer_t :=
  {| rb_buffer := rb_buffer rb;
     rb_size := rb_size rb;
     rb_fd := rb_fd rb;
     rb_write_pos := rb_write_pos rb;
     rb_read_pos := rb_read_pos rb;
     rb_commit_pos := rb_commit_pos rb;
     rb_is_full := rb_is_full rb;
     rb_backpressure := rb_backpressure rb;
     rb_messages_written := rb_messages_written rb;
     rb_messages_read := v;
     rb_bytes_written := rb_bytes_written rb;
     rb_bytes_read := rb_bytes_read rb;
     rb_write_errors := rb_write_errors rb;
     rb_read_errors := rb_read_errors rb;
     rb_backpressure_events := rb_backpressure_events rb;
     rb_backpressure_threshold := rb_backpressure_threshold rb;
     rb_magic := rb_magic rb |}.

Definition store_bytes_written (rb : ring_buffer_t) (v : Z) : ring_buffer_t :=
  {| rb_buffer := rb_buffer rb;
     rb_size := rb_size rb;
     rb_fd := rb_fd rb;
     rb_write_pos := rb_write_pos rb;
     rb_read_pos := rb_read_pos rb;
     rb_commit_pos := rb_commit_pos rb;
     rb_is_full := rb_is_full rb;
     rb_backpressure := rb_backpressure rb;
     rb_messages_written := rb_messages_written rb;
     rb_messages_read := rb_messages_read rb;
     rb_bytes_written := v;
     rb_bytes_read := rb_bytes_read rb;
     rb_write_errors := rb_write_errors rb;
     rb_read_errors := rb_read_errors rb;
     rb_backpressure_events := rb_backpressure_events rb;
     rb_backpressure_threshold := rb_backpressure_threshold rb;
     rb_magic := rb_magic rb |}.

Definition store_bytes_read (rb : ring_buffer_t) (v : Z) : ring_buffer_t :=
  {| rb_buffer := rb_buffer rb;
     rb_size := rb_size rb;
     rb_fd := rb_fd rb;
     rb_write_pos := rb_write_pos rb;
     rb_read_pos := rb_read_pos rb;
     rb_commit_pos := rb_commit_pos rb;
     rb_is_full := rb_is_full rb;
     rb_backpressure := rb_backpressure rb;
     rb_messages_written := rb_messages_written rb;
     rb_messages_read := rb_messages_read rb;
     rb_bytes_written := rb_bytes_written rb;
     rb_bytes_read := v;
     rb_write_errors := rb_write_errors rb;
     rb_read_errors := rb_read_errors rb;
     rb_backpressure_events := rb_backpressure_events rb;
     rb_backpressure_threshold := rb_backpressure_threshold rb;
     rb_magic := rb_magic rb |}.

Definition store_write_errors (rb : ring_buffer_t) (v : Z) : ring_buffer_t :=
  {| rb_buffer := rb_buffer rb;
     rb_size := rb_size rb;
     rb_fd := rb_fd rb;
     rb_write_pos := rb_write_pos rb;
     rb_read_pos := rb_read_pos rb;
     rb_commit_pos := rb_commit_pos rb;
     rb_is_full := rb_is_full rb;
     rb_backpressure := rb_backpressure rb;
     rb_messages_written := rb_messages_written rb;
     rb_messages_read := rb_messages_read rb;
     rb_bytes_written := rb_bytes_written rb;
     rb_bytes_read := rb_bytes_read rb;
     rb_write_errors := v;
     rb_read_errors := rb_read_errors rb;
     rb_backpressure_events := rb_backpressure_events rb;
     rb_backpressure_threshold := rb_backpressure_threshold rb;
     rb_magic := rb_magic rb |}.

Definition store_read_errors (rb : ring_buffer_t) (v : Z) : ring_buffer_t :=
  {| rb_buffer := rb_buffer rb;
     rb_size := rb_size rb;
     rb_fd := rb_fd rb;
     rb_write_pos := rb_write_pos rb;
     rb_read_pos := rb_read_pos rb;
     rb_commit_pos := rb_commit_pos rb;
     rb_is_full := rb_is_full rb;
     rb_backpressure := rb_backpressure rb;
     rb_messages_written := rb_messages_written rb;
     rb_messages_read := rb_messages_read rb;
     rb_bytes_written := rb_bytes_written rb;
     rb_bytes_read := rb_bytes_read rb;
     rb_write_errors := rb_write_errors rb;
     rb_read_errors := v;
     rb_backpressure_events := rb_backpressure_events rb;
     rb_backpressure_threshold := rb_backpressure_threshold rb;
     rb_magic := rb_magic rb |}.

Definition store_backpressure_events (rb : ring_buffer_t) (v : Z) : ring_buffer_t :=
  {| rb_buffer := rb_buffer rb;
     rb_size := rb_size rb;
     rb_fd := rb_fd rb;
     rb_write_pos := rb_write_pos rb;
     rb_read_pos := rb_read_pos rb;
     rb_commit_pos := rb_commit_pos rb;
     rb_is_full := rb_is_full rb;
     rb_backpressure := rb_backpressure rb;
     rb_messages_written := rb_messages_written rb;
     rb_messages_read := rb_messages_read rb;
     rb_bytes_written := rb_bytes_written rb;
     rb_bytes_read := rb_bytes_read rb;
     rb_write_errors := rb_write_errors rb;
     rb_read_errors := rb_read_errors rb;
     rb_backpressure_events := v;
     rb_backpressure_threshold := rb_backpressure_threshold rb;
     rb_magic := rb_magic rb |}.

(** [atomic_fetch_add] on the 64-bit counters. *)
Definition fetch_add_messages_written (rb : ring_buffer_t) (d : Z) : ring_buffer_t :=
  store_messages_written rb (u64 (rb_messages_written rb + d)).
Definition fetch_add_messages_read (rb : ring_buffer_t) (d : Z) : ring_buffer_t :=
  store_messages_read rb (u64 (rb_messages_read rb + d)).
Definition fetch_add_bytes_written (rb : ring_buffer_t) (d : Z) : ring_buffer_t :=
  store_bytes_written rb (u64 (rb_bytes_written rb + d)).
Definition fetch_add_bytes_read (rb : ring_buffer_t) (d : Z) : ring_buffer_t :=
  store_bytes_read rb (u64 (rb_bytes_read rb + d)).
Definition fetch_add_write_errors (rb : ring_buffer_t) (d : Z) : ring_buffer_t :=
  store_write_errors rb (u64 (rb_write_errors rb + d)).
Definition fetch_add_read_errors (rb : ring_buffer_t) (d : Z) : ring_buffer_t :=
  store_read_errors rb (u64 (rb_read_errors rb + d)).
Definition fetch_add_backpressure_events (rb : ring_buffer_t) (d : Z) : ring_buffer_t :=
  store_backpressure_events rb (u64 (rb_backpressure_events rb + d)).

Record ring_buffer_message_t : Type := {
  msg_header : arrow_ipc_header_t;
  msg_data : option Z;   (* [Some off] is the pointer [buffer + off]; [None] any other value *)
  msg_data_size : Z
}.

(** The bytes a message borrows from the arena. *)
Definition message_payload (rb : ring_buffer_t) (msg : ring_buffer_message_t) : list byte :=
  match buffer_bytes (rb_buffer rb), msg_data msg with
  | Some bytes, Some off =>
      firstn (Z.to_nat (msg_data_size msg)) (skipn (Z.to_nat off) bytes)
  | _, _ => []
  end.

(** ** Lifecycle *)

(** What the allocator calls of [ring_buffer_create] return. A build without
    [MAP_ANON] and [MAP_ANONYMOUS] behaves as if [mmap] always failed. *)
Inductive allocation : Type :=
  | Calloc_fails
  | Mmap_ok
  | Mmap_fails_malloc_ok
  | Mmap_fails_malloc_fails.

(** The descriptor as [ring_buffer_create] leaves it: a zeroed region of
    [size] bytes ([mmap] of anonymous memory, or [malloc] and [memset]), all
    positions, flags and counters zero. *)
Definition initial_descriptor (how : alloc_method) (size : Z) : ring_buffer_t :=
  {| rb_buffer := Buf_region how (repeat Byte.x00 (Z.to_nat size));
     rb_size := size;
     rb_fd := -1;
     rb_write_pos := 0;
     rb_read_pos := 0;
     rb_commit_pos := 0;
     rb_is_full := false;
     rb_backpressure := false;
     rb_messages_written := 0;
     rb_messages_read := 0;
     rb_bytes_written := 0;
     rb_bytes_read := 0;
     rb_write_errors := 0;
     rb_read_errors := 0;
     rb_backpressure_events := 0;
     rb_backpressure_threshold := RING_BUFFER_BACKPRESSURE_THRESHOLD;
     rb_magic := RING_BUFFER_MAGIC |}.

Definition ring_buffer_create (g : crc32_globals) (size : Z) (a : allocation)
  : crc32_globals * option ring_buffer_t :=
  let size := if size =? 0 then RING_BUFFER_DEFAULT_SIZE else size in
  let size := ring_buffer_next_power_of_2 size in
  match a with
  | Calloc_fails => (g, None)
  | Mmap_fails_malloc_fails => (g, None)
  | Mmap_ok => (init_crc32_table g, Some (initial_descriptor By_mmap size))
  | Mmap_fails_malloc_ok => (init_crc32_table g, Some (initial_descriptor By_malloc size))
  end.

(** Whether the allocator calls give [ring_buffer_create] a descriptor and a
    region: [calloc] succeeds, and so does [mmap] or else [malloc]. *)
Definition allocation_succeeds (a : allocation) : bool :=
  match a with
  | Mmap_ok | Mmap_fails_malloc_ok => true
  | Calloc_fails | Mmap_fails_malloc_fails => false
  end.




(** ** Accessors *)

(** The local [used] of [ring_buffer_utilization]. *)
Definition utilization_used (rb : ring_buffer_t) : Z :=
  let write_pos := rb_write_pos rb in
  let read_pos := rb_read_pos rb in
  if read_pos <=? write_pos then u64 (write_pos - read_pos)
  else u64 (rb_size rb - u64 (read_pos - write_pos)).

Definition ring_buffer_utilization (h : option ring_buffer_t) : double :=
  match h with
  | None => double_zero
  | Some rb => double_div (double_of_size_t (utilization_used rb))
                          (double_of_size_t (rb_size rb))
  end.

Definition ring_buffer_available_write (h : option ring_buffer_t) : Z :=
  match h with
  | None => 0
  | Some rb =>
      let write_pos := rb_write_pos rb in
      let read_pos := rb_read_pos rb in
      if read_pos <=? write_pos then u64 (u64 (rb_size rb - u64 (write_pos - read_pos)) - 1)
      else u64 (u64 (read_pos - write_pos) - 1)
  end.

Definition ring_buffer_available_read (h : option ring_buffer_t) : Z :=
  match h with
  | None => 0
  | Some rb =>
      let write_pos := rb_commit_pos rb in
      let read_pos := rb_read_pos rb in
      if read_pos <=? write_pos then u64 (write_pos - read_pos)
      else u64 (rb_size rb - u64 (read_pos - write_pos))
  end.

Definition ring_buffer_is_backpressure (h : option ring_buffer_t) : bool :=
  match h with
  | None => false
  | Some rb => rb_backpressure rb
  end.

(** [stats] is the object the second argument points to ([None]: null); the
    result is that object after the call. *)
Definition ring_buffer_get_stats (h : option ring_buffer_t) (stats : option ring_buffer_stats_t)
  : option ring_buffer_stats_t :=
  match h, stats with
  | Some rb, Some _ =>
      Some {| messages_written := rb_messages_written rb;
              messages_read := rb_messages_read rb;
              bytes_written := rb_bytes_written rb;
              bytes_read := rb_bytes_read rb;
              write_errors := rb_write_errors rb;
              read_errors := rb_read_errors rb;
              backpressure_events := rb_backpressure_events rb |}
  | _, _ => stats
  end.

Definition ring_buffer_reset_stats (h : option ring_buffer_t) : option ring_buffer_t :=
  match h with
  | None => None
  | Some rb =>
      let rb := store_messages_written rb 0 in
      let rb := store_messages_read rb 0 in
      let rb := store_bytes_written rb 0 in
      let rb := store_bytes_read rb 0 in
      let rb := store_write_errors rb 0 in
      let rb := store_read_errors rb 0 in
      Some (store_backpressure_events rb 0)
  end.

Definition ring_buffer_validate (h : option ring_buffer_t) : bool :=
  match h with
  | None => false
  | Some rb =>
      if negb (rb_magic rb =? RING_BUFFER_MAGIC) then false
      else if match rb_buffer rb with Buf_region _ _ => false | _ => true end then false
      else if (rb_size rb =? 0) || negb (Z.land (rb_size rb) (u64 (rb_size rb - 1)) =? 0)
           then false
      else if (rb_size rb <=? rb_write_pos rb) || (rb_size rb <=? rb_read_pos rb)
              || (rb_size rb <=? rb_commit_pos rb)
           then false
      else true
  end.

(** ** The write path *)

(** The outcome of the checks and of the reservation of [ring_buffer_write]:
    either an early return, or the space between the snapshot [write_pos] and
    [new_write_pos] now belongs to the caller. *)
Inductive reservation : Type :=
  | Refused (e : ring_buffer_error_t) (rb : ring_buffer_t)
  | Reserved (rb : ring_buffer_t) (write_pos new_write_pos : Z).

(** From the validation to the compare-and-swap on [write_pos]. The exchange
    is taken at the first attempt: between the load and the exchange no other
    thread runs. *)
Definition write_reserve (rb : ring_buffer_t) (size : Z) : reservation :=
  if negb (ring_buffer_validate (Some rb)) then
    Refused RING_BUFFER_ERROR_CORRUPTED (fetch_add_write_errors rb 1)
  else if RING_BUFFER_MAX_MESSAGE_SIZE <? size then
    Refused RING_BUFFER_ERROR_TOO_LARGE (fetch_add_write_errors rb 1)
  else if double_ge (ring_buffer_utilization (Some rb)) (rb_backpressure_threshold rb) then
    Refused RING_BUFFER_ERROR_BACKPRESSURE
            (fetch_add_backpressure_events (store_backpressure rb true) 1)
  else
    let rb := store_backpressure rb false in
    let msg_size := total_message_size size in
    if ring_buffer_available_write (Some rb) <? msg_size then
      Refused RING_BUFFER_ERROR_FULL (fetch_add_write_errors rb 1)
    else
      let write_pos := rb_write_pos rb in
      let new_write_pos := Z.land (u64 (write_pos + msg_size)) (u64 (rb_size rb - 1)) in
      Reserved (store_write_pos rb new_write_pos) write_pos new_write_pos.

(** The copy of the header into the arena, split in two at the arena end. *)
Definition write_header (buffer : option (list byte)) (rb_size write_pos : Z)
    (header : arrow_ipc_header_t) : Z * option (list byte) :=
  let hdr := Some (header_to_bytes header) in
  if u64 (write_pos + sizeof_arrow_ipc_header_t) <=? rb_size then
    safe_memcpy buffer write_pos hdr 0 sizeof_arrow_ipc_header_t (u64 (rb_size - write_pos))
  else
    let first_part := u64 (rb_size - write_pos) in
    let '(r, buffer) := safe_memcpy buffer write_pos hdr 0 first_part first_part in
    if negb (r =? 0) then (r, buffer)
    else safe_memcpy buffer 0 hdr first_part
                     (u64 (sizeof_arrow_ipc_header_t - first_part)) rb_size.

(** The copy of the payload, split in two at the arena end. *)
Definition write_data (buffer : option (list byte)) (rb_size write_pos : Z)
    (data : option (list byte)) (size : Z) : Z * option (list byte) :=
  let data_start := Z.land (u64 (write_pos + sizeof_arrow_ipc_header_t)) (u64 (rb_size - 1)) in
  if u64 (data_start + size) <=? rb_size then
    safe_memcpy buffer data_start data 0 size (u64 (rb_size - data_start))
  else
    let first_part := u64 (rb_size - data_start) in
    let '(r, buffer) := safe_memcpy buffer data_start data 0 first_part first_part in
    if negb (r =? 0) then (r, buffer)
    else safe_memcpy buffer 0 data first_part (u64 (size - first_part)) rb_size.

(** Header construction and both copies. [now] is what
    [ring_buffer_timestamp] returns. The flag is false when a [safe_memcpy]
    failed, that is when the function returns [RING_BUFFER_ERROR]. *)
Definition write_frame (rb : ring_buffer_t) (data : option (list byte))
    (size now write_pos : Z) : bool * ring_buffer_t :=
  let header :=
    {| h_magic := ARROW_IPC_MAGIC;
       h_length := u32 size;
       h_timestamp := u64 now;
       h_checksum := match data with Some d => crc32_of d size | None => 0 end;
       h_reserved := 0 |} in
  let buffer := buffer_bytes (rb_buffer rb) in
  let '(r, buffer) := write_header buffer (rb_size rb) write_pos header in
  if negb (r =? 0) then (false, store_buffer rb (buffer_with_bytes (rb_buffer rb) buffer))
  else
    let '(r, buffer) := write_data buffer (rb_size rb) write_pos data size in
    (r =? 0, store_buffer rb (buffer_with_bytes (rb_buffer rb) buffer)).

(** The store to [commit_pos] and the statistics. *)
Definition write_commit (rb : ring_buffer_t) (size new_write_pos : Z) : ring_buffer_t :=
  let rb := store_commit_pos rb new_write_pos in
  let rb := fetch_add_messages_written rb 1 in
  fetch_add_bytes_written rb size.

Definition ring_buffer_write (h : option ring_buffer_t) (data : option (list byte))
    (size now : Z) : ring_buffer_error_t * option ring_buffer_t :=
  match h, data with
  | Some rb, Some _ =>
      if size =? 0 then (RING_BUFFER_ERROR_INVALID_PARAM, h)
      else
        match write_reserve rb size with
        | Refused e rb => (e, Some rb)
        | Reserved rb write_pos new_write_pos =>
            match write_frame rb data size now write_pos with
            | (false, rb) => (RING_BUFFER_ERROR, Some rb)
            | (true, rb) =>
                (RING_BUFFER_SUCCESS, Some (write_commit rb size new_write_pos))
            end
        end
  | _, _ => (RING_BUFFER_ERROR_INVALID_PARAM, h)
  end.

(** ** The read path *)

(** The copy of the header out of the arena into the local struct, whose
    bytes start indeterminate (zero here; every one is overwritten). *)
Definition read_header (buffer : option (list byte)) (rb_size read_pos : Z)
  : Z * option (list byte) :=
  let header := Some (repeat Byte.x00 (Z.to_nat sizeof_arrow_ipc_header_t)) in
  if u64 (read_pos + sizeof_arrow_ipc_header_t) <=? rb_size then
    safe_memcpy header 0 buffer read_pos sizeof_arrow_ipc_header_t sizeof_arrow_ipc_header_t
  else
    let first_part := u64 (rb_size - read_pos) in
    let '(r, header) :=
      safe_memcpy header 0 buffer read_pos first_part sizeof_arrow_ipc_header_t in
    if negb (r =? 0) then (r, header)
    else safe_memcpy header first_part buffer 0
                     (u64 (sizeof_arrow_ipc_header_t - first_part))
                     (u64 (sizeof_arrow_ipc_header_t - first_part)).

(** [out] is the object [msg] points to ([None]: null); the third component
    of the result is that object after the call. *)
Definition ring_buffer_read (h : option ring_buffer_t) (out : option ring_buffer_message_t)
  : ring_buffer_error_t * option ring_buffer_t * option ring_buffer_message_t :=
  match h, out with
  | Some rb, Some msg =>
      if negb (ring_buffer_validate (Some rb)) then
        (RING_BUFFER_ERROR_CORRUPTED, Some (fetch_add_read_errors rb 1), out)
      else if ring_buffer_available_read (Some rb) <? sizeof_arrow_ipc_header_t then
        (RING_BUFFER_ERROR_EMPTY, h, out)
      else
        let read_pos := rb_read_pos rb in
        let buffer := buffer_bytes (rb_buffer rb) in
        let '(r, header_bytes) := read_header buffer (rb_size rb) read_pos in
        if negb (r =? 0) then (RING_BUFFER_ERROR, h, out)
        else
          let header :=
            header_of_bytes (match header_bytes with Some bs => bs | None => [] end) in
          if negb (h_magic header =? ARROW_IPC_MAGIC) then
            (RING_BUFFER_ERROR_CORRUPTED, Some (fetch_add_read_errors rb 1), out)
          else if RING_BUFFER_MAX_MESSAGE_SIZE <? h_length header then
            (RING_BUFFER_ERROR_CORRUPTED, Some (fetch_add_read_errors rb 1), out)
          else
            let msg_size := total_message_size (h_length header) in
            if ring_buffer_available_read (Some rb) <? msg_size then
              (RING_BUFFER_ERROR_EMPTY, h, out)
            else
              let data_start :=
                Z.land (u64 (read_pos + sizeof_arrow_ipc_header_t)) (u64 (rb_size rb - 1)) in
              if u64 (data_start + h_length header) <=? rb_size rb then
                let msg :=
                  {| msg_header := msg_header msg;
                     msg_data := Some data_start;
                     msg_data_size := h_length header |} in
                let checksum :=
                  crc32_of (skipn (Z.to_nat data_start)
                                  (match buffer with Some bs => bs | None => [] end))
                           (h_length header) in
                if negb (checksum =? h_checksum header) then
                  (RING_BUFFER_ERROR_CORRUPTED, Some (fetch_add_read_errors rb 1), Some msg)
                else
                  let msg :=
                    {| msg_header := header;
                       msg_data := msg_data msg;
                       msg_data_size := msg_data_size msg |} in
                  let new_read_pos := Z.land (u64 (read_pos + msg_size)) (u64 (rb_size rb - 1)) in
                  let rb := store_read_pos rb new_read_pos in
                  let rb := fetch_add_messages_read rb 1 in
                  let rb := fetch_add_bytes_read rb (h_length header) in
                  (RING_BUFFER_SUCCESS, Some rb, Some msg)
              else
                (RING_BUFFER_ERROR_CORRUPTED, Some (fetch_add_read_errors rb 1), out)
  | _, _ => (RING_BUFFER_ERROR_INVALID_PARAM, h, out)
  end.

(** ** Producers running concurrently *)

(** Where a producer stands inside [ring_buffer_write]. Between two of these
    points the producer runs a stretch of the function without another thread
    in between, so every run below is also a run of the C program. *)
Inductive producer : Type :=
  | Calling (data : option (list byte)) (size now : Z)
  | Has_reserved (data : option (list byte)) (size now write_pos new_write_pos : Z)
  | Has_copied (size write_pos new_write_pos : Z)
  | Returned (e : ring_buffer_error_t).

Definition producer_step (rb : ring_buffer_t) (p : producer) : ring_buffer_t * producer :=
  match p with
  | Calling data size now =>
      match data with
      | None => (rb, Returned RING_BUFFER_ERROR_INVALID_PARAM)
      | Some _ =>
          if size =? 0 then (rb, Returned RING_BUFFER_ERROR_INVALID_PARAM)
          else
            match write_reserve rb size with
            | Refused e rb => (rb, Returned e)
            | Reserved rb write_pos new_write_pos =>
                (rb, Has_reserved data size now write_pos new_write_pos)
            end
      end
  | Has_reserved data size now write_pos new_write_pos =>
      match write_frame rb data size now write_pos with
      | (false, rb) => (rb, Returned RING_BUFFER_ERROR)
      | (true, rb) => (rb, Has_copied size write_pos new_write_pos)
      end
  | Has_copied size write_pos new_write_pos =>
      (write_commit rb size new_write_pos, Returned RING_BUFFER_SUCCESS)
  | Returned e => (rb, p)
  end.

Record system : Type := {
  arena : ring_buffer_t;
  producers : list producer
}.

(** Producer number [i] takes its next step. *)
Definition system_step (s : system) (i : nat) : system :=
  match nth_error (producers s) i with
  | None => s
  | Some p =>
      let '(rb, p) := producer_step (arena s) p in
      {| arena := rb;
         producers := firstn i (producers s) ++ p :: skipn (S i) (producers s) |}
  end.

(** A schedule names the producer that moves at each turn. *)
Definition run (schedule : list nat) (s : system) : system :=
  fold_left system_step schedule s.

(** ** Auxiliary notions used by the statements *)

(** The [size_t] fields of a descriptor hold values of their type. *)
Definition descriptor_in_range (rb : ring_buffer_t) : Prop :=
  is_size_t (rb_size rb) /\ is_size_t (rb_write_pos rb)
  /\ is_size_t (rb_read_pos rb) /\ is_size_t (rb_commit_pos rb).

(** In [ring_buffer_next_power_of_2], after the shifts by 1, 2, ..., [w/2] a
    bit of [n] is set when one of the [w] bits of the input [m] from there
    upwards is. *)
Definition smeared (m n w : Z) : Prop :=
  forall i, 0 <= i ->
    Z.testbit n i = true <-> exists j, 0 <= j < w /\ Z.testbit m (i + j) = true.

(** The header [ring_buffer_write] builds for a payload. *)
Definition frame_header (data : list byte) (size now : Z) : arrow_ipc_header_t :=
  {| h_magic := ARROW_IPC_MAGIC;
     h_length := u32 size;
     h_timestamp := u64 now;
     h_checksum := crc32_of data size;
     h_reserved := 0 |}.

(** A fresh arena of [n] bytes after one frame with payload [p] was written
    at time [now]: header, payload, and the zeros that were there. *)
Definition fresh_written (how : alloc_method) (n : Z) (p : list byte) (now : Z)
  : ring_buffer_t :=
  let size := Z.of_nat (length p) in
  let ms := total_message_size size in
  let hdr := header_to_bytes (frame_header p size now) in
  let zeros := repeat Byte.x00 (Z.to_nat n) in
  let tail := skipn (Z.to_nat (sizeof_arrow_ipc_header_t + size))
                    (hdr ++ skipn (Z.to_nat sizeof_arrow_ipc_header_t) zeros) in
  write_commit (store_buffer (store_write_pos (initial_descriptor how n) ms)
                             (Buf_region how (hdr ++ p ++ tail))) size ms.

(** The message handed out when that frame is read. *)
Definition fresh_message (p : list byte) (now : Z) : ring_buffer_message_t :=
  {| msg_header := frame_header p (Z.of_nat (length p)) now;
     msg_data := Some sizeof_arrow_ipc_header_t;
     msg_data_size := Z.of_nat (length p) |}.

(** The arena once that frame was read. *)
Definition fresh_consumed (how : alloc_method) (n : Z) (p : list byte) (now : Z)
  : ring_buffer_t :=
  let size := Z.of_nat (length p) in
  fetch_add_bytes_read
    (fetch_add_messages_read
       (store_read_pos (fresh_written how n p now) (total_message_size size)) 1) size.

(** A message object before the first read fills it. *)
Definition blank_message : ring_buffer_message_t :=
  {| msg_header := {| h_magic := 0; h_length := 0; h_timestamp := 0;
                      h_checksum := 0; h_reserved := 0 |};
     msg_data := None;
     msg_data_size := 0 |}.

(** Bytes from their codes. *)
Definition bytes_of (codes : list Z) : list byte := map byte.of_Z codes.

(** ** Concrete arenas and payloads for the examples *)

Definition hello_world : list byte :=
  bytes_of [72; 101; 108; 108; 111; 44; 32; 87; 111; 114; 108; 100; 33].

(** Eighty bytes, whose frame fills 104 of 128 bytes. *)
Definition payload_80 : list byte := repeat Byte.x41 80.

(** A 128-byte arena after [payload_80] was written into it: utilization is
    104/128. *)
Definition arena_at_threshold : ring_buffer_t := fresh_written By_mmap 128 payload_80 0.

(** A 64-byte arena whose committed bytes carry no frame magic. *)
Definition arena_bad_magic : ring_buffer_t :=
  store_commit_pos (store_write_pos (initial_descriptor By_mmap 64) 32) 32.

(** Two producers about to write one byte each into a fresh 128-byte arena. *)
Definition two_producers : system :=
  {| arena := initial_descriptor By_mmap 128;
     producers := [Calling (Some [Byte.x41]) 1 100; Calling (Some [Byte.x42]) 1 200] |}.

(** The bytes of an arena ([nil] when there is no region). *)
Definition arena_bytes (rb : ring_buffer_t) : list byte :=
  match buffer_bytes (rb_buffer rb) with
  | Some bytes => bytes
  | None => []
  end.

(** A 128-byte arena driven through the interface only: a one-byte frame is
    written and read, then [payload_80] is written at offset 32, so that its
    payload runs past the arena end. *)
Definition arena_wrapped : option ring_buffer_t :=
  let h := Some (initial_descriptor By_mmap 128) in
  let h := snd (ring_buffer_write h (Some [Byte.x41]) 1 0) in
  let h := snd (fst (ring_buffer_read h (Some blank_message))) in
  snd (ring_buffer_write h (Some payload_80) 80 0).

(** [arena_at_threshold] with the first payload byte overwritten. *)
Definition arena_bad_checksum : ring_buffer_t :=
  store_buffer arena_at_threshold
    (Buf_region By_mmap
       (memcpy (arena_bytes arena_at_threshold) 24 [Byte.x42] 0 1)).

(** [arena_at_threshold] with the length field of the header overwritten by
    16 MiB + 1. *)
Definition arena_bad_length : ring_buffer_t :=
  store_buffer arena_at_threshold
    (Buf_region By_mmap
       (memcpy (arena_bytes arena_at_threshold) 4
               (le_split 4 (RING_BUFFER_MAX_MESSAGE_SIZE + 1)) 0 4)).


(** ** Error strings *)

(** The value of each enumerator; [RING_BUFFER_ERROR] has none. *)
Definition error_code (e : ring_buffer_error_t) : option Z :=
  match e with
  | RING_BUFFER_SUCCESS => Some 0
  | RING_BUFFER_ERROR_INVALID_PARAM => Some (-1)
  | RING_BUFFER_ERROR_MEMORY => Some (-2)
  | RING_BUFFER_ERROR_FULL => Some (-3)
  | RING_BUFFER_ERROR_EMPTY => Some (-4)
  | RING_BUFFER_ERROR_TOO_LARGE => Some (-5)
  | RING_BUFFER_ERROR_CORRUPTED => Some (-6)
  | RING_BUFFER_ERROR_BACKPRESSURE => Some (-7)
  | RING_BUFFER_ERROR => None
  end.

(** The [switch] of [ring_buffer_error_string] on the integer it receives. *)
Definition ring_buffer_error_string (error : Z) : String.string :=
  if error =? 0 then "Success"%string
  else if error =? -1 then "Invalid parameter"%string
  else if error =? -2 then "Memory allocation error"%string
  else if error =? -3 then "Buffer full"%string
  else if error =? -4 then "Buffer empty"%string
  else if error =? -5 then "Message too large"%string
  else if error =? -6 then "Buffer corrupted"%string
  else if error =? -7 then "Backpressure active"%string
  else "Unknown error"%string.

(** ** Test helpers of [test_ring_buffer.c] *)

(** [(uint8_t)((pattern + i) & 0xFF)], the sum taken in [size_t]. *)
Definition test_byte (pattern : Z) (i : nat) : byte :=
  byte.of_Z (Z.land (u64 (pattern + Z.of_nat i)) 0xFF).

(** [generate_test_data]: the caller's object after the loop has stored its
    first [size] bytes. *)
Definition generate_test_data (data : list byte) (size pattern : Z) : list byte :=
  fold_left (fun bytes i => firstn i bytes ++ test_byte pattern i :: skipn (S i) bytes)
            (seq 0 (Z.to_nat size)) data.

(** [verify_test_data]: false at the first byte that differs. *)
Definition verify_test_data (data : list byte) (size pattern : Z) : bool :=
  forallb (fun i => byte.unsigned (nth i data Byte.x00) =? byte.unsigned (test_byte pattern i))
          (seq 0 (Z.to_nat size)).

(** ** Sequences of calls *)

(** A descriptor as the interface keeps it: fields in range, validation
    passing, and a region of exactly [size] bytes. *)
Definition arena_ok (rb : ring_buffer_t) : Prop :=
  descriptor_in_range rb
  /\ ring_buffer_validate (Some rb) = true
  /\ Z.of_nat (length (arena_bytes rb)) = rb_size rb.

(** A call made by a single thread: a write of a whole byte sequence stamped
    [now], or a read. *)
Inductive queue_op : Type :=
  | Op_write (p : list byte) (now : Z)
  | Op_read.

(** What a call reports: its code and, for a successful read, the bytes the
    message points to when the call returns. *)
Definition op_result : Type := (ring_buffer_error_t * list byte)%type.

Definition read_result (r : ring_buffer_error_t * option ring_buffer_t
                              * option ring_buffer_message_t) : op_result :=
  match r with
  | (RING_BUFFER_SUCCESS, Some rb, Some msg) => (RING_BUFFER_SUCCESS, message_payload rb msg)
  | (e, _, _) => (e, [])
  end.

(** The calls of [ops] made one after the other on the same arena and the
    same message object. *)
Fixpoint run_ops (h : option ring_buffer_t) (out : option ring_buffer_message_t)
    (ops : list queue_op)
  : list op_result * option ring_buffer_t * option ring_buffer_message_t :=
  match ops with
  | [] => ([], h, out)
  | Op_write p now :: ops =>
      let '(e, h) := ring_buffer_write h (Some p) (Z.of_nat (length p)) now in
      let '(rs, h, out) := run_ops h out ops in
      ((e, []) :: rs, h, out)
  | Op_read :: ops =>
      let r := ring_buffer_read h out in
      let '(rs, h, out) := run_ops (snd (fst r)) (snd r) ops in
      (read_result r :: rs, h, out)
  end.

(** The same calls on an unbounded first-in first-out queue of payloads. *)
Fixpoint fifo_model (q : list (list byte)) (ops : list queue_op) : list op_result :=
  match ops with
  | [] => []
  | Op_write p _ :: ops => (RING_BUFFER_SUCCESS, []) :: fifo_model (q ++ [p]) ops
  | Op_read :: ops =>
      match q with
      | [] => (RING_BUFFER_ERROR_EMPTY, []) :: fifo_model [] ops
      | p :: q => (RING_BUFFER_SUCCESS, p) :: fifo_model q ops
      end
  end.

(** Every write of [ops] reported [Success]. *)
Fixpoint writes_succeeded (ops : list queue_op) (results : list op_result) : Prop :=
  match ops, results with
  | Op_write _ _ :: ops, (e, _) :: results =>
      e = RING_BUFFER_SUCCESS /\ writes_succeeded ops results
  | Op_read :: ops, _ :: results => writes_succeeded ops results
  | _, _ => True
  end.

(** The [len] bytes of an arena of [n] bytes from offset [pos] on, continuing
    at offset 0 past the end. *)
Definition bytes_from (bytes : list byte) (n pos : Z) (len : nat) : list byte :=
  map (fun k => nth (Z.to_nat ((pos + Z.of_nat k) mod n)) bytes Byte.x00) (seq 0 len).

(** Byte [i] of an arena of [n] bytes once [src] has been stored from offset
    [off] on, continuing at offset 0 past the end. *)
Definition stored_at (bytes : list byte) (n off : Z) (src : list byte) (i : nat) : byte :=
  let j := (Z.of_nat i - off) mod n in
  if j <? Z.of_nat (length src) then nth (Z.to_nat j) src Byte.x00
  else nth i bytes Byte.x00.

(** Frames lying one after the other from [pos] around the arena, each with
    its header and its payload, the payload in one piece. *)
Fixpoint frames_at (bytes : list byte) (n pos : Z) (frames : list (list byte * Z)) : Prop :=
  match frames with
  | [] => True
  | (p, now) :: frames =>
      let size := Z.of_nat (length p) in
      1 <= size <= RING_BUFFER_MAX_MESSAGE_SIZE
      /\ (pos + sizeof_arrow_ipc_header_t) mod n + size <= n
      /\ bytes_from bytes n pos (Z.to_nat (sizeof_arrow_ipc_header_t + size))
         = header_to_bytes (frame_header p size now) ++ p
      /\ frames_at bytes n ((pos + total_message_size size) mod n) frames
  end.

Fixpoint frames_size (frames : list (list byte * Z)) : Z :=
  match frames with
  | [] => 0
  | (p, _) :: frames => total_message_size (Z.of_nat (length p)) + frames_size frames
  end.

(** The committed part of the arena is exactly [frames] and nothing is
    reserved beyond it. *)
Definition queue_holds (rb : ring_buffer_t) (frames : list (list byte * Z)) : Prop :=
  arena_ok rb
  /\ rb_write_pos rb = rb_commit_pos rb
  /\ frames_size frames < rb_size rb
  /\ (rb_read_pos rb + frames_size frames) mod rb_size rb = rb_commit_pos rb
  /\ frames_at (arena_bytes rb) (rb_size rb) (rb_read_pos rb) frames.

(** What the consumer relies on: the bytes from [read_pos] up to
    [commit_pos] are exactly [frames]. Nothing is said about [write_pos]. *)
Definition reader_view (rb : ring_buffer_t) (frames : list (list byte * Z)) : Prop :=
  arena_ok rb
  /\ frames_size frames < rb_size rb
  /\ (rb_read_pos rb + frames_size frames) mod rb_size rb = rb_commit_pos rb
  /\ frames_at (arena_bytes rb) (rb_size rb) (rb_read_pos rb) frames.

(** The producer of one write after [k] of its steps, started on [rb]. *)
Definition write_steps (k : nat) (rb : ring_buffer_t) (p : producer)
  : ring_buffer_t * producer :=
  Nat.iter k (fun s => producer_step (fst s) (snd s)) (rb, p).

(** No write of [ops] has a payload that runs past the arena end, when the
    first frame goes to [pos] and every write is accepted. *)
Fixpoint payloads_unsplit (n pos : Z) (ops : list queue_op) : Prop :=
  match ops with
  | [] => True
  | Op_write p _ :: ops =>
      let size := Z.of_nat (length p) in
      (pos + sizeof_arrow_ipc_header_t) mod n + size <= n
      /\ payloads_unsplit n ((pos + total_message_size size) mod n) ops
  | Op_read :: ops => payloads_unsplit n pos ops
  end.

(** The descriptor as [ring_buffer_reset_stats] leaves it. *)
Definition stats_cleared (rb : ring_buffer_t) : ring_buffer_t :=
  match ring_buffer_reset_stats (Some rb) with
  | Some rb' => rb'
  | None => rb
  end.

(** ** More arenas for the examples *)

(** Eighty-eight bytes, whose frame fills 112 of 128 bytes. *)
Definition payload_88 : list byte := repeat Byte.x42 88.

(** The arena [h] points to, or a fresh 128-byte arena when [h] is null. *)
Definition arena_of (h : option ring_buffer_t) : ring_buffer_t :=
  match h with
  | Some rb => rb
  | None => initial_descriptor By_mmap 128
  end.

(** A 128-byte arena after the frame of [p] was written and read: it is
    empty and its positions stand behind that frame. *)
Definition arena_drained (p : list byte) : ring_buffer_t :=
  let h := Some (initial_descriptor By_mmap 128) in
  let h := snd (ring_buffer_write h (Some p) (Z.of_nat (length p)) 0) in
  arena_of (snd (fst (ring_buffer_read h (Some blank_message)))).

(** Positions at 112: the next header lies across the arena end. *)
Definition arena_at_112 : ring_buffer_t := arena_drained payload_88.

(** Positions at 32: a payload of eighty bytes runs past the arena end. *)
Definition arena_at_32 : ring_buffer_t := arena_drained [Byte.x41].

(** A 128-byte arena holding the frame of [hello_world]. *)
Definition arena_hello : ring_buffer_t := fresh_written By_mmap 128 hello_world 0.

(** A statistics object with arbitrary contents. *)
Definition stale_stats : ring_buffer_stats_t :=
  {| messages_written := 7; messages_read := 7; bytes_written := 7; bytes_read := 7;
     write_errors := 7; read_errors := 7; backpressure_events := 7 |}.

(** ** Counting the calls *)

(** The seven counters of a descriptor, as [ring_buffer_get_stats] copies
    them. *)
Definition stats_of (rb : ring_buffer_t) : ring_buffer_stats_t :=
  {| messages_written := rb_messages_written rb;
     messages_read := rb_messages_read rb;
     bytes_written := rb_bytes_written rb;
     bytes_read := rb_bytes_read rb;
     write_errors := rb_write_errors rb;
     read_errors := rb_read_errors rb;
     backpressure_events := rb_backpressure_events rb |}.

(** What one call adds to the counters, judged by what it reported. *)
Definition tally_call (op : queue_op) (r : op_result) (s : ring_buffer_stats_t)
  : ring_buffer_stats_t :=
  match op, fst r with
  | Op_write p _, RING_BUFFER_SUCCESS =>
      {| messages_written := u64 (messages_written s + 1);
         messages_read := messages_read s;
         bytes_written := u64 (bytes_written s + Z.of_nat (length p));
         bytes_read := bytes_read s;
         write_errors := write_errors s;
         read_errors := read_errors s;
         backpressure_events := backpressure_events s |}
  | Op_write _ _, RING_BUFFER_ERROR_CORRUPTED
  | Op_write _ _, RING_BUFFER_ERROR_TOO_LARGE
  | Op_write _ _, RING_BUFFER_ERROR_FULL =>
      {| messages_written := messages_written s;
         messages_read := messages_read s;
         bytes_written := bytes_written s;
         bytes_read := bytes_read s;
         write_errors := u64 (write_errors s + 1);
         read_errors := read_errors s;
         backpressure_events := backpressure_events s |}
  | Op_write _ _, RING_BUFFER_ERROR_BACKPRESSURE =>
      {| messages_written := messages_written s;
         messages_read := messages_read s;
         bytes_written := bytes_written s;
         bytes_read := bytes_read s;
         write_errors := write_errors s;
         read_errors := read_errors s;
         backpressure_events := u64 (backpressure_events s + 1) |}
  | Op_read, RING_BUFFER_SUCCESS =>
      {| messages_written := messages_written s;
         messages_read := u64 (messages_read s + 1);
         bytes_written := bytes_written s;
         bytes_read := u64 (bytes_read s + Z.of_nat (length (snd r)));
         write_errors := write_errors s;
         read_errors := read_errors s;
         backpressure_events := backpressure_events s |}
  | Op_read, RING_BUFFER_ERROR_CORRUPTED =>
      {| messages_written := messages_written s;
         messages_read := messages_read s;
         bytes_written := bytes_written s;
         bytes_read := bytes_read s;
         write_errors := write_errors s;
         read_errors := u64 (read_errors s + 1);
         backpressure_events := backpressure_events s |}
  | _, _ => s
  end.

(** The counters after the calls [ops] reported [results]. *)
Fixpoint tally (ops : list queue_op) (results : list op_result) (s : ring_buffer_stats_t)
  : ring_buffer_stats_t :=
  match ops, results with
  | op :: ops, r :: results => tally ops results (tally_call op r s)
  | _, _ => s
  end.


(** Reduction of the descriptor's projections and stores. *)
Ltac fields :=
  cbn [rb_buffer rb_size rb_fd rb_write_pos rb_read_pos rb_commit_pos rb_is_full
       rb_backpressure rb_messages_written rb_messages_read rb_bytes_written
       rb_bytes_read rb_write_errors rb_read_errors rb_backpressure_events
       rb_backpressure_threshold rb_magic
       store_buffer store_write_pos store_read_pos store_commit_pos store_backpressure
       store_messages_written store_messages_read store_bytes_written store_bytes_read
       store_write_errors store_read_errors store_backpressure_events
       fetch_add_messages_written fetch_add_messages_read fetch_add_bytes_written
       fetch_add_bytes_read fetch_add_write_errors fetch_add_read_errors
       fetch_add_backpressure_events initial_descriptor write_commit
       buffer_bytes buffer_with_bytes].

(** * Properties *)

(** ** Machine arithmetic *)

Section Machine.

Lemma u64_small (z : Z) : 0 <= z < 2 ^ 64 -> u64 z = z.
Proof. intros H. unfold u64. now apply Z.mod_small. Qed.

Lemma u64_range (z : Z) : 0 <= u64 z < 2 ^ 64.
Proof. unfold u64. apply Z.mod_pos_bound. lia. Qed.

Lemma u32_small (z : Z) : 0 <= z < 2 ^ 32 -> u32 z = z.
Proof. intros H. unfold u32. now apply Z.mod_small. Qed.

Lemma high_bits_zero (x n i : Z) : 0 <= x < 2 ^ n -> n <= i -> Z.testbit x i = false.
Proof.
  intros Hx Hi.
  destruct (Z.eq_dec x 0) as [-> | Hne]; [apply Z.bits_0 |].
  apply Z.bits_above_log2; [lia |].
  assert (Z.log2 x < n) by (apply Z.log2_lt_pow2; lia). lia.
Qed.

(** Masking with [size - 1] is reduction modulo a power of two. *)
Lemma land_pow2_mask (x e : Z) :
  0 <= e < 64 -> Z.land x (u64 (2 ^ e - 1)) = x mod 2 ^ e.
Proof.
  intros He.
  assert (0 < 2 ^ e <= 2 ^ 63) by (split; [lia | apply Z.pow_le_mono_r; lia]).
  rewrite u64_small by lia.
  replace (2 ^ e - 1) with (Z.ones e) by (rewrite Z.ones_equiv; lia).
  apply Z.land_ones. lia.
Qed.

Lemma pow2_land_pred (e : Z) : 0 <= e < 64 -> Z.land (2 ^ e) (u64 (2 ^ e - 1)) = 0.
Proof.
  intros He. rewrite land_pow2_mask by lia. apply Z.mod_same.
  apply Z.pow_nonzero; lia.
Qed.

(** [x & ~7] clears the three low bits. *)
Lemma land_not7 (x : Z) :
  0 <= x < 2 ^ 64 -> Z.land x (u64 (Z.lnot (MESSAGE_ALIGNMENT - 1))) = 8 * (x / 8).
Proof.
  intros Hx.
  change (u64 (Z.lnot (MESSAGE_ALIGNMENT - 1))) with (Z.shiftl (Z.ones 61) 3).
  replace (8 * (x / 8)) with (Z.shiftl (Z.shiftr x 3) 3)
    by (rewrite Z.shiftl_mul_pow2, Z.shiftr_div_pow2 by lia; change (2 ^ 3) with 8; lia).
  apply Z.bits_inj'. intros i Hi.
  rewrite Z.land_spec.
  destruct (Z.lt_ge_cases i 3) as [Hlt | Hge].
  - rewrite !Z.shiftl_spec_low by lia. apply andb_false_r.
  - rewrite !Z.shiftl_spec by lia.
    rewrite Z.shiftr_spec by lia. replace (i - 3 + 3) with i by lia.
    destruct (Z.lt_ge_cases i 64) as [Hlt | Hge'].
    + rewrite Z.ones_spec_low by lia. apply andb_true_r.
    + rewrite Z.ones_spec_high by lia. rewrite andb_false_r.
      symmetry. apply (high_bits_zero x 64); lia.
Qed.

Lemma align_size_eq (s : Z) : 0 <= s <= 2 ^ 64 - 8 -> align_size s = 8 * ((s + 7) / 8).
Proof.
  intros Hs. unfold align_size, MESSAGE_ALIGNMENT.
  replace (s + 8 - 1) with (s + 7) by lia.
  rewrite u64_small by lia. apply land_not7. lia.
Qed.

Lemma align_size_bounds (s : Z) :
  0 <= s <= 2 ^ 64 - 8 -> s <= align_size s < s + 8.
Proof.
  intros Hs. rewrite align_size_eq by lia.
  pose proof (Z.div_mod (s + 7) 8 ltac:(lia)).
  pose proof (Z.mod_pos_bound (s + 7) 8 ltac:(lia)). lia.
Qed.

Lemma total_message_size_bounds (n : Z) :
  0 <= n <= 2 ^ 32 ->
  sizeof_arrow_ipc_header_t + n <= total_message_size n < sizeof_arrow_ipc_header_t + n + 8.
Proof.
  intros Hn. unfold total_message_size, sizeof_arrow_ipc_header_t.
  rewrite u64_small by lia. apply align_size_bounds. lia.
Qed.

End Machine.

(** ** Power-of-two rounding *)

Section NextPowerOfTwo.

Lemma smeared_start (m : Z) : smeared m m 1.
Proof.
  intros i Hi. split.
  - intros H. exists 0. split; [lia |]. now rewrite Z.add_0_r.
  - intros [j [Hj H]]. replace j with 0 in H by lia. now rewrite Z.add_0_r in H.
Qed.

Lemma smeared_step (m n w : Z) :
  0 < w -> smeared m n w -> smeared m (Z.lor n (Z.shiftr n w)) (2 * w).
Proof.
  intros Hw Hn i Hi.
  rewrite Z.lor_spec, Z.shiftr_spec, orb_true_iff by lia.
  rewrite (Hn i) by lia. rewrite (Hn (i + w)) by lia.
  split.
  - intros [[j [Hj H]] | [j [Hj H]]].
    + exists j. split; [lia | exact H].
    + exists (w + j). split; [lia |]. now replace (i + (w + j)) with (i + w + j) by lia.
  - intros [j [Hj H]].
    destruct (Z.lt_ge_cases j w) as [Hlt | Hge].
    + left. exists j. split; [lia | exact H].
    + right. exists (j - w). split; [lia |]. now replace (i + w + (j - w)) with (i + j) by lia.
Qed.

Lemma smeared_ones (m n : Z) :
  0 < m < 2 ^ 64 -> smeared m n 64 -> 0 <= n -> n = Z.ones (Z.log2 m + 1).
Proof.
  intros Hm Hn Hn0.
  assert (Hlog : 0 <= Z.log2 m < 64).
  { split; [apply Z.log2_nonneg |]. apply Z.log2_lt_pow2; lia. }
  apply Z.bits_inj'. intros i Hi.
  destruct (Z.lt_ge_cases i (Z.log2 m + 1)) as [Hlt | Hge].
  - rewrite Z.ones_spec_low by lia. apply Hn; [lia |].
    exists (Z.log2 m - i). split; [lia |].
    replace (i + (Z.log2 m - i)) with (Z.log2 m) by lia.
    apply Z.bit_log2. lia.
  - rewrite Z.ones_spec_high by lia.
    destruct (Z.testbit n i) eqn:E; [| reflexivity].
    apply Hn in E; [| lia]. destruct E as [j [Hj E]].
    rewrite Z.bits_above_log2 in E; [discriminate | lia | lia].
Qed.

Lemma next_power_of_2_log2 (k : Z) :
  2 <= k < 2 ^ 64 ->
  ring_buffer_next_power_of_2 k = u64 (2 ^ (Z.log2 (k - 1) + 1)).
Proof.
  intros Hk. unfold ring_buffer_next_power_of_2.
  destruct (Z.eqb_spec k 0) as [-> | _]; [lia |].
  rewrite (u64_small (k - 1)) by lia.
  set (m := k - 1).
  pose proof (smeared_start m) as S1.
  apply smeared_step in S1; [| lia].
  apply smeared_step in S1; [| lia].
  apply smeared_step in S1; [| lia].
  apply smeared_step in S1; [| lia].
  apply smeared_step in S1; [| lia].
  apply smeared_step in S1; [| lia].
  cbn [Z.mul Pos.mul] in S1.
  apply smeared_ones in S1; [| subst m; lia |].
  - cbv zeta. rewrite S1. rewrite Z.ones_equiv. f_equal. lia.
  - assert (0 <= m) by (subst m; lia).
    repeat (apply Z.lor_nonneg; split; [| apply Z.shiftr_nonneg]); assumption.
Qed.

Lemma next_power_of_2_one : ring_buffer_next_power_of_2 1 = 1.
Proof. reflexivity. Qed.

(** Whatever fits a [size_t] is rounded to a power of two, or to zero when
    the next power of two is [2^64]. *)
Lemma next_power_of_2_shape (k : Z) :
  0 <= k < 2 ^ 64 ->
  ring_buffer_next_power_of_2 k = 0
  \/ exists e, 0 <= e < 64 /\ ring_buffer_next_power_of_2 k = 2 ^ e.
Proof.
  intros Hk.
  destruct (Z.eq_dec k 0) as [-> | H0]; [right; exists 0; split; [lia | reflexivity] |].
  destruct (Z.eq_dec k 1) as [-> | H1]; [right; exists 0; split; [lia | reflexivity] |].
  rewrite next_power_of_2_log2 by lia.
  assert (Hlog : 0 <= Z.log2 (k - 1) < 64).
  { split; [apply Z.log2_nonneg |]. apply Z.log2_lt_pow2; lia. }
  destruct (Z.eq_dec (Z.log2 (k - 1)) 63) as [E | NE].
  - left. rewrite E. reflexivity.
  - right. exists (Z.log2 (k - 1) + 1). split; [lia |].
    apply u64_small. split; [lia |]. apply Z.pow_lt_mono_r; lia.
Qed.

End NextPowerOfTwo.

Lemma create_capacity (g : crc32_globals) (k : Z) (a : allocation) (rb : ring_buffer_t) :
  snd (ring_buffer_create g k a) = Some rb ->
  rb_size rb = ring_buffer_next_power_of_2 (if k =? 0 then RING_BUFFER_DEFAULT_SIZE else k).
Proof.
  unfold ring_buffer_create. destruct a; cbn [snd]; intros H; try discriminate;
    injection H as <-; reflexivity.
Qed.

(** C6. Capacity rounding: for every [k] with [1 <= k <= 2^63],
    [ring_buffer_next_power_of_2 k] is a power of two, is at least [k], and is
    below every other power of two that is at least [k]; when the allocations
    of [ring_buffer_create] succeed, [ring_buffer_create k] returns an arena
    and its capacity is that value, and [ring_buffer_create 0] returns an
    arena of the default capacity of 64 MiB; when an allocation fails the
    result is null. *)
Theorem capacity_rounding (k : Z) :
  1 <= k <= 2 ^ 63 ->
  (exists e, 0 <= e /\ ring_buffer_next_power_of_2 k = 2 ^ e)
  /\ k <= ring_buffer_next_power_of_2 k
  /\ (forall e, 0 <= e -> k <= 2 ^ e -> ring_buffer_next_power_of_2 k <= 2 ^ e)
  /\ (forall g a, allocation_succeeds a = true ->
        exists rb, snd (ring_buffer_create g k a) = Some rb
                   /\ rb_size rb = ring_buffer_next_power_of_2 k)
  /\ (forall g a, allocation_succeeds a = true ->
        exists rb, snd (ring_buffer_create g 0 a) = Some rb
                   /\ rb_size rb = 64 * 1024 * 1024)
  /\ (forall g a, allocation_succeeds a = false ->
        snd (ring_buffer_create g k a) = None)
  /\ (forall g a rb, snd (ring_buffer_create g k a) = Some rb ->
        rb_size rb = ring_buffer_next_power_of_2 k)
  /\ (forall g a rb, snd (ring_buffer_create g 0 a) = Some rb ->
        rb_size rb = 64 * 1024 * 1024).
Proof.
  intros Hk.
  assert (Hcreate : forall g a rb, snd (ring_buffer_create g k a) = Some rb ->
                      rb_size rb = ring_buffer_next_power_of_2 k).
  { intros g a rb H. apply create_capacity in H. rewrite H.
    destruct (Z.eqb_spec k 0); [lia | reflexivity]. }
  assert (Hzero : forall g a rb, snd (ring_buffer_create g 0 a) = Some rb ->
                    rb_size rb = 64 * 1024 * 1024).
  { intros g a rb H. apply create_capacity in H. rewrite H. reflexivity. }
  assert (Hsome : forall g j a, allocation_succeeds a = true ->
                    exists rb, snd (ring_buffer_create g j a) = Some rb).
  { intros g j a Ha. unfold ring_buffer_create.
    destruct a; try discriminate Ha; cbn [snd]; eexists; reflexivity. }
  assert (Hyields : forall g a, allocation_succeeds a = true ->
                      exists rb, snd (ring_buffer_create g k a) = Some rb
                                 /\ rb_size rb = ring_buffer_next_power_of_2 k).
  { intros g a Ha. destruct (Hsome g k a Ha) as [rb Hrb].
    exists rb. split; [exact Hrb | exact (Hcreate g a rb Hrb)]. }
  assert (Hdefault : forall g a, allocation_succeeds a = true ->
                       exists rb, snd (ring_buffer_create g 0 a) = Some rb
                                  /\ rb_size rb = 64 * 1024 * 1024).
  { intros g a Ha. destruct (Hsome g 0 a Ha) as [rb Hrb].
    exists rb. split; [exact Hrb | exact (Hzero g a rb Hrb)]. }
  assert (Hnone : forall g a, allocation_succeeds a = false ->
                    snd (ring_buffer_create g k a) = None).
  { intros g a Ha. unfold ring_buffer_create.
    destruct a; try discriminate Ha; reflexivity. }
  destruct (Z.eq_dec k 1) as [-> | H1].
  { rewrite next_power_of_2_one in *.
    split; [exists 0; split; [lia | reflexivity] |].
    split; [lia |].
    split; [intros e He _; assert (0 < 2 ^ e) by (apply Z.pow_pos_nonneg; lia); lia |].
    split; [exact Hyields |]. split; [exact Hdefault |]. split; [exact Hnone |].
    split; [exact Hcreate | exact Hzero]. }
  rewrite next_power_of_2_log2 in * by lia.
  set (b := Z.log2 (k - 1)) in *.
  assert (Hlog : 2 ^ b <= k - 1 < 2 ^ (b + 1)).
  { unfold b. replace (Z.log2 (k - 1) + 1) with (Z.succ (Z.log2 (k - 1))) by lia.
    apply Z.log2_spec. lia. }
  assert (Hb : 0 <= b < 63).
  { split; [apply Z.log2_nonneg |]. apply Z.log2_lt_pow2; lia. }
  assert (Hp : 2 ^ (b + 1) <= 2 ^ 63) by (apply Z.pow_le_mono_r; lia).
  rewrite u64_small in * by lia.
  split; [exists (b + 1); split; [lia | reflexivity] |].
  split; [lia |].
  split.
  { intros e He Hke.
    destruct (Z.lt_ge_cases e (b + 1)) as [Hlt | Hge].
    + assert (2 ^ e <= 2 ^ b) by (apply Z.pow_le_mono_r; lia). lia.
    + apply Z.pow_le_mono_r; lia. }
  split; [exact Hyields |]. split; [exact Hdefault |]. split; [exact Hnone |].
  split; [exact Hcreate | exact Hzero].
Qed.

(** ** CRC-32 *)

Section Crc.

Lemma crc32_shift_reference (c : Z) : crc32_shift c = crc32_reference_bit c.
Proof.
  unfold crc32_shift, crc32_reference_bit, CRC32_POLYNOMIAL.
  change 1 with (Z.ones 1) at 1. rewrite Z.land_ones by lia.
  change (2 ^ 1) with 2. rewrite <- Z.bit0_mod.
  destruct (Z.testbit c 0); cbn [Z.b2z Z.eqb]; [reflexivity | now rewrite Z.lxor_0_r].
Qed.

Lemma reference_bit_lxor (a b : Z) :
  crc32_reference_bit (Z.lxor a b) = Z.lxor (crc32_reference_bit a) (crc32_reference_bit b).
Proof.
  unfold crc32_reference_bit.
  rewrite Z.shiftr_lxor, Z.lxor_spec.
  set (p := 0xEDB88320). set (x := Z.shiftr a 1). set (y := Z.shiftr b 1).
  destruct (Z.testbit a 0), (Z.testbit b 0); cbn [xorb];
    apply Z.bits_inj'; intros i _; rewrite ?Z.lxor_spec, ?Z.bits_0;
    destruct (Z.testbit x i), (Z.testbit y i), (Z.testbit p i); reflexivity.
Qed.

Lemma reference_iter_lxor (n : nat) (a b : Z) :
  Nat.iter n crc32_reference_bit (Z.lxor a b)
  = Z.lxor (Nat.iter n crc32_reference_bit a) (Nat.iter n crc32_reference_bit b).
Proof.
  induction n as [| n IH]; [reflexivity |].
  rewrite !Nat.iter_succ. now rewrite IH, reference_bit_lxor.
Qed.

(** Shifting out zeros only shifts. *)
Lemma reference_iter_shift (n : nat) (h : Z) :
  (forall i, 0 <= i < Z.of_nat n -> Z.testbit h i = false) ->
  Nat.iter n crc32_reference_bit h = Z.shiftr h (Z.of_nat n).
Proof.
  induction n as [| n IH]; intros Hlow.
  - now rewrite Z.shiftr_0_r.
  - rewrite Nat.iter_succ. rewrite IH by (intros i Hi; apply Hlow; lia).
    unfold crc32_reference_bit.
    rewrite Z.shiftr_spec by lia. rewrite Z.add_0_l.
    rewrite (Hlow (Z.of_nat n)) by lia. rewrite Z.lxor_0_r.
    rewrite Z.shiftr_shiftr by lia. f_equal. lia.
Qed.

Lemma split_low_byte (x : Z) :
  x = Z.lxor (Z.land x 0xFF) (Z.shiftl (Z.shiftr x 8) 8).
Proof.
  apply Z.bits_inj'. intros i Hi.
  rewrite Z.lxor_spec, Z.land_spec.
  change 0xFF with (Z.ones 8).
  destruct (Z.lt_ge_cases i 8) as [Hlt | Hge].
  - rewrite Z.ones_spec_low, Z.shiftl_spec_low by lia.
    now rewrite andb_true_r, xorb_false_r.
  - rewrite Z.ones_spec_high, Z.shiftl_spec, Z.shiftr_spec by lia.
    replace (i - 8 + 8) with i by lia. now rewrite andb_false_r, xorb_false_l.
Qed.

Lemma shiftr_byte (b : byte) : Z.shiftr (byte.unsigned b) 8 = 0.
Proof.
  pose proof (byte.unsigned_range b) as H. change (2 ^ 8) with 256 in H.
  rewrite Z.shiftr_div_pow2 by lia. apply Z.div_small. change (2 ^ 8) with 256. lia.
Qed.

(** The table as [init_crc32_table] leaves it. *)
Lemma ready_table :
  crc32_table crc32_globals_ready
  = map (fun i => Nat.iter 8 crc32_shift (Z.of_nat i)) (seq 0 256).
Proof. vm_compute. reflexivity. Qed.

Lemma ready_initialized : crc32_table_initialized crc32_globals_ready = true.
Proof. reflexivity. Qed.

Lemma iter_ext {A : Type} (f g : A -> A) (n : nat) (x : A) :
  (forall y, f y = g y) -> Nat.iter n f x = Nat.iter n g x.
Proof.
  intros H. induction n as [| n IH]; [reflexivity |].
  rewrite !Nat.iter_succ. now rewrite IH, H.
Qed.

Lemma nth_map_seq {A : Type} (f : nat -> A) (n s i : nat) (d : A) :
  (i < n)%nat -> nth i (map f (seq s n)) d = f (s + i)%nat.
Proof.
  revert s i. induction n as [| n IH]; intros s i Hi; [lia |].
  destruct i as [| i]; cbn [seq map nth].
  - now rewrite Nat.add_0_r.
  - rewrite IH by lia. f_equal. lia.
Qed.

Lemma ready_table_lookup (idx : Z) :
  0 <= idx < 256 ->
  nth (Z.to_nat idx) (crc32_table crc32_globals_ready) 0 = Nat.iter 8 crc32_reference_bit idx.
Proof.
  intros H. rewrite ready_table.
  rewrite nth_map_seq by lia.
  cbn [Nat.add]. rewrite Z2Nat.id by lia.
  apply iter_ext. exact crc32_shift_reference.
Qed.

(** One table lookup does the work of eight single-bit steps. *)
Lemma crc32_update_reference (c : Z) (b : byte) :
  crc32_update (crc32_table crc32_globals_ready) c b = crc32_reference_byte c b.
Proof.
  unfold crc32_update, crc32_reference_byte.
  set (x := Z.lxor c (byte.unsigned b)).
  assert (Hidx : 0 <= Z.land x 0xFF < 256).
  { change 0xFF with (Z.ones 8). rewrite Z.land_ones by lia.
    apply Z.mod_pos_bound. lia. }
  rewrite ready_table_lookup by exact Hidx.
  rewrite (split_low_byte x) at 2.
  rewrite reference_iter_lxor. f_equal.
  rewrite reference_iter_shift.
  - change (Z.of_nat 8) with 8.
    rewrite Z.shiftr_shiftl_l by lia. rewrite Z.sub_diag, Z.shiftl_0_r.
    unfold x. now rewrite Z.shiftr_lxor, shiftr_byte, Z.lxor_0_r.
  - intros i Hi. apply Z.shiftl_spec_low. lia.
Qed.

Lemma fold_update_reference (data : list byte) (c : Z) :
  fold_left (crc32_update (crc32_table crc32_globals_ready)) data c
  = fold_left crc32_reference_byte data c.
Proof.
  revert c. induction data as [| b data IH]; intros c; cbn [fold_left]; [reflexivity |].
  now rewrite crc32_update_reference, IH.
Qed.

Lemma init_ready : init_crc32_table crc32_globals_ready = crc32_globals_ready.
Proof. reflexivity. Qed.

Lemma crc32_of_reference (data : list byte) (size : Z) :
  crc32_of data size = crc32_reference (firstn (Z.to_nat size) data).
Proof.
  unfold crc32_of, ring_buffer_crc32. rewrite ready_initialized. cbn [negb snd].
  unfold crc32_reference. now rewrite fold_update_reference.
Qed.

End Crc.

(** C7. CRC-32: for every byte sequence, [ring_buffer_crc32], run on the
    globals as the program starts or as [init_crc32_table] leaves them,
    returns the bit-at-a-time reflected CRC-32 (polynomial [0xEDB88320],
    initial value and final xor [0xFFFFFFFF]) and leaves the table ready; the
    same holds for the first [size] bytes of a longer object. *)
Theorem crc32_table_driven_is_reference (data : list byte) :
  ring_buffer_crc32 crc32_globals_initial data (Z.of_nat (length data))
    = (crc32_globals_ready, crc32_reference data)
  /\ ring_buffer_crc32 crc32_globals_ready data (Z.of_nat (length data))
    = (crc32_globals_ready, crc32_reference data)
  /\ forall size,
       crc32_of data size = crc32_reference (firstn (Z.to_nat size) data).
Proof.
  assert (E : ring_buffer_crc32 crc32_globals_ready data (Z.of_nat (length data))
              = (crc32_globals_ready, crc32_reference data)).
  { unfold ring_buffer_crc32. rewrite ready_initialized. cbn [negb].
    rewrite Nat2Z.id, firstn_all. unfold crc32_reference.
    now rewrite fold_update_reference. }
  split; [| split; [exact E | intros size; apply crc32_of_reference]].
  rewrite <- E. reflexivity.
Qed.

(** ** Validation *)

Section Validate.

Lemma pow2_of_land (n : Z) :
  0 < n < 2 ^ 64 -> Z.land n (u64 (n - 1)) = 0 ->
  exists e, 0 <= e < 64 /\ n = 2 ^ e.
Proof.
  intros Hn Hland. rewrite u64_small in Hland by lia.
  exists (Z.log2 n).
  assert (He : 0 <= Z.log2 n < 64).
  { split; [apply Z.log2_nonneg | apply Z.log2_lt_pow2; lia]. }
  split; [exact He |].
  destruct (Z.log2_spec n ltac:(lia)) as [Hlo Hhi].
  destruct (Z.eq_dec n (2 ^ Z.log2 n)) as [E | NE]; [exact E | exfalso].
  assert (Hbit : Z.testbit (Z.land n (n - 1)) (Z.log2 n) = true).
  { assert (E : Z.log2 (n - 1) = Z.log2 n) by (apply Z.log2_unique; lia).
    rewrite Z.land_spec, Z.bit_log2 by lia. cbn [andb].
    rewrite <- E. apply Z.bit_log2. lia. }
  rewrite Hland, Z.bits_0 in Hbit. discriminate.
Qed.

Lemma validate_true (rb : ring_buffer_t) :
  ring_buffer_validate (Some rb) = true ->
  rb_magic rb = RING_BUFFER_MAGIC
  /\ (exists how bytes, rb_buffer rb = Buf_region how bytes)
  /\ rb_size rb <> 0
  /\ Z.land (rb_size rb) (u64 (rb_size rb - 1)) = 0
  /\ rb_write_pos rb < rb_size rb
  /\ rb_read_pos rb < rb_size rb
  /\ rb_commit_pos rb < rb_size rb.
Proof.
  unfold ring_buffer_validate.
  destruct (Z.eqb_spec (rb_magic rb) RING_BUFFER_MAGIC); cbn [negb]; [| discriminate].
  destruct (rb_buffer rb) as [| | how bytes]; try discriminate.
  destruct (Z.eqb_spec (rb_size rb) 0); cbn [orb negb]; [discriminate |].
  destruct (Z.eqb_spec (Z.land (rb_size rb) (u64 (rb_size rb - 1))) 0);
    cbn [negb]; [| discriminate].
  destruct (Z.leb_spec (rb_size rb) (rb_write_pos rb)); cbn [orb]; [discriminate |].
  destruct (Z.leb_spec (rb_size rb) (rb_read_pos rb)); cbn [orb]; [discriminate |].
  destruct (Z.leb_spec (rb_size rb) (rb_commit_pos rb)); [discriminate |].
  intros _. repeat split; try assumption. now exists how, bytes.
Qed.

(** What a valid descriptor with in-range fields looks like. *)
Lemma validate_shape (rb : ring_buffer_t) :
  descriptor_in_range rb -> ring_buffer_validate (Some rb) = true ->
  (exists e, 0 <= e < 64 /\ rb_size rb = 2 ^ e)
  /\ (exists how bytes, rb_buffer rb = Buf_region how bytes)
  /\ 0 <= rb_write_pos rb < rb_size rb
  /\ 0 <= rb_read_pos rb < rb_size rb
  /\ 0 <= rb_commit_pos rb < rb_size rb.
Proof.
  intros (Hs & Hw & Hr & Hc) Hv. unfold is_size_t in *.
  apply validate_true in Hv. destruct Hv as (_ & Hb & Hn0 & Hl & Hw' & Hr' & Hc').
  repeat split; try lia; try assumption.
  apply pow2_of_land; [lia | exact Hl].
Qed.

Lemma validate_intro (rb : ring_buffer_t) (e : Z) (how : alloc_method) (bytes : list byte) :
  rb_magic rb = RING_BUFFER_MAGIC -> rb_buffer rb = Buf_region how bytes ->
  0 <= e < 64 -> rb_size rb = 2 ^ e ->
  rb_write_pos rb < rb_size rb -> rb_read_pos rb < rb_size rb ->
  rb_commit_pos rb < rb_size rb ->
  ring_buffer_validate (Some rb) = true.
Proof.
  intros Hm Hb He Hs Hw Hr Hc. unfold ring_buffer_validate.
  rewrite Hm, Hb, Z.eqb_refl. cbn [negb].
  assert (0 < rb_size rb) by (rewrite Hs; apply Z.pow_pos_nonneg; lia).
  destruct (Z.eqb_spec (rb_size rb) 0); [lia |]. cbn [orb].
  rewrite Hs at 1 2. rewrite pow2_land_pred by lia. cbn [Z.eqb negb].
  destruct (Z.leb_spec (rb_size rb) (rb_write_pos rb)); [lia |].
  destruct (Z.leb_spec (rb_size rb) (rb_read_pos rb)); [lia |].
  destruct (Z.leb_spec (rb_size rb) (rb_commit_pos rb)); [lia |]. reflexivity.
Qed.

End Validate.

(** ** Occupancy *)

Section Occupancy.

Lemma utilization_used_mod (rb : ring_buffer_t) :
  0 < rb_size rb < 2 ^ 64 ->
  0 <= rb_write_pos rb < rb_size rb -> 0 <= rb_read_pos rb < rb_size rb ->
  utilization_used rb = (rb_write_pos rb - rb_read_pos rb) mod rb_size rb.
Proof.
  intros Hn Hw Hr. unfold utilization_used. cbv zeta.
  destruct (Z.leb_spec (rb_read_pos rb) (rb_write_pos rb)).
  - rewrite u64_small by lia. symmetry. apply Z.mod_small. lia.
  - rewrite (u64_small (rb_read_pos rb - rb_write_pos rb)) by lia.
    rewrite u64_small by lia.
    apply (Z.mod_unique _ _ (-1)); lia.
Qed.

Lemma available_read_mod (rb : ring_buffer_t) :
  0 < rb_size rb < 2 ^ 64 ->
  0 <= rb_commit_pos rb < rb_size rb -> 0 <= rb_read_pos rb < rb_size rb ->
  ring_buffer_available_read (Some rb) = (rb_commit_pos rb - rb_read_pos rb) mod rb_size rb.
Proof.
  intros Hn Hw Hr. unfold ring_buffer_available_read. cbv zeta.
  destruct (Z.leb_spec (rb_read_pos rb) (rb_commit_pos rb)).
  - rewrite u64_small by lia. symmetry. apply Z.mod_small. lia.
  - rewrite (u64_small (rb_read_pos rb - rb_commit_pos rb)) by lia.
    rewrite u64_small by lia.
    apply (Z.mod_unique _ _ (-1)); lia.
Qed.

Lemma available_write_used (rb : ring_buffer_t) :
  0 < rb_size rb < 2 ^ 64 ->
  0 <= rb_write_pos rb < rb_size rb -> 0 <= rb_read_pos rb < rb_size rb ->
  ring_buffer_available_write (Some rb) = rb_size rb - 1 - utilization_used rb.
Proof.
  intros Hn Hw Hr. unfold ring_buffer_available_write, utilization_used. cbv zeta.
  destruct (Z.leb_spec (rb_read_pos rb) (rb_write_pos rb)).
  - rewrite (u64_small (rb_write_pos rb - rb_read_pos rb)) by lia.
    rewrite (u64_small (rb_size rb - _)) by lia. rewrite u64_small; lia.
  - rewrite (u64_small (rb_read_pos rb - rb_write_pos rb)) by lia.
    rewrite (u64_small (rb_size rb - _)) by lia. rewrite u64_small; lia.
Qed.

End Occupancy.

(** C5. Occupancy accounting: in an arena whose capacity [N] is a power of
    two and whose write and read positions lie in [[0, N)],
    [ring_buffer_available_write] returns [N - 1 - used] where
    [used = (write_pos - read_pos) mod N] is the occupancy that
    [ring_buffer_utilization] divides by [N]; so used plus free is [N - 1],
    in the wrapped and in the unwrapped branch alike. *)
Theorem occupancy_accounting (rb : ring_buffer_t) (e : Z) :
  0 <= e < 64 -> rb_size rb = 2 ^ e ->
  0 <= rb_write_pos rb < rb_size rb -> 0 <= rb_read_pos rb < rb_size rb ->
  let used := (rb_write_pos rb - rb_read_pos rb) mod rb_size rb in
  ring_buffer_available_write (Some rb) = rb_size rb - 1 - used
  /\ utilization_used rb = used
  /\ ring_buffer_utilization (Some rb)
     = double_div (double_of_size_t used) (double_of_size_t (rb_size rb))
  /\ utilization_used rb + ring_buffer_available_write (Some rb) = rb_size rb - 1.
Proof.
  intros He Hs Hw Hr used.
  assert (Hn : 0 < rb_size rb < 2 ^ 64).
  { rewrite Hs. split; [apply Z.pow_pos_nonneg; lia | apply Z.pow_lt_mono_r; lia]. }
  pose proof (utilization_used_mod rb Hn Hw Hr) as Hu.
  pose proof (available_write_used rb Hn Hw Hr) as Ha.
  fold used in Hu. rewrite Ha, Hu. repeat split; try lia.
  unfold ring_buffer_utilization. now rewrite Hu.
Qed.

(** C10. Null handle: on a null arena [ring_buffer_utilization] returns
    [0.0], [ring_buffer_available_write] and [ring_buffer_available_read]
    return 0, [ring_buffer_is_backpressure] and [ring_buffer_validate] return
    false, [ring_buffer_get_stats] leaves the caller's object as it was and
    [ring_buffer_reset_stats] stores nothing. *)
Theorem null_handle_accessors (stats : option ring_buffer_stats_t) :
  ring_buffer_utilization None = double_zero
  /\ ring_buffer_available_write None = 0
  /\ ring_buffer_available_read None = 0
  /\ ring_buffer_is_backpressure None = false
  /\ ring_buffer_validate None = false
  /\ ring_buffer_get_stats None stats = stats
  /\ ring_buffer_reset_stats None = None.
Proof. repeat split. Qed.

(** ** Read errors *)

(** C2. Read-error atomicity: whenever [ring_buffer_read] returns
    [Corrupted] -- after a magic mismatch, a length above 16 MiB, a checksum
    mismatch or a payload running past the arena end -- the arena it leaves
    is the one it found with [read_errors] incremented by one (modulo [2^64]):
    [read_pos], [write_pos], [commit_pos], the arena bytes, [messages_read]
    and [bytes_read] are unchanged. *)
Theorem read_corrupted_atomic
    (h h' : option ring_buffer_t) (out out' : option ring_buffer_message_t) :
  ring_buffer_read h out = (RING_BUFFER_ERROR_CORRUPTED, h', out') ->
  exists rb rb',
    h = Some rb /\ h' = Some rb'
    /\ rb' = fetch_add_read_errors rb 1
    /\ rb_read_errors rb' = u64 (rb_read_errors rb + 1)
    /\ (0 <= rb_read_errors rb < 2 ^ 64 - 1 -> rb_read_errors rb' = rb_read_errors rb + 1)
    /\ rb_read_pos rb' = rb_read_pos rb
    /\ rb_write_pos rb' = rb_write_pos rb
    /\ rb_commit_pos rb' = rb_commit_pos rb
    /\ rb_buffer rb' = rb_buffer rb
    /\ rb_messages_read rb' = rb_messages_read rb
    /\ rb_bytes_read rb' = rb_bytes_read rb.
Proof.
  intros H.
  assert (E : exists rb, h = Some rb /\ h' = Some (fetch_add_read_errors rb 1)).
  { unfold ring_buffer_read in H.
    destruct h as [rb |]; [| discriminate].
    destruct out as [msg |]; [| discriminate].
    exists rb. split; [reflexivity |].
    destruct (read_header _ _ _) as [r header_bytes].
    repeat match type of H with
           | (if ?c then _ else _) = _ => destruct c
           end;
      try discriminate; now injection H as <- _. }
  destruct E as [rb [-> ->]].
  exists rb, (fetch_add_read_errors rb 1).
  repeat split. cbn. intros Hr. apply u64_small. lia.
Qed.

(** ** The write path, step by step *)

Section WritePath.

Lemma write_reserve_reserved (rb rb' : ring_buffer_t) (size wp nwp : Z) :
  write_reserve rb size = Reserved rb' wp nwp ->
  ring_buffer_validate (Some rb) = true
  /\ size <= RING_BUFFER_MAX_MESSAGE_SIZE
  /\ double_ge (ring_buffer_utilization (Some rb)) (rb_backpressure_threshold rb) = false
  /\ total_message_size size <= ring_buffer_available_write (Some rb)
  /\ wp = rb_write_pos rb
  /\ nwp = Z.land (u64 (rb_write_pos rb + total_message_size size)) (u64 (rb_size rb - 1))
  /\ rb' = store_write_pos (store_backpressure rb false) nwp.
Proof.
  unfold write_reserve.
  destruct (ring_buffer_validate (Some rb)); cbn [negb]; [| discriminate].
  destruct (Z.ltb_spec RING_BUFFER_MAX_MESSAGE_SIZE size); [discriminate |].
  destruct (double_ge _ _); [discriminate |].
  cbv zeta.
  change (ring_buffer_available_write (Some (store_backpressure rb false)))
    with (ring_buffer_available_write (Some rb)).
  destruct (Z.ltb_spec (ring_buffer_available_write (Some rb)) (total_message_size size));
    [discriminate |].
  intros E. injection E as <- <- <-. repeat split; try lia.
Qed.

Lemma safe_memcpy_ok (d s : list byte) (doff soff n dsize : Z) :
  n <= dsize ->
  safe_memcpy (Some d) doff (Some s) soff n dsize = (0, Some (memcpy d doff s soff n)).
Proof.
  intros H. unfold safe_memcpy. destruct (Z.ltb_spec dsize n); [lia | reflexivity].
Qed.

(** [safe_memcpy] fails exactly on a null pointer or when [n > dest_size]. *)
Lemma safe_memcpy_result (d s : option (list byte)) (doff soff n dsize : Z) :
  fst (safe_memcpy d doff s soff n dsize) = 0
  <-> d <> None /\ s <> None /\ n <= dsize.
Proof.
  unfold safe_memcpy. destruct d, s; cbn [fst].
  - destruct (Z.ltb_spec dsize n); cbn [fst]; split.
    + discriminate.
    + intros (_ & _ & ?). lia.
    + intros _. repeat split; try discriminate. lia.
    + reflexivity.
  - split; [discriminate | intros (_ & ? & _); congruence].
  - split; [discriminate | intros (? & _); congruence].
  - split; [discriminate | intros (? & _); congruence].
Qed.

Lemma write_header_ok (b : list byte) (n wp : Z) (header : arrow_ipc_header_t) :
  0 <= wp < n -> sizeof_arrow_ipc_header_t <= n <= 2 ^ 63 ->
  exists b', write_header (Some b) n wp header = (0, Some b').
Proof.
  unfold sizeof_arrow_ipc_header_t. intros Hwp Hn. unfold write_header.
  unfold sizeof_arrow_ipc_header_t.
  destruct (Z.leb_spec (u64 (wp + 24)) n) as [Hfit | Hwrap].
  - rewrite u64_small in Hfit by lia.
    rewrite safe_memcpy_ok by (rewrite u64_small; lia). eauto.
  - rewrite (u64_small (n - wp)) by lia.
    rewrite safe_memcpy_ok by lia. cbn [Z.eqb negb].
    rewrite u64_small in Hwrap by lia.
    rewrite safe_memcpy_ok by (rewrite u64_small; lia). eauto.
Qed.

Lemma write_data_ok (b d : list byte) (e n wp size : Z) :
  0 <= e < 64 -> n = 2 ^ e -> 0 <= wp < n ->
  0 <= size -> sizeof_arrow_ipc_header_t + size < n ->
  exists b', write_data (Some b) n wp (Some d) size = (0, Some b').
Proof.
  unfold sizeof_arrow_ipc_header_t. intros He Hn Hwp Hsize Hfit. unfold write_data.
  unfold sizeof_arrow_ipc_header_t. cbv zeta.
  assert (Hn' : 0 < n <= 2 ^ 63).
  { rewrite Hn. split; [apply Z.pow_pos_nonneg; lia | apply Z.pow_le_mono_r; lia]. }
  assert (E : Z.land (u64 (wp + 24)) (u64 (n - 1)) = u64 (wp + 24) mod n)
    by (rewrite Hn; apply land_pow2_mask; lia).
  rewrite E.
  set (data_start := u64 (wp + 24) mod n).
  assert (Hds : 0 <= data_start < n) by (apply Z.mod_pos_bound; lia).
  rewrite (u64_small (data_start + size)) by lia.
  rewrite (u64_small (n - data_start)) by lia.
  destruct (Z.leb_spec (data_start + size) n) as [Hin | Hout].
  - rewrite safe_memcpy_ok by lia. eauto.
  - rewrite safe_memcpy_ok by lia. cbn [Z.eqb negb].
    rewrite safe_memcpy_ok by (rewrite u64_small; lia). eauto.
Qed.

Lemma write_frame_ok (rb rb' : ring_buffer_t) (data : list byte) (size now wp nwp : Z) :
  descriptor_in_range rb -> 0 < size ->
  write_reserve rb size = Reserved rb' wp nwp ->
  fst (write_frame rb' (Some data) size now wp) = true.
Proof.
  intros Hrange Hsize Hres.
  apply write_reserve_reserved in Hres.
  destruct Hres as (Hv & Hmax & _ & Hfree & -> & -> & ->).
  destruct (validate_shape rb Hrange Hv) as ((e & He & Hn) & (how & bytes & Hb) & Hw & Hr & _).
  assert (Hn' : 0 < rb_size rb <= 2 ^ 63).
  { rewrite Hn. split; [apply Z.pow_pos_nonneg; lia | apply Z.pow_le_mono_r; lia]. }
  rewrite available_write_used in Hfree by lia.
  rewrite utilization_used_mod in Hfree by lia.
  pose proof (Z.mod_pos_bound (rb_write_pos rb - rb_read_pos rb) (rb_size rb) ltac:(lia)).
  unfold RING_BUFFER_MAX_MESSAGE_SIZE in Hmax.
  pose proof (total_message_size_bounds size ltac:(lia)) as Hms.
  unfold sizeof_arrow_ipc_header_t in Hms.
  unfold write_frame. cbn [rb_buffer rb_size store_write_pos store_backpressure].
  rewrite Hb. cbn [buffer_bytes].
  destruct (write_header_ok bytes (rb_size rb) (rb_write_pos rb)
              {| h_magic := ARROW_IPC_MAGIC; h_length := u32 size; h_timestamp := u64 now;
                 h_checksum := crc32_of data size; h_reserved := 0 |})
    as [b1 ->]; [lia | unfold sizeof_arrow_ipc_header_t; lia |].
  cbn [Z.eqb negb].
  destruct (write_data_ok b1 data e (rb_size rb) (rb_write_pos rb) size)
    as [b2 ->]; try lia; [unfold sizeof_arrow_ipc_header_t; lia |].
  reflexivity.
Qed.

Lemma read_header_ok (b : list byte) (n rp : Z) :
  0 <= rp < n -> n < 2 ^ 64 ->
  exists hb, read_header (Some b) n rp = (0, Some hb).
Proof.
  intros Hrp Hn. unfold read_header, sizeof_arrow_ipc_header_t.
  destruct (Z.leb_spec (u64 (rp + 24)) n) as [Hfit | Hwrap].
  - rewrite safe_memcpy_ok by lia. eauto.
  - assert (u64 (rp + 24) = rp + 24 \/ u64 (rp + 24) = rp + 24 - 2 ^ 64).
    { unfold u64. destruct (Z.lt_ge_cases (rp + 24) (2 ^ 64)).
      - left. apply Z.mod_small. lia.
      - right. symmetry. apply (Z.mod_unique _ _ 1); lia. }
    rewrite (u64_small (n - rp)) by lia.
    rewrite safe_memcpy_ok by lia. cbn [Z.eqb negb].
    rewrite safe_memcpy_ok by lia. eauto.
Qed.

End WritePath.

(** C9. Copy safety: on a descriptor whose [size_t] fields are in range, once
    the reservation of [ring_buffer_write] has succeeded every [safe_memcpy]
    of the header and of the payload succeeds, and once validation has passed
    in [ring_buffer_read] every [safe_memcpy] of the header succeeds; hence
    neither function ever returns [RING_BUFFER_ERROR]. *)
Theorem copies_never_fail (rb : ring_buffer_t) (data : option (list byte))
    (size now : Z) (out : option ring_buffer_message_t) :
  descriptor_in_range rb -> is_size_t size ->
  (forall payload rb' wp nwp,
      size <> 0 -> write_reserve rb size = Reserved rb' wp nwp ->
      fst (write_frame rb' (Some payload) size now wp) = true)
  /\ (ring_buffer_validate (Some rb) = true ->
      fst (read_header (buffer_bytes (rb_buffer rb)) (rb_size rb) (rb_read_pos rb)) = 0)
  /\ fst (ring_buffer_write (Some rb) data size now) <> RING_BUFFER_ERROR
  /\ fst (fst (ring_buffer_read (Some rb) out)) <> RING_BUFFER_ERROR.
Proof.
  intros Hrange Hsize. unfold is_size_t in Hsize.
  assert (Hframe : forall payload rb' wp nwp,
             size <> 0 -> write_reserve rb size = Reserved rb' wp nwp ->
             fst (write_frame rb' (Some payload) size now wp) = true).
  { intros payload rb' wp nwp Hnz Hres.
    apply (write_frame_ok rb rb' payload size now wp nwp); [assumption | lia | assumption]. }
  assert (Hhdr : ring_buffer_validate (Some rb) = true ->
             fst (read_header (buffer_bytes (rb_buffer rb)) (rb_size rb) (rb_read_pos rb)) = 0).
  { intros Hv.
    destruct (validate_shape rb Hrange Hv) as (_ & (how & bytes & Hb) & _ & Hr & _).
    rewrite Hb. cbn [buffer_bytes].
    destruct (read_header_ok bytes (rb_size rb) (rb_read_pos rb)) as [hb ->];
      [lia | apply Hrange | reflexivity]. }
  repeat split; try assumption.
  - unfold ring_buffer_write.
    destruct data as [payload |]; [| discriminate].
    destruct (Z.eqb_spec size 0) as [| Hnz]; [discriminate |].
    destruct (write_reserve rb size) as [e rb' | rb' wp nwp] eqn:Hres.
    + cbn [fst]. unfold write_reserve in Hres.
      repeat match type of Hres with
             | (if ?c then _ else _) = _ => destruct c
             | (let _ := _ in _) = _ => cbv zeta in Hres
             end; try discriminate; injection Hres as <- _; discriminate.
    + specialize (Hframe payload rb' wp nwp Hnz eq_refl).
      destruct (write_frame rb' (Some payload) size now wp) as [[|] rb''];
        cbn [fst] in *; [discriminate | discriminate].
  - unfold ring_buffer_read.
    destruct out as [msg |]; [| discriminate].
    destruct (ring_buffer_validate (Some rb)) eqn:Hv; cbn [negb]; [| discriminate].
    specialize (Hhdr eq_refl).
    destruct (read_header _ _ _) as [r header_bytes]. cbn [fst] in Hhdr. subst r.
    cbn [Z.eqb negb].
    repeat match goal with
           | |- context [if ?c then _ else _] => destruct c
           end; discriminate.
Qed.

(** ** Backpressure *)

Lemma write_frame_keeps_flag (rb : ring_buffer_t) (data : option (list byte))
    (size now wp : Z) :
  rb_backpressure (snd (write_frame rb data size now wp)) = rb_backpressure rb.
Proof.
  unfold write_frame.
  destruct (write_header _ _ _ _) as [r b].
  destruct (negb (r =? 0)); [reflexivity |].
  destruct (write_data _ _ _ _ _) as [r' b']. reflexivity.
Qed.

(** C4, amended. Backpressure: for a call of [ring_buffer_write] on a valid
    arena with non-null data and [1 <= size <= 16 MiB], if the utilization at
    entry is at least 0.8 the call sets the backpressure flag, increments
    [backpressure_events] by one and returns [Backpressure], with the arena
    bytes, the three positions and the other counters unchanged; if it is
    below 0.8 the flag is cleared and the call does not return [Backpressure];
    so after such a call [ring_buffer_is_backpressure] reports the
    utilization test made at entry. *)
Theorem backpressure_gate (rb : ring_buffer_t) (data : list byte) (size now : Z) :
  ring_buffer_validate (Some rb) = true ->
  size <> 0 -> size <= RING_BUFFER_MAX_MESSAGE_SIZE ->
  rb_backpressure_threshold rb = RING_BUFFER_BACKPRESSURE_THRESHOLD ->
  let at_threshold :=
    double_ge (ring_buffer_utilization (Some rb)) RING_BUFFER_BACKPRESSURE_THRESHOLD in
  let result := ring_buffer_write (Some rb) (Some data) size now in
  (at_threshold = true ->
   exists rb',
     result = (RING_BUFFER_ERROR_BACKPRESSURE, Some rb')
     /\ rb' = fetch_add_backpressure_events (store_backpressure rb true) 1
     /\ rb_backpressure rb' = true
     /\ rb_backpressure_events rb' = u64 (rb_backpressure_events rb + 1)
     /\ rb_buffer rb' = rb_buffer rb
     /\ rb_write_pos rb' = rb_write_pos rb
     /\ rb_read_pos rb' = rb_read_pos rb
     /\ rb_commit_pos rb' = rb_commit_pos rb
     /\ rb_messages_written rb' = rb_messages_written rb
     /\ rb_messages_read rb' = rb_messages_read rb
     /\ rb_bytes_written rb' = rb_bytes_written rb
     /\ rb_bytes_read rb' = rb_bytes_read rb
     /\ rb_write_errors rb' = rb_write_errors rb
     /\ rb_read_errors rb' = rb_read_errors rb)
  /\ (at_threshold = false ->
      fst result <> RING_BUFFER_ERROR_BACKPRESSURE
      /\ ring_buffer_is_backpressure (snd result) = false)
  /\ ring_buffer_is_backpressure (snd result) = at_threshold.
Proof.
  intros Hv Hnz Hmax Hthr at_threshold result.
  assert (Hhigh : at_threshold = true ->
            result = (RING_BUFFER_ERROR_BACKPRESSURE,
                      Some (fetch_add_backpressure_events (store_backpressure rb true) 1))).
  { intros Hat. unfold result, ring_buffer_write, write_reserve.
    destruct (Z.eqb_spec size 0); [contradiction |].
    rewrite Hv. cbn [negb].
    destruct (Z.ltb_spec RING_BUFFER_MAX_MESSAGE_SIZE size); [lia |].
    rewrite Hthr. fold at_threshold. rewrite Hat. reflexivity. }
  assert (Hlow : at_threshold = false ->
            fst result <> RING_BUFFER_ERROR_BACKPRESSURE
            /\ ring_buffer_is_backpressure (snd result) = false).
  { intros Hat. unfold result, ring_buffer_write, write_reserve.
    destruct (Z.eqb_spec size 0); [contradiction |].
    rewrite Hv. cbn [negb].
    destruct (Z.ltb_spec RING_BUFFER_MAX_MESSAGE_SIZE size); [lia |].
    rewrite Hthr. fold at_threshold. rewrite Hat. cbv zeta.
    destruct (_ <? _).
    - split; [discriminate | reflexivity].
    - pose proof (write_frame_keeps_flag
                    (store_write_pos (store_backpressure rb false)
                       (Z.land (u64 (rb_write_pos (store_backpressure rb false)
                                     + total_message_size size))
                               (u64 (rb_size (store_backpressure rb false) - 1))))
                    (Some data) size now
                    (rb_write_pos (store_backpressure rb false))) as Hflag.
      destruct (write_frame _ _ _ _ _) as [[|] rb''];
        cbn [snd fst] in *; (split; [discriminate | exact Hflag]). }
  split; [| split; [exact Hlow |]].
  - intros Hat. eexists. split; [exact (Hhigh Hat) |]. repeat split.
  - destruct at_threshold eqn:Hat.
    + rewrite (Hhigh eq_refl). reflexivity.
    + apply Hlow. reflexivity.
Qed.

(** ** Frame codec *)

Section Codec.

Lemma header_to_bytes_length (h : arrow_ipc_header_t) :
  length (header_to_bytes h) = 24%nat.
Proof. reflexivity. Qed.

Lemma header_of_to_bytes (h : arrow_ipc_header_t) :
  header_of_bytes (header_to_bytes h)
  = {| h_magic := u32 (h_magic h);
       h_length := u32 (h_length h);
       h_timestamp := u64 (h_timestamp h);
       h_checksum := u32 (h_checksum h);
       h_reserved := u32 (h_reserved h) |}.
Proof.
  unfold header_of_bytes, header_to_bytes.
  cbn [le_split app firstn skipn].
  f_equal.
  - exact (le_combine_split 4 (h_magic h)).
  - exact (le_combine_split 4 (h_length h)).
  - exact (le_combine_split 8 (h_timestamp h)).
  - exact (le_combine_split 4 (h_checksum h)).
  - exact (le_combine_split 4 (h_reserved h)).
Qed.

Lemma crc32_reference_range (data : list byte) : 0 <= crc32_reference data < 2 ^ 32.
Proof.
  assert (Hbit : forall c, 0 <= c < 2 ^ 32 -> 0 <= crc32_reference_bit c < 2 ^ 32).
  { intros c Hc. unfold crc32_reference_bit.
    assert (Hs : 0 <= Z.shiftr c 1 < 2 ^ 32).
    { rewrite Z.shiftr_div_pow2 by lia. change (2 ^ 1) with 2.
      split; [apply Z.div_pos; lia |]. apply Z.div_lt_upper_bound; lia. }
    destruct (Z.testbit c 0); [| rewrite Z.lxor_0_r; exact Hs].
    split; [apply Z.lxor_nonneg; lia |].
    destruct (Z.eq_dec (Z.lxor (Z.shiftr c 1) 0xEDB88320) 0) as [-> | Hne]; [lia |].
    apply Z.log2_lt_pow2; [pose proof (Z.lxor_nonneg (Z.shiftr c 1) 0xEDB88320); lia |].
    eapply Z.le_lt_trans; [apply Z.log2_lxor; lia |].
    apply Z.max_lub_lt; [| reflexivity].
    destruct (Z.eq_dec (Z.shiftr c 1) 0) as [-> | Hne']; [reflexivity |].
    apply Z.log2_lt_pow2; lia. }
  assert (Hiter : forall n c, 0 <= c < 2 ^ 32 ->
                    0 <= Nat.iter n crc32_reference_bit c < 2 ^ 32).
  { induction n as [| n IH]; intros c Hc; [exact Hc |].
    rewrite Nat.iter_succ. apply Hbit, IH, Hc. }
  assert (Hxor : forall a b, 0 <= a < 2 ^ 32 -> 0 <= b < 2 ^ 32 ->
                   0 <= Z.lxor a b < 2 ^ 32).
  { intros a b Ha Hb.
    assert (0 <= Z.lxor a b) by (apply Z.lxor_nonneg; lia).
    split; [assumption |].
    destruct (Z.eq_dec (Z.lxor a b) 0) as [-> | Hne]; [lia |].
    apply Z.log2_lt_pow2; [lia |].
    eapply Z.le_lt_trans; [apply Z.log2_lxor; lia |].
    apply Z.max_lub_lt.
    - destruct (Z.eq_dec a 0) as [-> | ?]; [reflexivity | apply Z.log2_lt_pow2; lia].
    - destruct (Z.eq_dec b 0) as [-> | ?]; [reflexivity | apply Z.log2_lt_pow2; lia]. }
  assert (Hfold : forall l c, 0 <= c < 2 ^ 32 ->
                    0 <= fold_left crc32_reference_byte l c < 2 ^ 32).
  { induction l as [| b l IH]; intros c Hc; [exact Hc |].
    cbn [fold_left]. apply IH. unfold crc32_reference_byte. apply Hiter, Hxor; [exact Hc |].
    pose proof (byte.unsigned_range b). lia. }
  unfold crc32_reference. apply Hxor; [apply Hfold |]; lia.
Qed.

Lemma header_round_trip (data : list byte) (size now : Z) :
  0 <= size < 2 ^ 32 ->
  header_of_bytes (header_to_bytes (frame_header data size now))
  = frame_header data size now.
Proof.
  intros Hsize. rewrite header_of_to_bytes. unfold frame_header.
  cbn [h_magic h_length h_timestamp h_checksum h_reserved].
  f_equal.
  - unfold u32. apply Z.mod_mod. lia.
  - unfold u64. apply Z.mod_mod. lia.
  - apply u32_small. rewrite crc32_of_reference. apply crc32_reference_range.
Qed.

End Codec.

(** ** Copies into and out of a list *)

Section Lists.

Context {A : Type}.

Lemma firstn_exact (n : nat) (l1 l2 : list A) :
  length l1 = n -> firstn n (l1 ++ l2) = l1.
Proof.
  intros <-. rewrite firstn_app, Nat.sub_diag, firstn_all. cbn [firstn]. apply app_nil_r.
Qed.

Lemma skipn_exact (n : nat) (l1 l2 : list A) :
  length l1 = n -> skipn n (l1 ++ l2) = l2.
Proof.
  intros <-. rewrite skipn_app, Nat.sub_diag, skipn_all. reflexivity.
Qed.

End Lists.

(** ** One frame through a fresh arena *)

Section FreshArena.

Variables (how : alloc_method) (e : Z) (p : list byte) (now : Z).
Local Abbreviation cap := (2 ^ e).
Local Abbreviation len := (Z.of_nat (length p)).
Local Abbreviation msz := (total_message_size len).
Hypothesis He : 0 <= e < 64.
Hypothesis Hsize : 1 <= len <= RING_BUFFER_MAX_MESSAGE_SIZE.
Hypothesis Hfit : msz <= cap - 1.

Local Abbreviation zeros := (repeat Byte.x00 (Z.to_nat cap)).
Local Abbreviation hdr := (header_to_bytes (frame_header p len now)).
Local Abbreviation rest :=
  (skipn (Z.to_nat (sizeof_arrow_ipc_header_t + len))
         (hdr ++ skipn (Z.to_nat sizeof_arrow_ipc_header_t) zeros)).

Lemma fresh_n : 0 < cap <= 2 ^ 63.
Proof.
  split; [apply Z.pow_pos_nonneg; lia | apply Z.pow_le_mono_r; lia].
Qed.

Lemma fresh_ms : 24 + len <= msz < 24 + len + 8.
Proof.
  unfold RING_BUFFER_MAX_MESSAGE_SIZE in Hsize.
  apply (total_message_size_bounds len). lia.
Qed.

Lemma mask_small (x : Z) : 0 <= x < cap -> Z.land (u64 x) (u64 (cap - 1)) = x.
Proof.
  intros Hx. pose proof fresh_n.
  rewrite (u64_small x) by lia. rewrite land_pow2_mask by lia.
  apply Z.mod_small. exact Hx.
Qed.

Lemma mask_small_raw (x : Z) : 0 <= x < cap -> Z.land (u64 x) (cap - 1) = x.
Proof.
  intros Hx. pose proof fresh_n.
  rewrite <- (u64_small (cap - 1)) by lia. apply mask_small. exact Hx.
Qed.

Lemma mask_small_lit (x : Z) : 0 <= x < cap -> Z.land x (u64 (cap - 1)) = x.
Proof.
  intros Hx. pose proof fresh_n.
  rewrite <- (u64_small x) at 1 by lia. apply mask_small. exact Hx.
Qed.

Lemma fresh_firstn : firstn (Z.to_nat len) p = p.
Proof. rewrite Nat2Z.id. apply firstn_all. Qed.

Lemma fresh_header : header_of_bytes hdr = frame_header p len now.
Proof.
  apply header_round_trip. unfold RING_BUFFER_MAX_MESSAGE_SIZE in Hsize. lia.
Qed.

(** With nothing in use the utilization test fails whatever the capacity. *)
Lemma utilization_zero (y : double) :
  double_ge (double_div (double_of_size_t 0) y) RING_BUFFER_BACKPRESSURE_THRESHOLD = false.
Proof. destruct y as [[|] | [|] | | [|] m x]; reflexivity. Qed.

Lemma fresh_reserve :
  write_reserve (initial_descriptor how cap) len
  = Reserved (store_write_pos (initial_descriptor how cap) msz) 0 msz.
Proof.
  pose proof fresh_n. pose proof fresh_ms.
  unfold write_reserve.
  rewrite (validate_intro (initial_descriptor how cap) e how zeros); try reflexivity;
    try (fields; lia).
  cbn [negb].
  destruct (Z.ltb_spec RING_BUFFER_MAX_MESSAGE_SIZE len); [lia |].
  unfold ring_buffer_utilization.
  change (utilization_used (initial_descriptor how cap)) with 0.
  fields. rewrite utilization_zero. cbv zeta.
  unfold ring_buffer_available_write. fields. cbn [Z.leb Z.compare Z.sub Z.opp Z.add].
  change (u64 0) with 0. rewrite Z.sub_0_r.
  rewrite (u64_small cap) by lia. rewrite (u64_small (cap - 1)) by lia.
  destruct (Z.ltb_spec (cap - 1) msz); [lia |].
  rewrite mask_small_raw by lia. reflexivity.
Qed.

Lemma fresh_frame :
  write_frame (store_write_pos (initial_descriptor how cap) msz) (Some p) len now 0
  = (true, store_buffer (store_write_pos (initial_descriptor how cap) msz)
                        (Buf_region how (hdr ++ p ++ rest))).
Proof.
  pose proof fresh_n. pose proof fresh_ms.
  unfold write_frame. fields.
  fold (frame_header p len now).
  unfold write_header, sizeof_arrow_ipc_header_t. rewrite Z.add_0_l.
  change (u64 24) with 24.
  destruct (Z.leb_spec 24 cap); [| lia].
  rewrite safe_memcpy_ok by (rewrite Z.sub_0_r, u64_small; lia).
  cbn [Z.eqb negb].
  unfold write_data, sizeof_arrow_ipc_header_t. rewrite Z.add_0_l.
  rewrite mask_small by lia.
  rewrite (u64_small (24 + len)) by lia.
  destruct (Z.leb_spec (24 + len) cap); [| lia].
  rewrite safe_memcpy_ok by (rewrite u64_small; lia).
  cbn [Z.eqb]. fields. f_equal. f_equal. f_equal.
  unfold memcpy.  
  cbn [Z.to_nat firstn skipn app]. rewrite Z.add_0_l.
  rewrite (firstn_all2 (n := Pos.to_nat 24) hdr) by (rewrite header_to_bytes_length; lia).
  rewrite (firstn_exact (Pos.to_nat 24)) by reflexivity.
  rewrite Nat2Z.id, firstn_all.
  reflexivity.
Qed.

Lemma fresh_write :
  ring_buffer_write (Some (initial_descriptor how cap)) (Some p) len now
  = (RING_BUFFER_SUCCESS, Some (fresh_written how cap p now)).
Proof.
  unfold ring_buffer_write.
  destruct (Z.eqb_spec len 0); [lia |].
  rewrite fresh_reserve, fresh_frame. reflexivity.
Qed.

Lemma fresh_read (out : ring_buffer_message_t) :
  ring_buffer_read (Some (fresh_written how cap p now)) (Some out)
  = (RING_BUFFER_SUCCESS, Some (fresh_consumed how cap p now), Some (fresh_message p now)).
Proof.
  pose proof fresh_n. pose proof fresh_ms.
  assert (Hsz : 0 <= len < 2 ^ 32) by (unfold RING_BUFFER_MAX_MESSAGE_SIZE in Hsize; lia).
  unfold ring_buffer_read.
  rewrite (validate_intro (fresh_written how cap p now) e how (hdr ++ p ++ rest)); try reflexivity;
    try (unfold fresh_written; fields; lia).
  cbn [negb].
  unfold ring_buffer_available_read, fresh_written. fields.
     
  destruct (Z.leb_spec 0 msz); [| lia].
  rewrite Z.sub_0_r. rewrite (u64_small msz) by lia.
  unfold sizeof_arrow_ipc_header_t at 1.
  destruct (Z.ltb_spec msz 24); [lia |].
  unfold read_header, sizeof_arrow_ipc_header_t. rewrite Z.add_0_l.
  change (u64 24) with 24.
  destruct (Z.leb_spec 24 cap); [| lia].
  rewrite safe_memcpy_ok by lia.
  cbn [Z.eqb negb].
  unfold memcpy. cbn [Z.to_nat firstn skipn app Z.add repeat Pos.to_nat Pos.iter_op Nat.add].
  rewrite (firstn_exact 24) by reflexivity.
  rewrite app_nil_r.
  rewrite fresh_header.
  assert (Hlen : h_length (frame_header p len now) = len) by (apply u32_small; lia).
  assert (Hck : h_checksum (frame_header p len now) = crc32_of p len) by reflexivity.
  assert (Hcrc : forall t, crc32_of (p ++ t) len = crc32_of p len).
  { intros t. rewrite !crc32_of_reference, fresh_firstn. f_equal.
    apply firstn_exact. symmetry. apply Nat2Z.id. }
  change (h_magic (frame_header p len now)) with ARROW_IPC_MAGIC.
  rewrite Hlen, Hck, Z.eqb_refl. cbn [negb].
  destruct (Z.ltb_spec RING_BUFFER_MAX_MESSAGE_SIZE len); [lia |].
  destruct (Z.ltb_spec msz msz); [lia |].
  rewrite mask_small_lit by lia.
  rewrite (u64_small (24 + len)) by lia.
  destruct (Z.leb_spec (24 + len) cap); [| lia].
  change (Z.to_nat 24) with 24%nat.
  rewrite (skipn_exact 24) by reflexivity.
  rewrite Hcrc, Z.eqb_refl. cbn [negb].
  rewrite mask_small by lia.
  reflexivity.
Qed.

Lemma fresh_payload :
  message_payload (fresh_consumed how cap p now) (fresh_message p now) = p.
Proof.
  unfold message_payload, fresh_consumed, fresh_written, fresh_message. fields.
  cbn [msg_data msg_data_size sizeof_arrow_ipc_header_t]. 
  change (Z.to_nat 24) with 24%nat.
  rewrite (skipn_exact 24) by reflexivity.
  apply firstn_exact. symmetry. apply Nat2Z.id.
Qed.

Lemma fresh_empty (out : ring_buffer_message_t) :
  ring_buffer_read (Some (fresh_consumed how cap p now)) (Some out)
  = (RING_BUFFER_ERROR_EMPTY, Some (fresh_consumed how cap p now), Some out).
Proof.
  pose proof fresh_n. pose proof fresh_ms.
  unfold ring_buffer_read.
  rewrite (validate_intro (fresh_consumed how cap p now) e how (hdr ++ p ++ rest)); try reflexivity;
    try (unfold fresh_consumed, fresh_written; fields; lia).
  cbn [negb].
  unfold ring_buffer_available_read, fresh_consumed, fresh_written. fields.
  rewrite Z.leb_refl, Z.sub_diag. reflexivity.
Qed.

End FreshArena.

Lemma create_descriptor (g : crc32_globals) (k : Z) (a : allocation) (rb : ring_buffer_t) :
  snd (ring_buffer_create g k a) = Some rb ->
  exists how, rb = initial_descriptor how (rb_size rb).
Proof.
  unfold ring_buffer_create. destruct a; cbn [snd]; intros H; try discriminate;
    injection H as <-; eexists; reflexivity.
Qed.

(** C1. Round trip: in an arena just returned by [ring_buffer_create], for
    every payload [p] of 1 to 16 MiB bytes with
    [align_size (24 + |p|) <= N - 1], [ring_buffer_write] returns [Success];
    the next [ring_buffer_read] returns [Success] with the bytes of [p],
    [length = |p|], [magic = 0x41524157] and [checksum] the CRC-32 of [p];
    and a further [ring_buffer_read] returns [Empty]. *)
Theorem write_read_round_trip (g : crc32_globals) (k : Z) (a : allocation)
    (rb : ring_buffer_t) (p : list byte) (now : Z) (out : ring_buffer_message_t) :
  is_size_t k ->
  snd (ring_buffer_create g k a) = Some rb ->
  1 <= Z.of_nat (length p) <= 16 * 1024 * 1024 ->
  align_size (24 + Z.of_nat (length p)) <= rb_size rb - 1 ->
  exists rb1 rb2 msg,
    ring_buffer_write (Some rb) (Some p) (Z.of_nat (length p)) now
      = (RING_BUFFER_SUCCESS, Some rb1)
    /\ ring_buffer_read (Some rb1) (Some out) = (RING_BUFFER_SUCCESS, Some rb2, Some msg)
    /\ message_payload rb2 msg = p
    /\ h_length (msg_header msg) = Z.of_nat (length p)
    /\ h_magic (msg_header msg) = 0x41524157
    /\ h_checksum (msg_header msg) = crc32_reference p
    /\ ring_buffer_read (Some rb2) (Some msg) = (RING_BUFFER_ERROR_EMPTY, Some rb2, Some msg).
Proof.
  intros Hk Hcreate Hlen Hfit.
  pose proof (create_capacity g k a rb Hcreate) as Hcap.
  destruct (create_descriptor g k a rb Hcreate) as [how Hrb].
  assert (Hk' : 0 <= (if k =? 0 then RING_BUFFER_DEFAULT_SIZE else k) < 2 ^ 64).
  { destruct (k =? 0); [unfold RING_BUFFER_DEFAULT_SIZE; lia | exact Hk]. }
  assert (Hms : total_message_size (Z.of_nat (length p)) = align_size (24 + Z.of_nat (length p))).
  { unfold total_message_size, sizeof_arrow_ipc_header_t. rewrite u64_small by lia. reflexivity. }
  pose proof (total_message_size_bounds (Z.of_nat (length p)) ltac:(lia)) as Hb.
  unfold sizeof_arrow_ipc_header_t in Hb.
  destruct (next_power_of_2_shape _ Hk') as [Hz | [e [He Hpow]]];
    rewrite <- Hcap in *; [lia |].
  rewrite Hrb, Hpow.
  assert (Hsize : 1 <= Z.of_nat (length p) <= RING_BUFFER_MAX_MESSAGE_SIZE)
    by (unfold RING_BUFFER_MAX_MESSAGE_SIZE; lia).
  assert (Hfit' : total_message_size (Z.of_nat (length p)) <= 2 ^ e - 1) by lia.
  exists (fresh_written how (2 ^ e) p now), (fresh_consumed how (2 ^ e) p now),
         (fresh_message p now).
  split; [apply fresh_write; assumption |].
  split; [apply fresh_read; assumption |].
  split; [apply fresh_payload |].
  split; [apply u32_small; lia |].
  split; [reflexivity |].
  split; [cbn [fresh_message msg_header frame_header h_checksum];
          rewrite crc32_of_reference, Nat2Z.id; f_equal; apply firstn_all |].
  apply fresh_empty; assumption.
Qed.

(** ** Producers *)

Lemma lone_step (rb : ring_buffer_t) (p : producer) :
  system_step {| arena := rb; producers := [p] |} 0
  = {| arena := fst (producer_step rb p); producers := [snd (producer_step rb p)] |}.
Proof.
  unfold system_step. cbn [nth_error producers arena].
  destruct (producer_step rb p). reflexivity.
Qed.

(** A producer that runs alone does what [ring_buffer_write] does. *)
Lemma lone_producer_is_write (rb : ring_buffer_t) (data : option (list byte)) (size now : Z) :
  let s := run [0%nat; 0%nat; 0%nat]
               {| arena := rb; producers := [Calling data size now] |} in
  exists e, producers s = [Returned e]
            /\ ring_buffer_write (Some rb) data size now = (e, Some (arena s)).
Proof.
  unfold run. cbn [fold_left]. rewrite !lone_step. cbn [producers arena].
  unfold ring_buffer_write.
  destruct data as [payload |]; [| cbn; eauto].
  cbn [producer_step].
  destruct (size =? 0); [cbn; eauto |].
  destruct (write_reserve rb size) as [e rb' | rb' wp nwp]; [cbn; eauto |].
  cbn [fst snd producer_step].
  destruct (write_frame rb' (Some payload) size now wp) as [[|] rb'']; cbn; eauto.
Qed.

(** C3. Commit ordering does not hold: [write_commit] stores [commit_pos]
    whatever its current value. With two producers on a fresh 128-byte arena,
    when the second one commits, [commit_pos] is 0 and not its snapshot 32;
    afterwards [commit_pos = 64] covers the 32 bytes reserved by the first
    producer, which are still zero, and [ring_buffer_read] returns
    [Corrupted]; when the first producer then commits, [commit_pos] goes back
    to 32 although both frames are written. *)
Theorem commit_exposes_unwritten_frame :
  let before := run [0%nat; 1%nat; 1%nat] two_producers in
  let after := system_step before 1 in
  let finished := run [0%nat; 0%nat] after in
  (forall rb size new_write_pos,
      rb_commit_pos (write_commit rb size new_write_pos) = new_write_pos)
  /\ producers before
     = [Has_reserved (Some [Byte.x41]) 1 100 0 32; Has_copied 1 32 64]
  /\ rb_commit_pos (arena before) = 0
  /\ rb_commit_pos (arena after) = 64
  /\ producers after
     = [Has_reserved (Some [Byte.x41]) 1 100 0 32; Returned RING_BUFFER_SUCCESS]
  /\ firstn 32 (arena_bytes (arena after)) = repeat Byte.x00 32
  /\ ring_buffer_available_read (Some (arena after)) = 64
  /\ ring_buffer_read (Some (arena after)) (Some blank_message)
     = (RING_BUFFER_ERROR_CORRUPTED, Some (fetch_add_read_errors (arena after) 1),
        Some blank_message)
  /\ producers finished = [Returned RING_BUFFER_SUCCESS; Returned RING_BUFFER_SUCCESS]
  /\ rb_write_pos (arena finished) = 64
  /\ rb_commit_pos (arena finished) = 32.
Proof. split; [reflexivity |]. vm_compute. repeat split. Qed.

(** ** Destruction *)




(** ** Backpressure, as stated *)

Lemma write_too_large (rb : ring_buffer_t) (data : list byte) (size now : Z) :
  ring_buffer_validate (Some rb) = true -> RING_BUFFER_MAX_MESSAGE_SIZE < size ->
  ring_buffer_write (Some rb) (Some data) size now
  = (RING_BUFFER_ERROR_TOO_LARGE, Some (fetch_add_write_errors rb 1)).
Proof.
  intros Hv Hsize. unfold ring_buffer_write, write_reserve.
  destruct (Z.eqb_spec size 0); [unfold RING_BUFFER_MAX_MESSAGE_SIZE in Hsize; lia |].
  rewrite Hv. cbn [negb].
  destruct (Z.ltb_spec RING_BUFFER_MAX_MESSAGE_SIZE size); [reflexivity | lia].
Qed.

Lemma arena_at_threshold_valid : ring_buffer_validate (Some arena_at_threshold) = true.
Proof. vm_compute. reflexivity. Qed.

(** C4, as stated, fails: with 104 of 128 bytes in use at entry, a write of
    size 0 returns [InvalidParam] and a write of 16 MiB + 1 bytes returns
    [TooLarge]; neither sets the flag nor counts a backpressure event. *)
Lemma backpressure_not_first_check :
  ring_buffer_write (Some (initial_descriptor By_mmap 128)) (Some payload_80) 80 0
    = (RING_BUFFER_SUCCESS, Some arena_at_threshold)
  /\ double_ge (ring_buffer_utilization (Some arena_at_threshold))
               RING_BUFFER_BACKPRESSURE_THRESHOLD = true
  /\ ring_buffer_write (Some arena_at_threshold) (Some payload_80) 0 0
     = (RING_BUFFER_ERROR_INVALID_PARAM, Some arena_at_threshold)
  /\ ring_buffer_write (Some arena_at_threshold)
                       (Some (repeat Byte.x41 (Z.to_nat (16 * 1024 * 1024 + 1))))
                       (16 * 1024 * 1024 + 1) 0
     = (RING_BUFFER_ERROR_TOO_LARGE, Some (fetch_add_write_errors arena_at_threshold 1))
  /\ rb_backpressure (fetch_add_write_errors arena_at_threshold 1) = false
  /\ rb_backpressure_events (fetch_add_write_errors arena_at_threshold 1) = 0
  /\ ~ (forall rb data size now,
          double_ge (ring_buffer_utilization (Some rb))
                    RING_BUFFER_BACKPRESSURE_THRESHOLD = true ->
          fst (ring_buffer_write (Some rb) (Some data) size now)
          = RING_BUFFER_ERROR_BACKPRESSURE).
Proof.
  assert (Hhigh : double_ge (ring_buffer_utilization (Some arena_at_threshold))
                            RING_BUFFER_BACKPRESSURE_THRESHOLD = true)
    by (vm_compute; reflexivity).
  split; [vm_compute; reflexivity |].
  split; [exact Hhigh |].
  split; [reflexivity |].
  split; [apply write_too_large; [exact arena_at_threshold_valid | reflexivity] |].
  split; [reflexivity |]. split; [reflexivity |].
  intros H. specialize (H arena_at_threshold payload_80 0 0 Hhigh). discriminate H.
Qed.

(** ** Instances *)

(** The four ways a frame is refused by [ring_buffer_read]: magic, length,
    checksum, payload past the arena end. *)
Example read_refusals :
  fst (fst (ring_buffer_read (Some arena_bad_magic) (Some blank_message)))
    = RING_BUFFER_ERROR_CORRUPTED
  /\ fst (fst (ring_buffer_read (Some arena_bad_length) (Some blank_message)))
    = RING_BUFFER_ERROR_CORRUPTED
  /\ fst (fst (ring_buffer_read (Some arena_bad_checksum) (Some blank_message)))
    = RING_BUFFER_ERROR_CORRUPTED
  /\ fst (fst (ring_buffer_read arena_wrapped (Some blank_message)))
    = RING_BUFFER_ERROR_CORRUPTED
  /\ option_map rb_messages_written arena_wrapped = Some 2.
Proof. vm_compute. repeat split. Qed.

(** The check value of CRC-32. *)
Example crc32_check_value :
  crc32_of (bytes_of [49; 50; 51; 52; 53; 54; 55; 56; 57]) 9 = 0xCBF43926.
Proof. vm_compute. reflexivity. Qed.

Example threshold_value :
  RING_BUFFER_BACKPRESSURE_THRESHOLD = S754_finite false 7205759403792794 (-53).
Proof. vm_compute. reflexivity. Qed.

(** In a 128-byte arena the test in double precision turns at 103 bytes:
    102/128 is below 0.8 and 103/128 is not. *)
Example threshold_at_128 :
  double_ge (double_div (double_of_size_t 102) (double_of_size_t 128))
            RING_BUFFER_BACKPRESSURE_THRESHOLD = false
  /\ double_ge (double_div (double_of_size_t 103) (double_of_size_t 128))
               RING_BUFFER_BACKPRESSURE_THRESHOLD = true.
Proof. vm_compute. split; reflexivity. Qed.

Example create_1025 (g : crc32_globals) :
  option_map rb_size (snd (ring_buffer_create g 1025 Mmap_ok)) = Some 2048.
Proof. reflexivity. Qed.

Example create_4096 (g : crc32_globals) :
  option_map rb_size (snd (ring_buffer_create g 4096 Mmap_fails_malloc_ok)) = Some 4096.
Proof. reflexivity. Qed.

(** C1 at the Echo scenario: a 1 MiB arena and the thirteen bytes of
    [hello_world]. *)
Lemma write_read_round_trip_witness :
  is_size_t (1024 * 1024)
  /\ snd (ring_buffer_create crc32_globals_initial (1024 * 1024) Mmap_ok)
     = Some (initial_descriptor By_mmap (1024 * 1024))
  /\ 1 <= Z.of_nat (length hello_world) <= 16 * 1024 * 1024
  /\ align_size (24 + Z.of_nat (length hello_world))
     <= rb_size (initial_descriptor By_mmap (1024 * 1024)) - 1
  /\ exists rb1 rb2 msg,
       ring_buffer_write (Some (initial_descriptor By_mmap (1024 * 1024))) (Some hello_world)
                         (Z.of_nat (length hello_world)) 1234567
         = (RING_BUFFER_SUCCESS, Some rb1)
       /\ ring_buffer_read (Some rb1) (Some blank_message)
          = (RING_BUFFER_SUCCESS, Some rb2, Some msg)
       /\ message_payload rb2 msg = hello_world
       /\ h_length (msg_header msg) = Z.of_nat (length hello_world)
       /\ h_magic (msg_header msg) = 0x41524157
       /\ h_checksum (msg_header msg) = crc32_reference hello_world
       /\ ring_buffer_read (Some rb2) (Some msg)
          = (RING_BUFFER_ERROR_EMPTY, Some rb2, Some msg).
Proof.
  assert (H1 : is_size_t (1024 * 1024)) by (unfold is_size_t; lia).
  assert (H2 : snd (ring_buffer_create crc32_globals_initial (1024 * 1024) Mmap_ok)
               = Some (initial_descriptor By_mmap (1024 * 1024))) by reflexivity.
  assert (H3 : 1 <= Z.of_nat (length hello_world) <= 16 * 1024 * 1024)
    by (vm_compute; split; discriminate).
  assert (H4 : align_size (24 + Z.of_nat (length hello_world))
               <= rb_size (initial_descriptor By_mmap (1024 * 1024)) - 1)
    by (cbn [rb_size initial_descriptor]; vm_compute; discriminate).
  split; [exact H1 |]. split; [exact H2 |]. split; [exact H3 |]. split; [exact H4 |].
  exact (write_read_round_trip crc32_globals_initial (1024 * 1024) Mmap_ok
           (initial_descriptor By_mmap (1024 * 1024)) hello_world 1234567 blank_message
           H1 H2 H3 H4).
Defined.

(** C2 at an arena whose committed bytes carry no frame magic. *)
Lemma read_corrupted_atomic_witness :
  ring_buffer_read (Some arena_bad_magic) (Some blank_message)
    = (RING_BUFFER_ERROR_CORRUPTED, Some (fetch_add_read_errors arena_bad_magic 1),
       Some blank_message)
  /\ exists rb rb',
       Some arena_bad_magic = Some rb
       /\ Some (fetch_add_read_errors arena_bad_magic 1) = Some rb'
       /\ rb' = fetch_add_read_errors rb 1
       /\ rb_read_errors rb' = u64 (rb_read_errors rb + 1)
       /\ (0 <= rb_read_errors rb < 2 ^ 64 - 1 -> rb_read_errors rb' = rb_read_errors rb + 1)
       /\ rb_read_pos rb' = rb_read_pos rb
       /\ rb_write_pos rb' = rb_write_pos rb
       /\ rb_commit_pos rb' = rb_commit_pos rb
       /\ rb_buffer rb' = rb_buffer rb
       /\ rb_messages_read rb' = rb_messages_read rb
       /\ rb_bytes_read rb' = rb_bytes_read rb.
Proof.
  assert (H : ring_buffer_read (Some arena_bad_magic) (Some blank_message)
              = (RING_BUFFER_ERROR_CORRUPTED,
                 Some (fetch_add_read_errors arena_bad_magic 1), Some blank_message))
    by (vm_compute; reflexivity).
  split; [exact H |].
  exact (read_corrupted_atomic _ _ _ _ H).
Defined.

(** C4, amended, at a 128-byte arena with 104 bytes in use and a one-byte
    write. *)
Lemma backpressure_gate_witness :
  ring_buffer_validate (Some arena_at_threshold) = true
  /\ 1 <> 0
  /\ 1 <= RING_BUFFER_MAX_MESSAGE_SIZE
  /\ rb_backpressure_threshold arena_at_threshold = RING_BUFFER_BACKPRESSURE_THRESHOLD
  /\ double_ge (ring_buffer_utilization (Some arena_at_threshold))
               RING_BUFFER_BACKPRESSURE_THRESHOLD = true
  /\ ring_buffer_is_backpressure
       (snd (ring_buffer_write (Some arena_at_threshold) (Some [Byte.x41]) 1 7))
     = double_ge (ring_buffer_utilization (Some arena_at_threshold))
                 RING_BUFFER_BACKPRESSURE_THRESHOLD.
Proof.
  assert (H1 : ring_buffer_validate (Some arena_at_threshold) = true)
    by (vm_compute; reflexivity).
  assert (H2 : 1 <> 0) by discriminate.
  assert (H3 : 1 <= RING_BUFFER_MAX_MESSAGE_SIZE) by (vm_compute; discriminate).
  assert (H4 : rb_backpressure_threshold arena_at_threshold
               = RING_BUFFER_BACKPRESSURE_THRESHOLD) by reflexivity.
  split; [exact H1 |]. split; [exact H2 |]. split; [exact H3 |]. split; [exact H4 |].
  split; [vm_compute; reflexivity |].
  exact (proj2 (proj2 (backpressure_gate arena_at_threshold [Byte.x41] 1 7 H1 H2 H3 H4))).
Defined.

(** C5 at a 128-byte arena with 104 bytes in use: 23 bytes are free. *)
Lemma occupancy_accounting_witness :
  0 <= 7 < 64
  /\ rb_size arena_at_threshold = 2 ^ 7
  /\ 0 <= rb_write_pos arena_at_threshold < rb_size arena_at_threshold
  /\ 0 <= rb_read_pos arena_at_threshold < rb_size arena_at_threshold
  /\ ring_buffer_available_write (Some arena_at_threshold) = 23
  /\ utilization_used arena_at_threshold = 104.
Proof.
  assert (H1 : 0 <= 7 < 64) by lia.
  assert (H2 : rb_size arena_at_threshold = 2 ^ 7) by reflexivity.
  assert (H3 : 0 <= rb_write_pos arena_at_threshold < rb_size arena_at_threshold)
    by (vm_compute; split; [discriminate | reflexivity]).
  assert (H4 : 0 <= rb_read_pos arena_at_threshold < rb_size arena_at_threshold)
    by (vm_compute; split; [discriminate | reflexivity]).
  split; [exact H1 |]. split; [exact H2 |]. split; [exact H3 |]. split; [exact H4 |].
  pose proof (occupancy_accounting arena_at_threshold 7 H1 H2 H3 H4) as H.
  cbv zeta in H. destruct H as (Ha & Hu & _ & _).
  split; [rewrite Ha | rewrite Hu]; reflexivity.
Defined.

(** C6 at [k = 1023] with [mmap] succeeding: the arena has capacity 1024. *)
Lemma capacity_rounding_witness :
  1 <= 1023 <= 2 ^ 63
  /\ allocation_succeeds Mmap_ok = true
  /\ ring_buffer_next_power_of_2 1023 = 1024
  /\ snd (ring_buffer_create crc32_globals_initial 1023 Mmap_ok)
     = Some (initial_descriptor By_mmap 1024)
  /\ exists rb,
       snd (ring_buffer_create crc32_globals_initial 1023 Mmap_ok) = Some rb
       /\ rb_size rb = ring_buffer_next_power_of_2 1023.
Proof.
  assert (H1 : 1 <= 1023 <= 2 ^ 63) by lia.
  assert (H2 : allocation_succeeds Mmap_ok = true) by reflexivity.
  split; [exact H1 |]. split; [exact H2 |]. split; [reflexivity |].
  split; [vm_compute; reflexivity |].
  exact (proj1 (proj2 (proj2 (proj2 (capacity_rounding 1023 H1))))
           crc32_globals_initial Mmap_ok H2).
Defined.


(** C9 at a 128-byte arena holding one frame. *)
Lemma copies_never_fail_witness :
  descriptor_in_range arena_at_threshold
  /\ is_size_t 1
  /\ fst (ring_buffer_write (Some arena_at_threshold) (Some [Byte.x41]) 1 7)
     <> RING_BUFFER_ERROR
  /\ fst (fst (ring_buffer_read (Some arena_at_threshold) (Some blank_message)))
     <> RING_BUFFER_ERROR.
Proof.
  assert (H1 : descriptor_in_range arena_at_threshold)
    by (unfold descriptor_in_range, is_size_t; vm_compute; repeat split; discriminate).
  assert (H2 : is_size_t 1) by (unfold is_size_t; lia).
  split; [exact H1 |]. split; [exact H2 |].
  exact (proj2 (proj2 (copies_never_fail arena_at_threshold (Some [Byte.x41]) 1 7
                         (Some blank_message) H1 H2))).
Defined.

(** * Further properties *)

(** ** Alignment and rounding *)

Section Alignment.

Lemma align_size_multiple (s : Z) : 0 <= s <= 2 ^ 64 - 8 -> align_size s mod 8 = 0.
Proof.
  intros Hs. rewrite align_size_eq by lia. rewrite Z.mul_comm. apply Z.mod_mul. lia.
Qed.

Lemma align_size_fixed (s : Z) :
  0 <= s <= 2 ^ 64 - 8 -> s mod 8 = 0 -> align_size s = s.
Proof.
  intros Hs Hmod. rewrite align_size_eq by lia.
  pose proof (Z.div_mod s 8 ltac:(lia)) as Hd.
  replace (s + 7) with (7 + (s / 8) * 8) by lia.
  rewrite Z.div_add by lia. change (7 / 8) with 0. lia.
Qed.

Lemma align_size_top (s : Z) : 0 <= s <= 2 ^ 64 - 8 -> align_size s <= 2 ^ 64 - 8.
Proof.
  intros Hs. rewrite align_size_eq by lia.
  assert ((s + 7) / 8 <= (2 ^ 64 - 1) / 8) by (apply Z.div_le_mono; lia).
  change ((2 ^ 64 - 1) / 8) with (2 ^ 61 - 1) in *. lia.
Qed.

Lemma align_size_wraps (s : Z) : 2 ^ 64 - 8 < s < 2 ^ 64 -> align_size s = 0.
Proof.
  intros Hs. unfold align_size.
  assert (E : u64 (s + MESSAGE_ALIGNMENT - 1) = s + 7 - 2 ^ 64).
  { unfold u64, MESSAGE_ALIGNMENT. symmetry. apply (Z.mod_unique _ _ 1); lia. }
  rewrite E, land_not7 by lia. rewrite Z.div_small by lia. reflexivity.
Qed.

End Alignment.

(** X1. Alignment: for every [size_t] value [s], [align_size] applied
    twice gives what it gives once; when [s <= 2^64 - 8], [align_size s] is a
    multiple of 8 with [s <= align_size s < s + 8], hence [s] itself when [s]
    is a multiple of 8; above [2^64 - 8] the addition wraps around and the
    result is 0. *)
Theorem align_size_rounds_up (s : Z) :
  0 <= s < 2 ^ 64 ->
  (s <= 2 ^ 64 - 8 ->
     align_size s mod 8 = 0 /\ s <= align_size s < s + 8
     /\ (s mod 8 = 0 -> align_size s = s))
  /\ (2 ^ 64 - 8 < s -> align_size s = 0)
  /\ align_size (align_size s) = align_size s.
Proof.
  intros Hs. split; [| split].
  - intros Hle. split; [apply align_size_multiple; lia |].
    split; [apply align_size_bounds; lia | apply align_size_fixed; lia].
  - intros Hgt. apply align_size_wraps. lia.
  - destruct (Z_le_gt_dec s (2 ^ 64 - 8)) as [Hle | Hgt].
    + pose proof (align_size_bounds s ltac:(lia)).
      apply align_size_fixed; [split; [lia | apply align_size_top; lia] |].
      apply align_size_multiple. lia.
    + rewrite (align_size_wraps s) by lia. reflexivity.
Qed.

(** ** Rounding to a power of two *)

Lemma next_power_of_2_pow2 (e : Z) :
  0 <= e < 64 -> ring_buffer_next_power_of_2 (2 ^ e) = 2 ^ e.
Proof.
  intros He.
  destruct (Z.eq_dec e 0) as [-> | Hne]; [reflexivity |].
  assert (2 <= 2 ^ e) by (change 2 with (2 ^ 1) at 1; apply Z.pow_le_mono_r; lia).
  assert (2 ^ e < 2 ^ 64) by (apply Z.pow_lt_mono_r; lia).
  rewrite next_power_of_2_log2 by lia.
  change (2 ^ e - 1) with (Z.pred (2 ^ e)). rewrite Z.log2_pred_pow2 by lia.
  replace (Z.pred e + 1) with e by lia. apply u64_small. lia.
Qed.

Lemma next_power_of_2_overflow (k : Z) :
  2 ^ 63 < k < 2 ^ 64 -> ring_buffer_next_power_of_2 k = 0.
Proof.
  intros Hk. rewrite next_power_of_2_log2 by lia.
  assert (E : Z.log2 (k - 1) = 63) by (apply Z.log2_unique; lia).
  rewrite E. reflexivity.
Qed.

Lemma next_power_of_2_is_pow2 (k : Z) :
  0 <= k <= 2 ^ 63 -> exists e, 0 <= e < 64 /\ ring_buffer_next_power_of_2 k = 2 ^ e.
Proof.
  intros Hk.
  destruct (next_power_of_2_shape k ltac:(lia)) as [Hz | H]; [exfalso | exact H].
  destruct (Z.eq_dec k 0) as [-> | H0]; [discriminate Hz |].
  destruct (Z.eq_dec k 1) as [-> | H1]; [discriminate Hz |].
  rewrite next_power_of_2_log2 in Hz by lia.
  assert (Hlog : 0 <= Z.log2 (k - 1) < 63).
  { split; [apply Z.log2_nonneg | apply Z.log2_lt_pow2; lia]. }
  assert (2 ^ (Z.log2 (k - 1) + 1) <= 2 ^ 63) by (apply Z.pow_le_mono_r; lia).
  rewrite u64_small in Hz by lia. lia.
Qed.

(** X2. Power-of-two rounding at the ends of its domain:
    [ring_buffer_next_power_of_2 0 = 1]; every power of two below [2^64] is
    returned unchanged; on [[0, 2^63]] rounding twice is rounding once; and
    for [2^63 < k < 2^64] the result wraps around to 0. *)
Theorem next_power_of_2_fixpoints (k : Z) :
  0 <= k < 2 ^ 64 ->
  ring_buffer_next_power_of_2 0 = 1
  /\ (forall e, 0 <= e < 64 -> ring_buffer_next_power_of_2 (2 ^ e) = 2 ^ e)
  /\ (k <= 2 ^ 63 ->
      ring_buffer_next_power_of_2 (ring_buffer_next_power_of_2 k)
      = ring_buffer_next_power_of_2 k)
  /\ (2 ^ 63 < k -> ring_buffer_next_power_of_2 k = 0).
Proof.
  intros Hk. split; [reflexivity |]. split; [exact next_power_of_2_pow2 |]. split.
  - intros Hle. destruct (next_power_of_2_is_pow2 k ltac:(lia)) as [e [He Hp]].
    rewrite Hp. apply next_power_of_2_pow2. exact He.
  - intros Hgt. apply next_power_of_2_overflow. lia.
Qed.

(** X3. Oversized request: when [ring_buffer_create] is asked for more than
    [2^63] bytes and its allocations succeed, the arena it returns has
    capacity 0 and fails [ring_buffer_validate]; every write of non-null data
    with a non-zero size returns [Corrupted] and counts a write error, and
    every read returns [Corrupted] and counts a read error. *)
Theorem create_overflow_unusable (g : crc32_globals) (k : Z) (a : allocation)
    (rb : ring_buffer_t) (data : option (list byte)) (size now : Z)
    (out : ring_buffer_message_t) :
  2 ^ 63 < k < 2 ^ 64 ->
  snd (ring_buffer_create g k a) = Some rb ->
  rb_size rb = 0
  /\ ring_buffer_validate (Some rb) = false
  /\ (data <> None -> size <> 0 ->
      ring_buffer_write (Some rb) data size now
      = (RING_BUFFER_ERROR_CORRUPTED, Some (fetch_add_write_errors rb 1)))
  /\ ring_buffer_read (Some rb) (Some out)
     = (RING_BUFFER_ERROR_CORRUPTED, Some (fetch_add_read_errors rb 1), Some out).
Proof.
  intros Hk Hcreate.
  pose proof (create_capacity g k a rb Hcreate) as Hcap.
  destruct (Z.eqb_spec k 0) as [-> | _]; [lia |].
  assert (Hz : rb_size rb = 0) by (rewrite Hcap; apply next_power_of_2_overflow; lia).
  destruct (create_descriptor g k a rb Hcreate) as [how Hrb].
  assert (Hv : ring_buffer_validate (Some rb) = false).
  { rewrite Hrb, Hz. reflexivity. }
  split; [exact Hz |]. split; [exact Hv |]. split.
  - intros Hd Hs. unfold ring_buffer_write, write_reserve.
    destruct data as [d |]; [| contradiction].
    destruct (Z.eqb_spec size 0); [contradiction |].
    rewrite Hv. reflexivity.
  - unfold ring_buffer_read. rewrite Hv. reflexivity.
Qed.

(** ** A new arena *)

Lemma initial_descriptor_ok (how : alloc_method) (e : Z) :
  0 <= e < 64 -> arena_ok (initial_descriptor how (2 ^ e)).
Proof.
  intros He.
  assert (Hn : 0 < 2 ^ e < 2 ^ 64).
  { split; [apply Z.pow_pos_nonneg; lia | apply Z.pow_lt_mono_r; lia]. }
  split; [| split].
  - unfold descriptor_in_range, is_size_t. fields. lia.
  - apply (validate_intro _ e how (repeat Byte.x00 (Z.to_nat (2 ^ e))));
      try reflexivity; fields; lia.
  - unfold arena_bytes. fields. rewrite repeat_length. apply Z2Nat.id. lia.
Qed.

Lemma initial_descriptor_holds (how : alloc_method) (e : Z) :
  0 <= e < 64 -> queue_holds (initial_descriptor how (2 ^ e)) [].
Proof.
  intros He. split; [apply initial_descriptor_ok; exact He |].
  assert (Hn : 0 < 2 ^ e) by (apply Z.pow_pos_nonneg; lia).
  repeat split; cbn [frames_size]; fields; lia.
Qed.

(** X4. New arena: for a request of at most [2^63] bytes, the arena returned
    by [ring_buffer_create] passes [ring_buffer_validate] with every field in
    range; its region has exactly [size] bytes, all zero; the three positions
    are 0; [size - 1] bytes can be written and none read; the backpressure
    flag is clear; [ring_buffer_get_stats] reports seven zeros; and the CRC
    table is initialised. *)
Theorem create_establishes (g : crc32_globals) (k : Z) (a : allocation)
    (rb : ring_buffer_t) (stats : ring_buffer_stats_t) :
  0 <= k <= 2 ^ 63 ->
  snd (ring_buffer_create g k a) = Some rb ->
  arena_ok rb
  /\ rb_write_pos rb = 0 /\ rb_read_pos rb = 0 /\ rb_commit_pos rb = 0
  /\ arena_bytes rb = repeat Byte.x00 (Z.to_nat (rb_size rb))
  /\ ring_buffer_available_write (Some rb) = rb_size rb - 1
  /\ ring_buffer_available_read (Some rb) = 0
  /\ ring_buffer_is_backpressure (Some rb) = false
  /\ ring_buffer_get_stats (Some rb) (Some stats)
     = Some {| messages_written := 0; messages_read := 0; bytes_written := 0;
               bytes_read := 0; write_errors := 0; read_errors := 0;
               backpressure_events := 0 |}
  /\ crc32_table_initialized (fst (ring_buffer_create g k a)) = true.
Proof.
  intros Hk Hcreate.
  pose proof (create_capacity g k a rb Hcreate) as Hcap.
  destruct (create_descriptor g k a rb Hcreate) as [how Hrb].
  assert (Hk' : 0 <= (if k =? 0 then RING_BUFFER_DEFAULT_SIZE else k) <= 2 ^ 63).
  { destruct (k =? 0); [unfold RING_BUFFER_DEFAULT_SIZE; lia | exact Hk]. }
  destruct (next_power_of_2_is_pow2 _ Hk') as [e [He Hp]]. rewrite <- Hcap in Hp.
  assert (Hn : 0 < 2 ^ e < 2 ^ 64).
  { split; [apply Z.pow_pos_nonneg; lia | apply Z.pow_lt_mono_r; lia]. }
  assert (Hok : arena_ok rb) by (rewrite Hrb, Hp; apply initial_descriptor_ok; exact He).
  assert (Hinit : crc32_table_initialized (fst (ring_buffer_create g k a)) = true).
  { unfold ring_buffer_create in *. destruct a; cbn [fst snd] in *; try discriminate;
      unfold init_crc32_table; destruct (crc32_table_initialized g) eqn:E;
      try exact E; reflexivity. }
  split; [exact Hok |].
  rewrite Hrb, Hp.
  repeat split; try exact Hinit.
  unfold ring_buffer_available_write. fields. cbn [Z.leb Z.compare Z.sub Z.opp Z.add].
  change (u64 0) with 0. rewrite Z.sub_0_r, (u64_small (2 ^ e)) by lia.
  apply u64_small. lia.
Qed.

(** ** What a write changes *)

Section WriteOutcome.

Lemma write_frame_stores (rb : ring_buffer_t) (data : option (list byte))
    (size now wp : Z) :
  exists b, snd (write_frame rb data size now wp) = store_buffer rb b.
Proof.
  unfold write_frame.
  destruct (write_header _ _ _ _) as [r b].
  destruct (negb (r =? 0)); [eexists; reflexivity |].
  destruct (write_data _ _ _ _ _) as [r' b']. eexists. reflexivity.
Qed.

(** The three stretches of a successful write. *)
Lemma write_success_steps (rb : ring_buffer_t) (data : option (list byte)) (size now : Z)
    (h' : option ring_buffer_t) :
  ring_buffer_write (Some rb) data size now = (RING_BUFFER_SUCCESS, h') ->
  exists d rb1 wp nwp rb2,
    data = Some d /\ size <> 0
    /\ write_reserve rb size = Reserved rb1 wp nwp
    /\ write_frame rb1 (Some d) size now wp = (true, rb2)
    /\ h' = Some (write_commit rb2 size nwp).
Proof.
  unfold ring_buffer_write. destruct data as [d |]; [| discriminate].
  destruct (Z.eqb_spec size 0); [discriminate |].
  destruct (write_reserve rb size) as [e rb1 | rb1 wp nwp] eqn:Hres.
  - intros H. injection H as -> <-. unfold write_reserve in Hres.
    repeat match type of Hres with
           | (if ?c then _ else _) = _ => destruct c
           | _ => cbv zeta in Hres
           end; discriminate.
  - destruct (write_frame rb1 (Some d) size now wp) as [[|] rb2] eqn:Hf; [| discriminate].
    intros H. injection H as <-. exists d, rb1, wp, nwp, rb2. repeat split; assumption.
Qed.

Lemma write_refused (rb rb' : ring_buffer_t) (size : Z) (e : ring_buffer_error_t) :
  write_reserve rb size = Refused e rb' ->
  (e = RING_BUFFER_ERROR_CORRUPTED /\ ring_buffer_validate (Some rb) = false
   /\ rb' = fetch_add_write_errors rb 1)
  \/ (e = RING_BUFFER_ERROR_TOO_LARGE /\ RING_BUFFER_MAX_MESSAGE_SIZE < size
      /\ rb' = fetch_add_write_errors rb 1)
  \/ (e = RING_BUFFER_ERROR_BACKPRESSURE
      /\ double_ge (ring_buffer_utilization (Some rb)) (rb_backpressure_threshold rb) = true
      /\ rb' = fetch_add_backpressure_events (store_backpressure rb true) 1)
  \/ (e = RING_BUFFER_ERROR_FULL
      /\ ring_buffer_available_write (Some rb) < total_message_size size
      /\ rb' = fetch_add_write_errors (store_backpressure rb false) 1).
Proof.
  unfold write_reserve.
  destruct (ring_buffer_validate (Some rb)); cbn [negb];
    [| intros H; injection H as <- <-; left; repeat split].
  destruct (Z.ltb_spec RING_BUFFER_MAX_MESSAGE_SIZE size);
    [intros E; injection E as <- <-; right; left; repeat split; assumption |].
  destruct (double_ge _ _);
    [intros E; injection E as <- <-; right; right; left; repeat split |].
  cbv zeta.
  change (ring_buffer_available_write (Some (store_backpressure rb false)))
    with (ring_buffer_available_write (Some rb)).
  destruct (Z.ltb_spec (ring_buffer_available_write (Some rb)) (total_message_size size));
    [| discriminate].
  intros E. injection E as <- <-. right; right; right. repeat split. assumption.
Qed.

End WriteOutcome.

(** X5. A refused write changes no data: when [ring_buffer_write] returns
    anything but [Success], the arena bytes, the three positions,
    [messages_written] and [bytes_written] are as before. [InvalidParam]
    (null data or size 0) leaves the whole descriptor as it was; [Corrupted]
    and [TooLarge] count one write error; [Backpressure] sets the flag and
    counts one backpressure event; [Full] clears the flag and counts one write
    error. *)
Theorem write_failure_atomic (rb : ring_buffer_t) (data : option (list byte))
    (size now : Z) (e : ring_buffer_error_t) (h' : option ring_buffer_t) :
  descriptor_in_range rb -> is_size_t size ->
  ring_buffer_write (Some rb) data size now = (e, h') ->
  e <> RING_BUFFER_SUCCESS ->
  exists rb',
    h' = Some rb'
    /\ rb_buffer rb' = rb_buffer rb
    /\ rb_write_pos rb' = rb_write_pos rb
    /\ rb_read_pos rb' = rb_read_pos rb
    /\ rb_commit_pos rb' = rb_commit_pos rb
    /\ rb_messages_written rb' = rb_messages_written rb
    /\ rb_bytes_written rb' = rb_bytes_written rb
    /\ ((e = RING_BUFFER_ERROR_INVALID_PARAM /\ (data = None \/ size = 0) /\ rb' = rb)
        \/ (e = RING_BUFFER_ERROR_CORRUPTED /\ rb' = fetch_add_write_errors rb 1)
        \/ (e = RING_BUFFER_ERROR_TOO_LARGE /\ rb' = fetch_add_write_errors rb 1)
        \/ (e = RING_BUFFER_ERROR_BACKPRESSURE
            /\ rb' = fetch_add_backpressure_events (store_backpressure rb true) 1)
        \/ (e = RING_BUFFER_ERROR_FULL
            /\ rb' = fetch_add_write_errors (store_backpressure rb false) 1)).
Proof.
  intros Hrange Hsize Hw Hne. unfold ring_buffer_write in Hw.
  destruct data as [d |];
    [| injection Hw as <- <-; exists rb; repeat split; left; repeat split; now left].
  destruct (Z.eqb_spec size 0) as [Hz | Hnz];
    [injection Hw as <- <-; exists rb; repeat split; left; repeat split; now right |].
  destruct (write_reserve rb size) as [e1 rb1 | rb1 wp nwp] eqn:Hres.
  - injection Hw as <- <-. exists rb1.
    destruct (write_refused rb rb1 size e1 Hres)
      as [(-> & _ & ->) | [(-> & _ & ->) | [(-> & _ & ->) | (-> & _ & ->)]]];
      repeat split; auto 10.
  - unfold is_size_t in Hsize.
    pose proof (write_frame_ok rb rb1 d size now wp nwp Hrange ltac:(lia) Hres) as Hok.
    destruct (write_frame rb1 (Some d) size now wp) as [[|] rb2]; cbn [fst] in Hok;
      [| discriminate].
    injection Hw as <- _. contradiction.
Qed.

(** X6. What an accepted write accounts for: when [ring_buffer_write] returns
    [Success] for [size] bytes, [1 <= size <= 16 MiB]; [write_pos] has moved
    by [total_message_size size] modulo the capacity and [commit_pos] equals
    it; [read_pos] is unchanged; the occupancy has grown by exactly
    [total_message_size size] and stays below the capacity; the free space has
    shrunk by the same amount; [messages_written] has grown by one and
    [bytes_written] by [size] (modulo [2^64]); the backpressure flag is clear;
    the other counters are unchanged. *)
Theorem write_success_accounting (rb : ring_buffer_t) (data : option (list byte))
    (size now : Z) (h' : option ring_buffer_t) :
  descriptor_in_range rb -> is_size_t size ->
  ring_buffer_write (Some rb) data size now = (RING_BUFFER_SUCCESS, h') ->
  exists rb',
    h' = Some rb'
    /\ 1 <= size <= RING_BUFFER_MAX_MESSAGE_SIZE
    /\ rb_write_pos rb' = (rb_write_pos rb + total_message_size size) mod rb_size rb
    /\ rb_commit_pos rb' = rb_write_pos rb'
    /\ rb_read_pos rb' = rb_read_pos rb
    /\ utilization_used rb' = utilization_used rb + total_message_size size
    /\ utilization_used rb' <= rb_size rb - 1
    /\ ring_buffer_available_write (Some rb')
       = ring_buffer_available_write (Some rb) - total_message_size size
    /\ rb_messages_written rb' = u64 (rb_messages_written rb + 1)
    /\ rb_bytes_written rb' = u64 (rb_bytes_written rb + size)
    /\ rb_backpressure rb' = false
    /\ rb_size rb' = rb_size rb
    /\ rb_messages_read rb' = rb_messages_read rb
    /\ rb_bytes_read rb' = rb_bytes_read rb
    /\ rb_write_errors rb' = rb_write_errors rb
    /\ rb_read_errors rb' = rb_read_errors rb
    /\ rb_backpressure_events rb' = rb_backpressure_events rb.
Proof.
  intros Hrange Hsize Hw. unfold is_size_t in Hsize.
  destruct (write_success_steps rb data size now h' Hw)
    as (d & rb1 & wp & nwp & rb2 & -> & Hnz & Hres & Hf & ->).
  destruct (write_reserve_reserved rb rb1 size wp nwp Hres)
    as (Hv & Hmax & _ & Hfree & -> & Hnwp & ->).
  destruct (validate_shape rb Hrange Hv) as ((e & He & Hn) & _ & Hwp & Hrp & Hcp).
  assert (Hn' : 0 < rb_size rb <= 2 ^ 63).
  { rewrite Hn. split; [apply Z.pow_pos_nonneg; lia | apply Z.pow_le_mono_r; lia]. }
  unfold RING_BUFFER_MAX_MESSAGE_SIZE in Hmax.
  pose proof (total_message_size_bounds size ltac:(lia)) as Hms.
  unfold sizeof_arrow_ipc_header_t in Hms.
  set (ms := total_message_size size) in *.
  pose proof (available_write_used rb ltac:(lia) Hwp Hrp) as Hav.
  pose proof (utilization_used_mod rb ltac:(lia) Hwp Hrp) as Hused.
  pose proof (Z.mod_pos_bound (rb_write_pos rb - rb_read_pos rb) (rb_size rb) ltac:(lia)).
  assert (Hnwp' : nwp = (rb_write_pos rb + ms) mod rb_size rb).
  { rewrite Hnwp, Hn, land_pow2_mask by lia. rewrite u64_small by lia. reflexivity. }
  pose proof (Z.mod_pos_bound (rb_write_pos rb + ms) (rb_size rb) ltac:(lia)) as Hnb.
  destruct (write_frame_stores (store_write_pos (store_backpressure rb false) nwp)
              (Some d) size now (rb_write_pos rb)) as [b Hb].
  rewrite Hf in Hb. cbn [snd] in Hb. subst rb2.
  eexists. split; [reflexivity |].
  assert (Hused' : utilization_used
                     (write_commit (store_buffer (store_write_pos
                        (store_backpressure rb false) nwp) b) size nwp)
                   = utilization_used rb + ms).
  { rewrite utilization_used_mod by (fields; lia). fields.
    rewrite Hnwp', Zminus_mod_idemp_l.
    replace (rb_write_pos rb + ms - rb_read_pos rb)
      with (rb_write_pos rb - rb_read_pos rb + ms) by lia.
    rewrite <- Zplus_mod_idemp_l, <- Hused. apply Z.mod_small. lia. }
  split; [unfold RING_BUFFER_MAX_MESSAGE_SIZE; lia |].
  split; [fields; exact Hnwp' |].
  split; [reflexivity |]. split; [reflexivity |].
  split; [exact Hused' |].
  split; [rewrite Hused'; lia |].
  split; [rewrite available_write_used by (fields; lia); rewrite Hused'; fields; lia |].
  repeat split.
Qed.

(** X7. When a write is accepted: on a descriptor with fields in range, a
    call of [ring_buffer_write] with non-null data returns [Success] exactly
    when the size is not 0, the arena passes [ring_buffer_validate], the size
    is at most 16 MiB, the utilization is below the threshold, and
    [total_message_size size] is at most [ring_buffer_available_write]. *)
Theorem write_succeeds_iff (rb : ring_buffer_t) (d : list byte) (size now : Z) :
  descriptor_in_range rb -> is_size_t size ->
  fst (ring_buffer_write (Some rb) (Some d) size now) = RING_BUFFER_SUCCESS
  <-> (size <> 0
       /\ ring_buffer_validate (Some rb) = true
       /\ size <= RING_BUFFER_MAX_MESSAGE_SIZE
       /\ double_ge (ring_buffer_utilization (Some rb)) (rb_backpressure_threshold rb) = false
       /\ total_message_size size <= ring_buffer_available_write (Some rb)).
Proof.
  intros Hrange Hsize. unfold is_size_t in Hsize. split.
  - intros H.
    destruct (ring_buffer_write (Some rb) (Some d) size now) as [e h'] eqn:Hw.
    cbn [fst] in H. subst e.
    destruct (write_success_steps rb (Some d) size now h' Hw)
      as (d' & rb1 & wp & nwp & rb2 & _ & Hnz & Hres & _ & _).
    destruct (write_reserve_reserved rb rb1 size wp nwp Hres)
      as (Hv & Hmax & Hbp & Hfree & _).
    repeat split; assumption.
  - intros (Hnz & Hv & Hmax & Hbp & Hfree).
    unfold ring_buffer_write.
    destruct (Z.eqb_spec size 0); [contradiction |].
    assert (Hres : exists rb1 wp nwp, write_reserve rb size = Reserved rb1 wp nwp).
    { unfold write_reserve. rewrite Hv. cbn [negb].
      destruct (Z.ltb_spec RING_BUFFER_MAX_MESSAGE_SIZE size); [lia |].
      rewrite Hbp. cbv zeta.
      change (ring_buffer_available_write (Some (store_backpressure rb false)))
        with (ring_buffer_available_write (Some rb)).
      destruct (Z.ltb_spec (ring_buffer_available_write (Some rb))
                           (total_message_size size)); [lia |].
      eauto. }
    destruct Hres as (rb1 & wp & nwp & Hres). rewrite Hres.
    pose proof (write_frame_ok rb rb1 d size now wp nwp Hrange ltac:(lia) Hres) as Hok.
    destruct (write_frame rb1 (Some d) size now wp) as [[|] rb2]; cbn [fst] in Hok;
      [reflexivity | discriminate].
Qed.

(** ** Backpressure lasts until a read *)

(** X8. Backpressure lasts until something is read: after a write returned
    [Backpressure], [ring_buffer_is_backpressure] is true, and the next write
    of any non-zero size up to 16 MiB returns [Backpressure] again and counts
    a second event. *)
Theorem backpressure_persists (rb : ring_buffer_t) (d d' : list byte)
    (size now size' now' : Z) (h' : option ring_buffer_t) :
  ring_buffer_write (Some rb) (Some d) size now = (RING_BUFFER_ERROR_BACKPRESSURE, h') ->
  size' <> 0 -> size' <= RING_BUFFER_MAX_MESSAGE_SIZE ->
  exists rb' rb'',
    h' = Some rb'
    /\ ring_buffer_is_backpressure h' = true
    /\ ring_buffer_write h' (Some d') size' now'
       = (RING_BUFFER_ERROR_BACKPRESSURE, Some rb'')
    /\ rb_backpressure_events rb'' = u64 (u64 (rb_backpressure_events rb + 1) + 1).
Proof.
  intros Hw Hnz Hmax. unfold ring_buffer_write in Hw.
  destruct (Z.eqb_spec size 0); [discriminate |].
  destruct (write_reserve rb size) as [e1 rb1 | rb1 wp nwp] eqn:Hres.
  - injection Hw as -> <-.
    destruct (write_refused rb rb1 size _ Hres)
      as [(E & _) | [(E & _) | [(_ & Hbp & ->) | (E & _)]]]; try discriminate.
    assert (Hv : ring_buffer_validate (Some rb) = true).
    { unfold write_reserve in Hres.
      destruct (ring_buffer_validate (Some rb)); [reflexivity | discriminate]. }
    eexists. eexists. split; [reflexivity |]. split; [reflexivity |].
    assert (Hw' : ring_buffer_write
                    (Some (fetch_add_backpressure_events (store_backpressure rb true) 1))
                    (Some d') size' now'
                  = (RING_BUFFER_ERROR_BACKPRESSURE,
                     Some (fetch_add_backpressure_events
                             (store_backpressure
                                (fetch_add_backpressure_events (store_backpressure rb true) 1)
                                true) 1)));
      [| split; [exact Hw' | reflexivity]].
    unfold ring_buffer_write, write_reserve.
    destruct (Z.eqb_spec size' 0); [contradiction |].
    change (ring_buffer_validate
              (Some (fetch_add_backpressure_events (store_backpressure rb true) 1)))
      with (ring_buffer_validate (Some rb)).
    rewrite Hv. cbn [negb].
    destruct (Z.ltb_spec RING_BUFFER_MAX_MESSAGE_SIZE size'); [lia |].
    change (ring_buffer_utilization
              (Some (fetch_add_backpressure_events (store_backpressure rb true) 1)))
      with (ring_buffer_utilization (Some rb)).
    change (rb_backpressure_threshold
              (fetch_add_backpressure_events (store_backpressure rb true) 1))
      with (rb_backpressure_threshold rb).
    rewrite Hbp. reflexivity.
  - destruct (write_frame rb1 (Some d) size now wp) as [[|] rb2]; discriminate.
Qed.

(** ** What a read changes *)

(** X9. A refused read consumes nothing: when [ring_buffer_read] returns
    anything but [Success], the three positions, the arena bytes,
    [messages_read] and [bytes_read] are as before; unless the code is
    [Corrupted], the descriptor and the message object are untouched;
    [InvalidParam] is returned exactly for a null arena or a null message; and
    [Empty] is only returned by an arena that passes validation. *)
Theorem read_failure_consumes_nothing
    (h h' : option ring_buffer_t) (out out' : option ring_buffer_message_t)
    (e : ring_buffer_error_t) :
  ring_buffer_read h out = (e, h', out') ->
  e <> RING_BUFFER_SUCCESS ->
  option_map rb_read_pos h' = option_map rb_read_pos h
  /\ option_map rb_write_pos h' = option_map rb_write_pos h
  /\ option_map rb_commit_pos h' = option_map rb_commit_pos h
  /\ option_map rb_buffer h' = option_map rb_buffer h
  /\ option_map rb_messages_read h' = option_map rb_messages_read h
  /\ option_map rb_bytes_read h' = option_map rb_bytes_read h
  /\ (e <> RING_BUFFER_ERROR_CORRUPTED -> h' = h /\ out' = out)
  /\ (e = RING_BUFFER_ERROR_INVALID_PARAM <-> h = None \/ out = None)
  /\ (e = RING_BUFFER_ERROR_EMPTY -> ring_buffer_validate h = true).
Proof.
  intros Hr Hne. unfold ring_buffer_read in Hr.
  destruct h as [rb |];
    [| injection Hr as <- <- <-; repeat split; auto; try discriminate].
  destruct out as [msg |];
    [| injection Hr as <- <- <-; repeat split; auto; try discriminate].
  destruct (ring_buffer_validate (Some rb)) eqn:Hv; cbn [negb] in Hr.
  - destruct (read_header _ _ _) as [r header_bytes].
    repeat match type of Hr with
           | (if ?c then _ else _) = _ => destruct c
           end;
      injection Hr as <- <- <-; try contradiction;
      (repeat split; auto; try discriminate; try contradiction;
       try (intros [E | E]; discriminate)).
  - injection Hr as <- <- <-.
    repeat split; auto; try discriminate; try contradiction;
      try (intros [E | E]; discriminate).
Qed.

Section ReadOutcome.

Lemma header_length_range (bs : list byte) : 0 <= h_length (header_of_bytes bs) < 2 ^ 32.
Proof.
  unfold header_of_bytes. cbn [h_length].
  pose proof (le_combine_bound (firstn 4 (skipn 4 bs))) as Hb.
  pose proof (firstn_le_length 4 (skipn 4 bs)) as Hl.
  assert (2 ^ (8 * Z.of_nat (length (firstn 4 (skipn 4 bs)))) <= 2 ^ 32)
    by (apply Z.pow_le_mono_r; lia).
  lia.
Qed.

Lemma read_header_some (buffer : option (list byte)) (n rp r : Z)
    (hbo : option (list byte)) :
  read_header buffer n rp = (r, hbo) -> exists hb, hbo = Some hb.
Proof.
  unfold read_header, safe_memcpy.
  destruct buffer as [b |];
    repeat match goal with
           | |- context [if ?c then _ else _] => destruct c
           end;
    cbn [Z.eqb negb]; intros H; inversion H; eauto.
Qed.

(** The steps of a successful read. *)
Lemma read_success_steps (rb : ring_buffer_t) (msg : ring_buffer_message_t)
    (h' : option ring_buffer_t) (out' : option ring_buffer_message_t) :
  ring_buffer_read (Some rb) (Some msg) = (RING_BUFFER_SUCCESS, h', out') ->
  exists hb,
    let header := header_of_bytes hb in
    let ms := total_message_size (h_length header) in
    let ds := Z.land (u64 (rb_read_pos rb + sizeof_arrow_ipc_header_t)) (u64 (rb_size rb - 1)) in
    ring_buffer_validate (Some rb) = true
    /\ sizeof_arrow_ipc_header_t <= ring_buffer_available_read (Some rb)
    /\ read_header (buffer_bytes (rb_buffer rb)) (rb_size rb) (rb_read_pos rb)
       = (0, Some hb)
    /\ h_magic header = ARROW_IPC_MAGIC
    /\ h_length header <= RING_BUFFER_MAX_MESSAGE_SIZE
    /\ ms <= ring_buffer_available_read (Some rb)
    /\ u64 (ds + h_length header) <= rb_size rb
    /\ crc32_of (skipn (Z.to_nat ds) (arena_bytes rb)) (h_length header) = h_checksum header
    /\ h' = Some (fetch_add_bytes_read
                    (fetch_add_messages_read
                       (store_read_pos rb
                          (Z.land (u64 (rb_read_pos rb + ms)) (u64 (rb_size rb - 1)))) 1)
                    (h_length header))
    /\ out' = Some {| msg_header := header; msg_data := Some ds;
                      msg_data_size := h_length header |}.
Proof.
  unfold ring_buffer_read, arena_bytes.
  destruct (ring_buffer_validate (Some rb)) eqn:Hv; cbn [negb]; [| discriminate].
  destruct (Z.ltb_spec (ring_buffer_available_read (Some rb)) sizeof_arrow_ipc_header_t);
    [discriminate |].
  destruct (validate_true rb Hv) as (_ & (how & bytes & Hb) & _).
  rewrite Hb. cbn [buffer_bytes].
  destruct (read_header (Some bytes) (rb_size rb) (rb_read_pos rb)) as [r hbo] eqn:Hh.
  destruct (Z.eqb_spec r 0) as [-> | ]; cbn [negb]; [| discriminate].
  assert (exists hb, hbo = Some hb) as [hb ->].
  { eapply read_header_some. exact Hh. }
  destruct (Z.eqb_spec (h_magic (header_of_bytes hb)) ARROW_IPC_MAGIC) as [Hm |];
    cbn [negb]; [| discriminate].
  destruct (Z.ltb_spec RING_BUFFER_MAX_MESSAGE_SIZE (h_length (header_of_bytes hb)));
    [discriminate |].
  destruct (Z.ltb_spec (ring_buffer_available_read (Some rb))
                       (total_message_size (h_length (header_of_bytes hb))));
    [discriminate |].
  destruct (Z.leb_spec (u64 (Z.land (u64 (rb_read_pos rb + sizeof_arrow_ipc_header_t))
                                    (u64 (rb_size rb - 1))
                             + h_length (header_of_bytes hb))) (rb_size rb));
    [| discriminate].
  destruct (Z.eqb_spec (crc32_of (skipn (Z.to_nat (Z.land (u64 (rb_read_pos rb
                                     + sizeof_arrow_ipc_header_t)) (u64 (rb_size rb - 1))))
                                   bytes) (h_length (header_of_bytes hb)))
                       (h_checksum (header_of_bytes hb))) as [Hc |];
    cbn [negb]; [| discriminate].
  intros E. injection E as <- <-. exists hb. cbv zeta.
  repeat split; try assumption; try lia.
Qed.

End ReadOutcome.

(** X10. What a successful read hands out: when [ring_buffer_read] returns
    [Success] on a descriptor with fields in range, the header it stores has
    the frame magic and a length of at most 16 MiB; the message points at
    [length] bytes lying inside the arena in one piece; the header's checksum
    is the CRC-32 of exactly those bytes; [read_pos] has moved by
    [total_message_size length] modulo the capacity and the readable bytes
    have shrunk by as much; [messages_read] has grown by one and [bytes_read]
    by [length]; the arena bytes, [write_pos], [commit_pos] and [read_errors]
    are unchanged. *)
Theorem read_success_integrity (rb : ring_buffer_t) (msg : ring_buffer_message_t)
    (h' : option ring_buffer_t) (out' : option ring_buffer_message_t) :
  descriptor_in_range rb ->
  ring_buffer_read (Some rb) (Some msg) = (RING_BUFFER_SUCCESS, h', out') ->
  exists rb' msg' ds,
    h' = Some rb' /\ out' = Some msg'
    /\ h_magic (msg_header msg') = 0x41524157
    /\ 0 <= h_length (msg_header msg') <= RING_BUFFER_MAX_MESSAGE_SIZE
    /\ msg_data_size msg' = h_length (msg_header msg')
    /\ msg_data msg' = Some ds
    /\ 0 <= ds /\ ds + h_length (msg_header msg') <= rb_size rb
    /\ h_checksum (msg_header msg') = crc32_reference (message_payload rb' msg')
    /\ total_message_size (h_length (msg_header msg')) <= ring_buffer_available_read (Some rb)
    /\ rb_read_pos rb'
       = (rb_read_pos rb + total_message_size (h_length (msg_header msg'))) mod rb_size rb
    /\ ring_buffer_available_read (Some rb')
       = ring_buffer_available_read (Some rb)
         - total_message_size (h_length (msg_header msg'))
    /\ rb_messages_read rb' = u64 (rb_messages_read rb + 1)
    /\ rb_bytes_read rb' = u64 (rb_bytes_read rb + h_length (msg_header msg'))
    /\ rb_buffer rb' = rb_buffer rb
    /\ rb_write_pos rb' = rb_write_pos rb
    /\ rb_commit_pos rb' = rb_commit_pos rb
    /\ rb_read_errors rb' = rb_read_errors rb.
Proof.
  intros Hrange Hr.
  destruct (read_success_steps rb msg h' out' Hr) as [hb H]. cbv zeta in H.
  destruct H as (Hv & Hav & _ & Hmagic & Hmax & Hms & Hfit & Hcrc & -> & ->).
  destruct (validate_shape rb Hrange Hv) as ((e & He & Hn) & _ & Hwp & Hrp & Hcp).
  assert (Hn' : 0 < rb_size rb <= 2 ^ 63).
  { rewrite Hn. split; [apply Z.pow_pos_nonneg; lia | apply Z.pow_le_mono_r; lia]. }
  pose proof (header_length_range hb) as Hlen.
  set (header := header_of_bytes hb) in *.
  pose proof (total_message_size_bounds (h_length header) ltac:(lia)) as Hb.
  unfold sizeof_arrow_ipc_header_t in *.
  set (ms := total_message_size (h_length header)) in *.
  assert (Hds : Z.land (u64 (rb_read_pos rb + 24)) (u64 (rb_size rb - 1))
                = (rb_read_pos rb + 24) mod rb_size rb).
  { rewrite Hn, land_pow2_mask by lia. rewrite u64_small by lia. reflexivity. }
  assert (Hnrp : Z.land (u64 (rb_read_pos rb + ms)) (u64 (rb_size rb - 1))
                 = (rb_read_pos rb + ms) mod rb_size rb).
  { rewrite Hn, land_pow2_mask by lia. rewrite u64_small by lia. reflexivity. }
  rewrite Hds in *. rewrite Hnrp.
  pose proof (Z.mod_pos_bound (rb_read_pos rb + 24) (rb_size rb) ltac:(lia)) as Hdsb.
  pose proof (Z.mod_pos_bound (rb_read_pos rb + ms) (rb_size rb) ltac:(lia)) as Hnb.
  unfold RING_BUFFER_MAX_MESSAGE_SIZE in Hmax.
  rewrite u64_small in Hfit by lia.
  pose proof (available_read_mod rb ltac:(lia) Hcp Hrp) as Har.
  pose proof (Z.mod_pos_bound (rb_commit_pos rb - rb_read_pos rb) (rb_size rb) ltac:(lia)).
  eexists. eexists. exists ((rb_read_pos rb + 24) mod rb_size rb).
  split; [reflexivity |]. split; [reflexivity |].
  cbn [msg_header msg_data msg_data_size]. fields.
  split; [exact Hmagic |].
  split; [unfold RING_BUFFER_MAX_MESSAGE_SIZE; lia |].
  split; [reflexivity |]. split; [reflexivity |].
  split; [lia |]. split; [lia |].
  split.
  { rewrite <- Hcrc, crc32_of_reference. unfold message_payload, arena_bytes. fields.
    cbn [msg_data msg_data_size].
    destruct (buffer_bytes (rb_buffer rb)); [reflexivity |].
    now rewrite skipn_nil, firstn_nil. }
  split; [exact Hms |]. split; [reflexivity |].
  split.
  { rewrite available_read_mod by (fields; lia). fields.
    rewrite Zminus_mod_idemp_r.
    replace (rb_commit_pos rb - (rb_read_pos rb + ms))
      with (rb_commit_pos rb - rb_read_pos rb + - ms) by lia.
    rewrite <- Zplus_mod_idemp_l, <- Har. rewrite Z.mod_small by lia. lia. }
  repeat split.
Qed.

(** ** A refused frame blocks the queue *)

Lemma read_ignores_errors_and_message (rb : ring_buffer_t) (v : Z)
    (m m' : ring_buffer_message_t) :
  fst (fst (ring_buffer_read (Some (store_read_errors rb v)) (Some m')))
  = fst (fst (ring_buffer_read (Some rb) (Some m))).
Proof.
  unfold ring_buffer_read.
  change (ring_buffer_validate (Some (store_read_errors rb v)))
    with (ring_buffer_validate (Some rb)).
  change (ring_buffer_available_read (Some (store_read_errors rb v)))
    with (ring_buffer_available_read (Some rb)).
  fields.
  destruct (ring_buffer_validate (Some rb)); cbn [negb]; [| reflexivity].
  destruct (_ <? _); [reflexivity |].
  destruct (read_header _ _ _) as [r hb].
  repeat match goal with
         | |- context [if ?c then _ else _] => destruct c
         end; reflexivity.
Qed.

(** X11. A refused frame blocks the queue: once [ring_buffer_read] has
    returned [Corrupted], every one of the next [n] reads returns [Corrupted]
    too; [read_pos] never moves and [read_errors] has grown by one per call. *)
Theorem corrupted_frame_blocks (h h' : option ring_buffer_t)
    (out out' : option ring_buffer_message_t) (n : nat) :
  ring_buffer_read h out = (RING_BUFFER_ERROR_CORRUPTED, h', out') ->
  let '(results, h'', _) := run_ops h' out' (repeat Op_read n) in
  results = repeat (RING_BUFFER_ERROR_CORRUPTED, []) n
  /\ option_map rb_read_pos h'' = option_map rb_read_pos h
  /\ option_map rb_read_errors h''
     = option_map (fun rb => Nat.iter (S n) (fun c => u64 (c + 1)) (rb_read_errors rb)) h.
Proof.
  revert h h' out out'. induction n as [| n IH]; intros h h' out out' Hr.
  - cbn [repeat run_ops].
    unfold ring_buffer_read in Hr.
    destruct h as [rb |]; [| discriminate]. destruct out as [m |]; [| discriminate].
    assert (E : h' = Some (fetch_add_read_errors rb 1)).
    { destruct (read_header _ _ _) as [r hb].
      repeat match type of Hr with
             | (if ?c then _ else _) = _ => destruct c
             end; try discriminate; now injection Hr as <- _. }
    subst h'. repeat split.
  - assert (Hshape : exists rb m m', h = Some rb /\ out = Some m
                       /\ h' = Some (fetch_add_read_errors rb 1) /\ out' = Some m').
    { unfold ring_buffer_read in Hr.
      destruct h as [rb |]; [| discriminate]. destruct out as [m |]; [| discriminate].
      destruct (read_header _ _ _) as [r hb].
      repeat match type of Hr with
             | (if ?c then _ else _) = _ => destruct c
             end; try discriminate; injection Hr as <- <-; eauto 10. }
    destruct Hshape as (rb & m & m' & -> & -> & -> & ->).
    cbn [repeat run_ops].
    destruct (ring_buffer_read (Some (fetch_add_read_errors rb 1)) (Some m'))
      as [[e1 h1] out1] eqn:Hr1.
    assert (He1 : e1 = RING_BUFFER_ERROR_CORRUPTED).
    { pose proof (read_ignores_errors_and_message rb (u64 (rb_read_errors rb + 1)) m m') as E.
      unfold fetch_add_read_errors in Hr1. rewrite Hr1, Hr in E. exact E. }
    subst e1. cbn [fst snd].
    specialize (IH _ _ _ _ Hr1).
    destruct (run_ops h1 out1 (repeat Op_read n)) as [[results h2] out2].
    destruct IH as (-> & Hpos & Herr).
    split; [reflexivity |]. split; [exact Hpos |].
    rewrite Herr. cbn [option_map]. f_equal.
    rewrite !Nat.iter_succ_r. reflexivity.
Qed.

(** ** Bytes moved by the copies *)

Section Copies.

Lemma memcpy_length (d s : list byte) (doff soff n : Z) :
  0 <= doff -> 0 <= n -> 0 <= soff ->
  doff + n <= Z.of_nat (length d) -> soff + n <= Z.of_nat (length s) ->
  length (memcpy d doff s soff n) = length d.
Proof.
  intros Hd Hn Hs Hdl Hsl. unfold memcpy.
  rewrite !length_app, !length_firstn, !length_skipn. lia.
Qed.

Lemma memcpy_nth (d s : list byte) (doff soff n : Z) (i : nat) (x : byte) :
  0 <= doff -> 0 <= n -> 0 <= soff ->
  doff + n <= Z.of_nat (length d) -> soff + n <= Z.of_nat (length s) ->
  nth i (memcpy d doff s soff n) x
  = if (doff <=? Z.of_nat i) && (Z.of_nat i <? doff + n)
    then nth (Z.to_nat (soff + (Z.of_nat i - doff))) s x
    else nth i d x.
Proof.
  intros Hd Hn Hs Hdl Hsl. unfold memcpy.
  assert (La : length (firstn (Z.to_nat doff) d) = Z.to_nat doff)
    by (rewrite length_firstn; lia).
  assert (Lb : length (firstn (Z.to_nat n) (skipn (Z.to_nat soff) s)) = Z.to_nat n)
    by (rewrite length_firstn, length_skipn; lia).
  destruct (Z.leb_spec doff (Z.of_nat i)) as [Hlo | Hlo]; cbn [andb].
  - rewrite app_nth2 by lia. rewrite La.
    destruct (Z.ltb_spec (Z.of_nat i) (doff + n)) as [Hhi | Hhi].
    + rewrite app_nth1 by lia.
      rewrite nth_firstn. destruct (Nat.ltb_spec (i - Z.to_nat doff) (Z.to_nat n)); [| lia].
      rewrite nth_skipn. f_equal. lia.
    + rewrite app_nth2 by lia. rewrite Lb, nth_skipn. f_equal. lia.
  - rewrite app_nth1 by lia. rewrite nth_firstn.
    destruct (Nat.ltb_spec i (Z.to_nat doff)); [reflexivity | lia].
Qed.

End Copies.

Section CircularStore.

Variables (b src : list byte) (n off len : Z).
Hypothesis Hb : Z.of_nat (length b) = n.
Hypothesis Hoff : 0 <= off < n.
Hypothesis Hlen : 0 <= len <= n.
Hypothesis Hsrc : Z.of_nat (length src) = len.

Lemma mod_shift (i : Z) :
  0 <= i < n -> (i - off) mod n = if off <=? i then i - off else i - off + n.
Proof.
  intros Hi. destruct (Z.leb_spec off i).
  - apply Z.mod_small. lia.
  - symmetry. apply (Z.mod_unique _ _ (-1)); lia.
Qed.

(** The copy in one piece. *)
Lemma store_linear (s : list byte) :
  off + len <= n -> firstn (Z.to_nat len) s = src ->
  len <= Z.of_nat (length s) ->
  length (memcpy b off s 0 len) = length b
  /\ forall i, (i < length b)%nat ->
       nth i (memcpy b off s 0 len) Byte.x00 = stored_at b n off src i.
Proof.
  intros Hfit Hs Hsl.
  split; [apply memcpy_length; lia |].
  intros i Hi. rewrite memcpy_nth by lia. unfold stored_at. cbv zeta.
  rewrite mod_shift by lia. rewrite Hsrc.
  destruct (Z.leb_spec off (Z.of_nat i)); cbn [andb].
  - destruct (Z.ltb_spec (Z.of_nat i) (off + len));
      destruct (Z.ltb_spec (Z.of_nat i - off) len); try lia; [| reflexivity].
    rewrite <- Hs, nth_firstn.
    destruct (Nat.ltb_spec (Z.to_nat (Z.of_nat i - off)) (Z.to_nat len)); [| lia].
    reflexivity.
  - destruct (Z.ltb_spec (Z.of_nat i - off + n) len); [lia | reflexivity].
Qed.

(** The copy in two pieces, up to the end and from offset 0. *)
Lemma store_wrapped (s : list byte) :
  n < off + len -> firstn (Z.to_nat len) s = src ->
  len <= Z.of_nat (length s) ->
  let r := memcpy (memcpy b off s 0 (n - off)) 0 s (n - off) (len - (n - off)) in
  length r = length b
  /\ forall i, (i < length b)%nat -> nth i r Byte.x00 = stored_at b n off src i.
Proof.
  intros Hwrap Hs Hsl r.
  assert (L1 : length (memcpy b off s 0 (n - off)) = length b)
    by (apply memcpy_length; lia).
  split; [unfold r; rewrite memcpy_length by lia; exact L1 |].
  intros i Hi. unfold r. rewrite memcpy_nth by lia. rewrite memcpy_nth by lia.
  unfold stored_at. cbv zeta. rewrite mod_shift by lia. rewrite Hsrc.
  assert (Hnth : forall j, 0 <= j < len ->
            nth (Z.to_nat j) s Byte.x00 = nth (Z.to_nat j) src Byte.x00).
  { intros j Hj. rewrite <- Hs, nth_firstn.
    destruct (Nat.ltb_spec (Z.to_nat j) (Z.to_nat len)); [reflexivity | lia]. }
  destruct (Z.leb_spec 0 (Z.of_nat i)); [| lia]. cbn [andb].
  destruct (Z.ltb_spec (Z.of_nat i) (0 + (len - (n - off)))).
  - destruct (Z.leb_spec off (Z.of_nat i)); [lia |].
    destruct (Z.ltb_spec (Z.of_nat i - off + n) len); [| lia].
    rewrite <- Hnth by lia. f_equal. lia.
  - destruct (Z.leb_spec off (Z.of_nat i)); cbn [andb].
    + destruct (Z.ltb_spec (Z.of_nat i) (off + (n - off))); [| lia].
      destruct (Z.ltb_spec (Z.of_nat i - off) len); [| lia].
      rewrite <- Hnth by lia. f_equal.
    + destruct (Z.ltb_spec (Z.of_nat i - off + n) len); [lia | reflexivity].
Qed.

End CircularStore.

Section FrameCopies.

Lemma write_header_stored (b : list byte) (n wp : Z) (header : arrow_ipc_header_t) :
  Z.of_nat (length b) = n -> 0 <= wp < n -> sizeof_arrow_ipc_header_t <= n <= 2 ^ 63 ->
  exists b1,
    write_header (Some b) n wp header = (0, Some b1)
    /\ length b1 = length b
    /\ forall i, (i < length b)%nat ->
         nth i b1 Byte.x00 = stored_at b n wp (header_to_bytes header) i.
Proof.
  unfold sizeof_arrow_ipc_header_t. intros Hb Hwp Hn.
  pose proof (header_to_bytes_length header) as Hl.
  unfold write_header, sizeof_arrow_ipc_header_t.
  rewrite (u64_small (wp + 24)) by lia.
  rewrite (u64_small (n - wp)) by lia.
  destruct (Z.leb_spec (wp + 24) n) as [Hfit | Hwrap].
  - rewrite safe_memcpy_ok by lia. eexists. split; [reflexivity |].
    apply (store_linear b (header_to_bytes header) n wp 24); try lia.
    apply firstn_all2. lia.
  - rewrite safe_memcpy_ok by lia. cbn [Z.eqb negb].
    rewrite (u64_small (24 - (n - wp))) by lia.
    rewrite safe_memcpy_ok by lia. eexists. split; [reflexivity |].
    apply (store_wrapped b (header_to_bytes header) n wp 24); try lia.
    apply firstn_all2. lia.
Qed.

Lemma write_data_stored (b d : list byte) (e n wp size : Z) :
  Z.of_nat (length b) = n -> 0 <= e < 64 -> n = 2 ^ e -> 0 <= wp < n ->
  0 <= size -> sizeof_arrow_ipc_header_t + size < n -> size <= Z.of_nat (length d) ->
  exists b2,
    write_data (Some b) n wp (Some d) size = (0, Some b2)
    /\ length b2 = length b
    /\ forall i, (i < length b)%nat ->
         nth i b2 Byte.x00
         = stored_at b n ((wp + sizeof_arrow_ipc_header_t) mod n)
                     (firstn (Z.to_nat size) d) i.
Proof.
  unfold sizeof_arrow_ipc_header_t. intros Hb He Hn Hwp Hsize Hfit Hd.
  unfold write_data, sizeof_arrow_ipc_header_t. cbv zeta.
  assert (Hn' : 0 < n <= 2 ^ 63).
  { rewrite Hn. split; [apply Z.pow_pos_nonneg; lia | apply Z.pow_le_mono_r; lia]. }
  assert (E : Z.land (u64 (wp + 24)) (u64 (n - 1)) = (wp + 24) mod n).
  { rewrite Hn, land_pow2_mask by lia. rewrite u64_small by lia. reflexivity. }
  rewrite E.
  set (data_start := (wp + 24) mod n).
  assert (Hds : 0 <= data_start < n) by (apply Z.mod_pos_bound; lia).
  assert (Hlen : Z.of_nat (length (firstn (Z.to_nat size) d)) = size)
    by (rewrite length_firstn; lia).
  rewrite (u64_small (data_start + size)) by lia.
  rewrite (u64_small (n - data_start)) by lia.
  destruct (Z.leb_spec (data_start + size) n) as [Hin | Hout].
  - rewrite safe_memcpy_ok by lia. eexists. split; [reflexivity |].
    apply (store_linear b (firstn (Z.to_nat size) d) n data_start size); try lia.
    reflexivity.
  - rewrite safe_memcpy_ok by lia. cbn [Z.eqb negb].
    rewrite (u64_small (size - (n - data_start))) by lia.
    rewrite safe_memcpy_ok by lia. eexists. split; [reflexivity |].
    apply (store_wrapped b (firstn (Z.to_nat size) d) n data_start size); try lia.
    reflexivity.
Qed.

(** A payload stored behind a header is the frame stored at the header's
    offset. *)
Lemma stored_at_frame (b b1 hdr pl : list byte) (n wp : Z) (i : nat) :
  Z.of_nat (length b) = n -> 0 <= wp < n ->
  Z.of_nat (length hdr) = sizeof_arrow_ipc_header_t ->
  sizeof_arrow_ipc_header_t + Z.of_nat (length pl) < n ->
  (i < length b)%nat ->
  nth i b1 Byte.x00 = stored_at b n wp hdr i ->
  stored_at b1 n ((wp + sizeof_arrow_ipc_header_t) mod n) pl i
  = stored_at b n wp (hdr ++ pl) i.
Proof.
  unfold sizeof_arrow_ipc_header_t. intros Hb Hwp Hh Hfit Hi H1.
  unfold stored_at. cbv zeta. rewrite H1. unfold stored_at. cbv zeta.
  rewrite length_app, Nat2Z.inj_add, Hh.
  assert (Hj : 0 <= (Z.of_nat i - wp) mod n < n) by (apply Z.mod_pos_bound; lia).
  set (j := (Z.of_nat i - wp) mod n) in *.
  assert (E : (Z.of_nat i - (wp + 24) mod n) mod n
              = if 24 <=? j then j - 24 else j - 24 + n).
  { rewrite Zminus_mod_idemp_r.
    replace (Z.of_nat i - (wp + 24)) with (Z.of_nat i - wp + - 24) by lia.
    rewrite <- Zplus_mod_idemp_l. fold j.
    destruct (Z.leb_spec 24 j).
    - apply Z.mod_small. lia.
    - symmetry. apply (Z.mod_unique _ _ (-1)); lia. }
  rewrite E.
  destruct (Z.leb_spec 24 j).
  - destruct (Z.ltb_spec (j - 24) (Z.of_nat (length pl)));
      destruct (Z.ltb_spec j (24 + Z.of_nat (length pl))); try lia.
    + rewrite app_nth2 by lia. f_equal. lia.
    + destruct (Z.ltb_spec j 24); [lia | reflexivity].
  - destruct (Z.ltb_spec (j - 24 + n) (Z.of_nat (length pl))); [lia |].
    destruct (Z.ltb_spec j 24); [| lia].
    destruct (Z.ltb_spec j (24 + Z.of_nat (length pl))); [| lia].
    rewrite app_nth1 by lia. reflexivity.
Qed.

End FrameCopies.

(** ** The bytes a write leaves in the arena *)

Section WriteBytes.

Lemma arena_ok_shape (rb : ring_buffer_t) :
  arena_ok rb ->
  exists e how,
    0 <= e < 64 /\ rb_size rb = 2 ^ e /\ 0 < rb_size rb <= 2 ^ 63
    /\ rb_buffer rb = Buf_region how (arena_bytes rb)
    /\ Z.of_nat (length (arena_bytes rb)) = rb_size rb
    /\ 0 <= rb_write_pos rb < rb_size rb
    /\ 0 <= rb_read_pos rb < rb_size rb
    /\ 0 <= rb_commit_pos rb < rb_size rb.
Proof.
  intros (Hrange & Hv & Hlen).
  destruct (validate_shape rb Hrange Hv) as ((e & He & Hn) & (how & bytes & Hb) & Hw & Hr & Hc).
  assert (Hn' : 0 < rb_size rb <= 2 ^ 63).
  { rewrite Hn. split; [apply Z.pow_pos_nonneg; lia | apply Z.pow_le_mono_r; lia]. }
  exists e, how. repeat split; try lia; try assumption.
  unfold arena_bytes. rewrite Hb. reflexivity.
Qed.

(** The descriptor a successful write leaves, field by field, and the bytes
    of its arena. *)
Lemma write_success_state (rb : ring_buffer_t) (d : list byte) (size now : Z)
    (h' : option ring_buffer_t) :
  arena_ok rb -> 0 <= size <= Z.of_nat (length d) ->
  ring_buffer_write (Some rb) (Some d) size now = (RING_BUFFER_SUCCESS, h') ->
  exists how b',
    let ms := total_message_size size in
    let nwp := (rb_write_pos rb + ms) mod rb_size rb in
    h' = Some (write_commit
                 (store_buffer (store_write_pos (store_backpressure rb false) nwp)
                               (Buf_region how b')) size nwp)
    /\ rb_buffer rb = Buf_region how (arena_bytes rb)
    /\ 1 <= size <= RING_BUFFER_MAX_MESSAGE_SIZE
    /\ sizeof_arrow_ipc_header_t + size <= ms < sizeof_arrow_ipc_header_t + size + 8
    /\ ms <= ring_buffer_available_write (Some rb)
    /\ ring_buffer_available_write (Some rb) = rb_size rb - 1 - utilization_used rb
    /\ utilization_used rb = (rb_write_pos rb - rb_read_pos rb) mod rb_size rb
    /\ length b' = length (arena_bytes rb)
    /\ forall i, (i < length (arena_bytes rb))%nat ->
         nth i b' Byte.x00
         = stored_at (arena_bytes rb) (rb_size rb) (rb_write_pos rb)
                     (header_to_bytes (frame_header d size now)
                      ++ firstn (Z.to_nat size) d) i.
Proof.
  intros Hok Hsize Hw.
  destruct (arena_ok_shape rb Hok) as (e & how & He & Hn & Hn' & Hb & Hlen & Hwp & Hrp & Hcp).
  destruct (write_success_steps rb (Some d) size now h' Hw)
    as (d0 & rb1 & wp & nwp & rb2 & Hd & Hnz & Hres & Hf & ->).
  injection Hd as <-.
  destruct (write_reserve_reserved rb rb1 size wp nwp Hres)
    as (Hv & Hmax & _ & Hfree & -> & Hnwp & ->).
  unfold RING_BUFFER_MAX_MESSAGE_SIZE in Hmax.
  pose proof (total_message_size_bounds size ltac:(lia)) as Hms.
  pose proof (available_write_used rb ltac:(lia) Hwp Hrp) as Hav.
  pose proof (utilization_used_mod rb ltac:(lia) Hwp Hrp) as Hused.
  pose proof (Z.mod_pos_bound (rb_write_pos rb - rb_read_pos rb) (rb_size rb) ltac:(lia)).
  assert (Hnwp' : nwp = (rb_write_pos rb + total_message_size size) mod rb_size rb).
  { rewrite Hnwp, Hn, land_pow2_mask by lia.
    unfold sizeof_arrow_ipc_header_t in Hms. rewrite u64_small by lia. reflexivity. }
  unfold write_frame in Hf. revert Hf. fields. rewrite Hb. fields.
  unfold sizeof_arrow_ipc_header_t in Hms.
  destruct (write_header_stored (arena_bytes rb) (rb_size rb) (rb_write_pos rb)
              (frame_header d size now))
    as (b1 & E1 & L1 & N1); [exact Hlen | lia | unfold sizeof_arrow_ipc_header_t; lia |].
  change {| h_magic := ARROW_IPC_MAGIC; h_length := u32 size; h_timestamp := u64 now;
            h_checksum := crc32_of d size; h_reserved := 0 |}
    with (frame_header d size now).
  rewrite E1. cbn [Z.eqb negb].
  destruct (write_data_stored b1 d e (rb_size rb) (rb_write_pos rb) size)
    as (b2 & E2 & L2 & N2); try lia; [unfold sizeof_arrow_ipc_header_t; lia |].
  rewrite E2. cbn [Z.eqb]. intros Hf. injection Hf as <-.
  exists how, b2. cbv zeta. rewrite <- Hnwp'.
  split; [reflexivity |]. split; [reflexivity |].
  split; [unfold RING_BUFFER_MAX_MESSAGE_SIZE; lia |].
  split; [unfold sizeof_arrow_ipc_header_t; lia |].
  split; [exact Hfree |]. split; [exact Hav |]. split; [exact Hused |].
  split; [lia |].
  intros i Hi. rewrite N2 by lia.
  apply stored_at_frame; try assumption; try lia.
  - rewrite header_to_bytes_length. reflexivity.
  - rewrite length_firstn. unfold sizeof_arrow_ipc_header_t. lia.
  - apply N1. exact Hi.
Qed.

End WriteBytes.

Section BytesFrom.

Variables (n : Z).
Hypothesis Hn : 0 < n.

Lemma bytes_from_length (b : list byte) (pos : Z) (len : nat) :
  length (bytes_from b n pos len) = len.
Proof. unfold bytes_from. rewrite length_map, length_seq. reflexivity. Qed.

Lemma bytes_from_nth (b : list byte) (pos : Z) (len k : nat) (x : byte) :
  (k < len)%nat ->
  nth k (bytes_from b n pos len) x
  = nth (Z.to_nat ((pos + Z.of_nat k) mod n)) b Byte.x00.
Proof.
  intros Hk. unfold bytes_from.
  rewrite (nth_map_seq (fun k => nth (Z.to_nat ((pos + Z.of_nat k) mod n)) b Byte.x00))
    by exact Hk.
  reflexivity.
Qed.

Lemma bytes_from_ext (b b' : list byte) (pos : Z) (len : nat) :
  (forall k, (k < len)%nat ->
     nth (Z.to_nat ((pos + Z.of_nat k) mod n)) b' Byte.x00
     = nth (Z.to_nat ((pos + Z.of_nat k) mod n)) b Byte.x00) ->
  bytes_from b' n pos len = bytes_from b n pos len.
Proof.
  intros H. unfold bytes_from. apply map_ext_in. intros k Hk.
  apply in_seq in Hk. apply H. lia.
Qed.

Lemma bytes_from_mod (b : list byte) (pos : Z) (len : nat) :
  bytes_from b n (pos mod n) len = bytes_from b n pos len.
Proof.
  unfold bytes_from. apply map_ext. intros k. now rewrite Zplus_mod_idemp_l.
Qed.

Lemma bytes_from_firstn (b : list byte) (pos : Z) (len k : nat) :
  (k <= len)%nat -> firstn k (bytes_from b n pos len) = bytes_from b n pos k.
Proof.
  intros Hk. unfold bytes_from. rewrite firstn_map. f_equal.
  replace len with (k + (len - k))%nat by lia.
  rewrite seq_app, firstn_app, length_seq, Nat.sub_diag.
  cbn [firstn]. rewrite app_nil_r. apply firstn_all2. rewrite length_seq. lia.
Qed.

(** Reading back what was stored. *)
Lemma bytes_from_stored (b b' src : list byte) (off : Z) :
  Z.of_nat (length b) = n -> 0 <= off < n -> Z.of_nat (length src) <= n ->
  (forall i, (i < length b)%nat -> nth i b' Byte.x00 = stored_at b n off src i) ->
  bytes_from b' n off (length src) = src.
Proof.
  intros Hb Hoff Hsrc Hst.
  apply (nth_ext _ _ Byte.x00 Byte.x00); [apply bytes_from_length |].
  intros k Hk. rewrite bytes_from_length in Hk. rewrite bytes_from_nth by exact Hk.
  pose proof (Z.mod_pos_bound (off + Z.of_nat k) n Hn) as Hi.
  rewrite Hst by lia. unfold stored_at. cbv zeta.
  rewrite Z2Nat.id by lia. rewrite Zminus_mod_idemp_l.
  replace (off + Z.of_nat k - off) with (Z.of_nat k) by lia.
  rewrite Z.mod_small by lia.
  destruct (Z.ltb_spec (Z.of_nat k) (Z.of_nat (length src))); [| lia].
  now rewrite Nat2Z.id.
Qed.

(** Bytes at distance [len] or more behind [off] keep their value. *)
Lemma stored_at_outside (b src : list byte) (off : Z) (i : nat) :
  Z.of_nat (length src) <= (Z.of_nat i - off) mod n ->
  stored_at b n off src i = nth i b Byte.x00.
Proof.
  intros H. unfold stored_at. cbv zeta.
  destruct (Z.ltb_spec ((Z.of_nat i - off) mod n) (Z.of_nat (length src)));
    [lia | reflexivity].
Qed.

End BytesFrom.

(** X12. A write touches its own frame only: after [ring_buffer_write]
    returned [Success] on a valid arena for [size] bytes of [d] (with [d] at
    least that long), the region has the same length; the [24 + size] bytes
    from the old [write_pos] on, around the arena end, are the header followed
    by the first [size] bytes of [d]; every byte at distance [24 + size] or
    more behind the old [write_pos] is unchanged; in particular the bytes
    between [read_pos] and the old [write_pos] are what they were. *)
Theorem write_touches_only_its_frame (rb : ring_buffer_t) (d : list byte) (size now : Z)
    (h' : option ring_buffer_t) :
  arena_ok rb -> 0 <= size <= Z.of_nat (length d) ->
  ring_buffer_write (Some rb) (Some d) size now = (RING_BUFFER_SUCCESS, h') ->
  exists rb',
    h' = Some rb'
    /\ length (arena_bytes rb') = length (arena_bytes rb)
    /\ bytes_from (arena_bytes rb') (rb_size rb) (rb_write_pos rb)
                  (Z.to_nat (sizeof_arrow_ipc_header_t + size))
       = header_to_bytes (frame_header d size now) ++ firstn (Z.to_nat size) d
    /\ (forall i, (i < length (arena_bytes rb))%nat ->
          sizeof_arrow_ipc_header_t + size <= (Z.of_nat i - rb_write_pos rb) mod rb_size rb ->
          nth i (arena_bytes rb') Byte.x00 = nth i (arena_bytes rb) Byte.x00)
    /\ bytes_from (arena_bytes rb') (rb_size rb) (rb_read_pos rb)
                  (Z.to_nat (utilization_used rb))
       = bytes_from (arena_bytes rb) (rb_size rb) (rb_read_pos rb)
                    (Z.to_nat (utilization_used rb)).
Proof.
  intros Hok Hsize Hw.
  destruct (arena_ok_shape rb Hok) as (e & how0 & He & Hn & Hn' & _ & Hlen & Hwp & Hrp & Hcp).
  destruct (write_success_state rb d size now h' Hok Hsize Hw) as (how & b' & H).
  cbv zeta in H.
  destruct H as (-> & Hb & Hsz & Hms & Hfree & Hav & Hused & Hl & Hst).
  unfold sizeof_arrow_ipc_header_t in *.
  set (frame := header_to_bytes (frame_header d size now) ++ firstn (Z.to_nat size) d) in *.
  assert (Hfl : Z.of_nat (length frame) = 24 + size).
  { unfold frame. rewrite length_app, header_to_bytes_length, length_firstn. lia. }
  pose proof (Z.mod_pos_bound (rb_write_pos rb - rb_read_pos rb) (rb_size rb) ltac:(lia)).
  eexists. split; [reflexivity |].
  unfold arena_bytes at 1 2 3 5. fields.
  fold (arena_bytes rb).
  split; [exact Hl |].
  split.
  { replace (Z.to_nat (24 + size)) with (length frame) by lia.
    apply (bytes_from_stored (rb_size rb) ltac:(lia) (arena_bytes rb)); try lia.
    exact Hst. }
  split.
  { intros i Hi Hout. rewrite Hst by exact Hi.
    apply stored_at_outside. lia. }
  apply bytes_from_ext. intros k Hk.
  pose proof (Z.mod_pos_bound (rb_read_pos rb + Z.of_nat k) (rb_size rb) ltac:(lia)) as Hi.
  rewrite Hst by lia. apply stored_at_outside.
  rewrite Z2Nat.id by lia. rewrite Zminus_mod_idemp_l.
  replace (rb_read_pos rb + Z.of_nat k - rb_write_pos rb)
    with (Z.of_nat k - (rb_write_pos rb - rb_read_pos rb)) by lia.
  rewrite <- Zminus_mod_idemp_r.
  rewrite <- (Z.mod_unique (Z.of_nat k - (rb_write_pos rb - rb_read_pos rb) mod rb_size rb)
                           (rb_size rb) (-1)
                           (Z.of_nat k - (rb_write_pos rb - rb_read_pos rb) mod rb_size rb
                            + rb_size rb)); lia.
Qed.

(** ** The bytes a read takes from the arena *)

Section ReadBytes.

(** [read_header] gathers the 24 bytes from [rp] on, around the arena end. *)
Lemma read_header_loads (b : list byte) (n rp : Z) :
  Z.of_nat (length b) = n -> 0 <= rp < n -> sizeof_arrow_ipc_header_t <= n <= 2 ^ 63 ->
  read_header (Some b) n rp
  = (0, Some (bytes_from b n rp (Z.to_nat sizeof_arrow_ipc_header_t))).
Proof.
  unfold sizeof_arrow_ipc_header_t. intros Hb Hrp Hn.
  unfold read_header, sizeof_arrow_ipc_header_t.
  rewrite (u64_small (rp + 24)) by lia.
  rewrite (u64_small (n - rp)) by lia.
  set (zeros := repeat Byte.x00 (Z.to_nat 24)).
  assert (Hz : length zeros = 24%nat) by reflexivity.
  destruct (Z.leb_spec (rp + 24) n) as [Hfit | Hwrap].
  - rewrite safe_memcpy_ok by lia. do 2 f_equal.
    apply (nth_ext _ _ Byte.x00 Byte.x00).
    + rewrite memcpy_length, bytes_from_length by lia. exact Hz.
    + intros k Hk. rewrite memcpy_length in Hk by lia.
      rewrite memcpy_nth by lia. rewrite bytes_from_nth by lia.
      destruct (Z.leb_spec 0 (Z.of_nat k)); [| lia].
      destruct (Z.ltb_spec (Z.of_nat k) (0 + 24)); [| lia]. cbn [andb].
      f_equal. rewrite Z.mod_small by lia. lia.
  - rewrite safe_memcpy_ok by lia. cbn [Z.eqb negb].
    rewrite (u64_small (24 - (n - rp))) by lia.
    rewrite safe_memcpy_ok by lia. do 2 f_equal.
    assert (L1 : length (memcpy zeros 0 b rp (n - rp)) = length zeros)
      by (apply memcpy_length; lia).
    apply (nth_ext _ _ Byte.x00 Byte.x00).
    + rewrite memcpy_length, bytes_from_length by lia. lia.
    + intros k Hk. rewrite memcpy_length in Hk by lia.
      rewrite memcpy_nth by lia. rewrite memcpy_nth by lia.
      rewrite bytes_from_nth by lia.
      destruct (Z.leb_spec (n - rp) (Z.of_nat k)); cbn [andb].
      * destruct (Z.ltb_spec (Z.of_nat k) (n - rp + (24 - (n - rp)))); [| lia].
        f_equal.
        rewrite <- (Z.mod_unique (rp + Z.of_nat k) n 1 (rp + Z.of_nat k - n)); lia.
      * destruct (Z.leb_spec 0 (Z.of_nat k)); [| lia].
        destruct (Z.ltb_spec (Z.of_nat k) (0 + (n - rp))); [| lia]. cbn [andb].
        f_equal. rewrite Z.mod_small by lia. lia.
Qed.

(** A payload in one piece, as the checksum loop and the caller see it. *)
Lemma payload_in_place (b : list byte) (n pos : Z) (hdr p : list byte) :
  Z.of_nat (length b) = n -> 0 < n -> 0 <= pos ->
  Z.of_nat (length hdr) = sizeof_arrow_ipc_header_t ->
  (pos + sizeof_arrow_ipc_header_t) mod n + Z.of_nat (length p) <= n ->
  bytes_from b n pos (Z.to_nat (sizeof_arrow_ipc_header_t + Z.of_nat (length p))) = hdr ++ p ->
  firstn (length p) (skipn (Z.to_nat ((pos + sizeof_arrow_ipc_header_t) mod n)) b) = p.
Proof.
  unfold sizeof_arrow_ipc_header_t. intros Hb Hn Hpos Hh Hfit Hfr.
  pose proof (Z.mod_pos_bound (pos + 24) n Hn) as Hds.
  set (ds := (pos + 24) mod n) in *.
  apply (nth_ext _ _ Byte.x00 Byte.x00).
  - rewrite length_firstn, length_skipn. lia.
  - intros k Hk. rewrite length_firstn, length_skipn in Hk.
    rewrite nth_firstn.
    destruct (Nat.ltb_spec k (length p)); [| lia].
    rewrite nth_skipn.
    assert (E : nth (24 + k) (hdr ++ p) Byte.x00 = nth k p Byte.x00).
    { rewrite app_nth2 by lia. f_equal. lia. }
    rewrite <- E, <- Hfr. rewrite bytes_from_nth by lia. f_equal.
    replace (pos + Z.of_nat (24 + k)) with (pos + 24 + Z.of_nat k) by lia.
    rewrite <- Zplus_mod_idemp_l. fold ds. rewrite Z.mod_small by lia. lia.
Qed.

End ReadBytes.

(** ** The arena as a queue of frames *)

Section Queue.

Lemma frames_size_nonneg (frames : list (list byte * Z)) :
  (forall p now, In (p, now) frames ->
     Z.of_nat (length p) <= RING_BUFFER_MAX_MESSAGE_SIZE) ->
  0 <= frames_size frames.
Proof.
  induction frames as [| [p now] frames IH]; intros H; cbn [frames_size]; [lia |].
  pose proof (H p now (or_introl eq_refl)) as Hp.
  unfold RING_BUFFER_MAX_MESSAGE_SIZE in Hp.
  pose proof (total_message_size_bounds (Z.of_nat (length p)) ltac:(lia)).
  unfold sizeof_arrow_ipc_header_t in *.
  assert (0 <= frames_size frames) by (apply IH; intros q t Hq; apply (H q t); now right).
  lia.
Qed.

Lemma frames_at_sizes (b : list byte) (n pos : Z) (frames : list (list byte * Z)) :
  frames_at b n pos frames ->
  forall p now, In (p, now) frames ->
    Z.of_nat (length p) <= RING_BUFFER_MAX_MESSAGE_SIZE.
Proof.
  revert pos. induction frames as [| [q t] frames IH]; intros pos H p now Hin;
    [contradiction |].
  cbn [frames_at] in H. cbv zeta in H. destruct H as (Hs & _ & _ & Hrest).
  destruct Hin as [E | Hin].
  - injection E as <- <-. lia.
  - exact (IH _ Hrest p now Hin).
Qed.

Lemma frames_at_mod (b : list byte) (n pos : Z) (frames : list (list byte * Z)) :
  0 < n -> frames_at b n (pos mod n) frames <-> frames_at b n pos frames.
Proof.
  intros Hn. destruct frames as [| [p now] frames]; [reflexivity |].
  cbn [frames_at]. cbv zeta.
  rewrite bytes_from_mod, !Zplus_mod_idemp_l. reflexivity.
Qed.

Lemma frames_at_app (b : list byte) (n pos : Z) (fr1 fr2 : list (list byte * Z)) :
  0 < n ->
  frames_at b n pos (fr1 ++ fr2)
  <-> frames_at b n pos fr1 /\ frames_at b n (pos + frames_size fr1) fr2.
Proof.
  intros Hn. revert pos. induction fr1 as [| [p now] fr1 IH]; intros pos.
  - cbn [app frames_at frames_size]. rewrite Z.add_0_r. tauto.
  - cbn [app frames_at frames_size]. cbv zeta. rewrite IH.
    set (ms := total_message_size (Z.of_nat (length p))).
    assert (E1 : frames_at b n ((pos + ms) mod n) fr1 <-> frames_at b n (pos + ms) fr1)
      by (apply frames_at_mod; exact Hn).
    assert (E2 : frames_at b n ((pos + ms) mod n + frames_size fr1) fr2
                 <-> frames_at b n (pos + (ms + frames_size fr1)) fr2).
    { rewrite <- (frames_at_mod b n ((pos + ms) mod n + frames_size fr1)) by exact Hn.
      rewrite Zplus_mod_idemp_l, <- Z.add_assoc. apply frames_at_mod. exact Hn. }
    tauto.
Qed.

(** Frames that end before the stored bytes begin stay as they are. *)
Lemma frames_at_preserved (b b' src : list byte) (n rp fs : Z)
    (frames : list (list byte * Z)) (o : Z) :
  Z.of_nat (length b) = n -> 0 < n -> 0 <= fs -> fs + Z.of_nat (length src) <= n ->
  (forall i, (i < length b)%nat ->
     nth i b' Byte.x00 = stored_at b n ((rp + fs) mod n) src i) ->
  0 <= o -> o + frames_size frames <= fs ->
  frames_at b n (rp + o) frames -> frames_at b' n (rp + o) frames.
Proof.
  intros Hb Hn Hfs Hfit Hst. revert o.
  induction frames as [| [p now] frames IH]; intros o Ho Hsz H; [exact I |].
  pose proof (frames_at_sizes _ _ _ _ H) as Hall.
  cbn [frames_at frames_size] in *. cbv zeta in *.
  destruct H as (Hs & Hp & Hfr & Hrest).
  unfold RING_BUFFER_MAX_MESSAGE_SIZE in Hs.
  pose proof (total_message_size_bounds (Z.of_nat (length p)) ltac:(lia)) as Hms.
  assert (0 <= frames_size frames).
  { apply frames_size_nonneg. intros q t Hq. apply (Hall q t). now right. }
  unfold sizeof_arrow_ipc_header_t in *.
  split; [unfold RING_BUFFER_MAX_MESSAGE_SIZE; lia |]. split; [exact Hp |].
  split.
  - rewrite <- Hfr. apply bytes_from_ext. intros k Hk.
    pose proof (Z.mod_pos_bound (rp + o + Z.of_nat k) n Hn) as Hi.
    rewrite Hst by lia. apply stored_at_outside.
    rewrite Z2Nat.id by lia. rewrite Zminus_mod_idemp_l, Zminus_mod_idemp_r.
    rewrite <- (Z.mod_unique (rp + o + Z.of_nat k - (rp + fs)) n (-1)
                             (o + Z.of_nat k - fs + n)); lia.
  - apply frames_at_mod; [exact Hn |]. rewrite <- Z.add_assoc.
    apply IH; [lia | lia |].
    rewrite Z.add_assoc. apply (proj1 (frames_at_mod b n _ frames Hn)). exact Hrest.
Qed.

Lemma queue_holds_view (rb : ring_buffer_t) (frames : list (list byte * Z)) :
  queue_holds rb frames <-> reader_view rb frames /\ rb_write_pos rb = rb_commit_pos rb.
Proof. unfold queue_holds, reader_view. tauto. Qed.

Lemma view_used (rb : ring_buffer_t) (frames : list (list byte * Z)) :
  reader_view rb frames ->
  0 <= frames_size frames
  /\ (rb_commit_pos rb - rb_read_pos rb) mod rb_size rb = frames_size frames.
Proof.
  intros (Hok & Hlt & Hpos & Hfr).
  destruct (arena_ok_shape rb Hok) as (e & how & He & Hn & Hn' & _ & Hlen & Hwp & Hrp & Hcp).
  assert (H0 : 0 <= frames_size frames)
    by (apply frames_size_nonneg; eapply frames_at_sizes; exact Hfr).
  split; [exact H0 |].
  rewrite <- Hpos, Zminus_mod_idemp_l.
  replace (rb_read_pos rb + frames_size frames - rb_read_pos rb)
    with (frames_size frames) by lia.
  apply Z.mod_small. lia.
Qed.

Lemma queue_holds_used (rb : ring_buffer_t) (frames : list (list byte * Z)) :
  queue_holds rb frames ->
  0 <= frames_size frames
  /\ (rb_commit_pos rb - rb_read_pos rb) mod rb_size rb = frames_size frames
  /\ (rb_write_pos rb - rb_read_pos rb) mod rb_size rb = frames_size frames.
Proof.
  intros Hq. apply queue_holds_view in Hq. destruct Hq as (Hv & Hwc).
  destruct (view_used rb frames Hv) as (H0 & E).
  split; [exact H0 |]. split; [exact E |]. rewrite Hwc. exact E.
Qed.

End Queue.

Section QueueSteps.

Lemma arena_ok_intro (rb rb' : ring_buffer_t) (how : alloc_method) (b' : list byte) :
  arena_ok rb ->
  rb_magic rb' = rb_magic rb -> rb_size rb' = rb_size rb ->
  rb_buffer rb' = Buf_region how b' -> length b' = length (arena_bytes rb) ->
  0 <= rb_write_pos rb' < rb_size rb -> 0 <= rb_read_pos rb' < rb_size rb ->
  0 <= rb_commit_pos rb' < rb_size rb ->
  arena_ok rb'.
Proof.
  intros Hok Hm Hs Hb Hl Hw Hr Hc.
  destruct (arena_ok_shape rb Hok) as (e & how0 & He & Hn & Hn' & _ & Hlen & _).
  destruct Hok as (_ & Hv & _). apply validate_true in Hv. destruct Hv as (Hmagic & _).
  split; [| split].
  - unfold descriptor_in_range, is_size_t. rewrite Hs. lia.
  - apply (validate_intro rb' e how b'); try lia; try assumption; congruence.
  - unfold arena_bytes at 1. rewrite Hb. cbn [buffer_bytes]. lia.
Qed.

(** A read when nothing is committed. *)
Lemma view_read_empty (rb : ring_buffer_t) (msg : ring_buffer_message_t) :
  reader_view rb [] ->
  ring_buffer_read (Some rb) (Some msg) = (RING_BUFFER_ERROR_EMPTY, Some rb, Some msg).
Proof.
  intros Hq. destruct (view_used rb [] Hq) as (_ & Hav).
  destruct Hq as (Hok & _).
  destruct (arena_ok_shape rb Hok) as (e & how & He & Hn & Hn' & _ & Hlen & Hwp & Hrp & Hcp).
  destruct Hok as (_ & Hv & _).
  unfold ring_buffer_read. rewrite Hv. cbn [negb].
  rewrite available_read_mod by lia. rewrite Hav. reflexivity.
Qed.

(** A read when the first committed frame is [(p, now)]. *)
Lemma view_read_head (rb : ring_buffer_t) (msg : ring_buffer_message_t)
    (p : list byte) (now : Z) (frames : list (list byte * Z)) :
  reader_view rb ((p, now) :: frames) ->
  let size := Z.of_nat (length p) in
  let rb' := fetch_add_bytes_read
               (fetch_add_messages_read
                  (store_read_pos rb ((rb_read_pos rb + total_message_size size)
                                      mod rb_size rb)) 1) size in
  let msg' := {| msg_header := frame_header p size now;
                 msg_data := Some ((rb_read_pos rb + sizeof_arrow_ipc_header_t)
                                   mod rb_size rb);
                 msg_data_size := size |} in
  ring_buffer_read (Some rb) (Some msg) = (RING_BUFFER_SUCCESS, Some rb', Some msg')
  /\ message_payload rb' msg' = p
  /\ reader_view rb' frames.
Proof.
  intros Hq size rb' msg'.
  destruct (view_used rb _ Hq) as (Hfs0 & Hav).
  destruct Hq as (Hok & Hlt & Hpos & Hfr).
  destruct (arena_ok_shape rb Hok) as (e & how & He & Hn & Hn' & Hb & Hlen & Hwp & Hrp & Hcp).
  pose proof (frames_at_sizes _ _ _ _ Hfr) as Hall.
  cbn [frames_at frames_size] in *. cbv zeta in Hfr. fold size in Hfr, Hav, Hlt, Hpos, Hfs0.
  destruct Hfr as (Hs & Hp & Hbytes & Hrest).
  unfold RING_BUFFER_MAX_MESSAGE_SIZE in Hs.
  pose proof (total_message_size_bounds size ltac:(lia)) as Hms.
  assert (Hfs : 0 <= frames_size frames).
  { apply frames_size_nonneg. intros q t Hq. apply (Hall q t). now right. }
  unfold sizeof_arrow_ipc_header_t in *.
  set (ms := total_message_size size) in *.
  set (hdr := header_to_bytes (frame_header p size now)) in *.
  assert (Hhl : length hdr = 24%nat) by apply header_to_bytes_length.
  assert (Hhdr : bytes_from (arena_bytes rb) (rb_size rb) (rb_read_pos rb) (Z.to_nat 24) = hdr).
  { rewrite <- (bytes_from_firstn _ _ _ (Z.to_nat (24 + size))) by lia.
    rewrite Hbytes, firstn_app, Hhl.
    replace (Z.to_nat 24 - 24)%nat with 0%nat by lia. cbn [firstn].
    rewrite app_nil_r. apply firstn_all2. lia. }
  assert (Hpl : firstn (length p)
                  (skipn (Z.to_nat ((rb_read_pos rb + 24) mod rb_size rb)) (arena_bytes rb))
                = p).
  { apply (payload_in_place _ (rb_size rb) _ hdr); try assumption; try lia;
      unfold sizeof_arrow_ipc_header_t; try lia; assumption. }
  assert (Hds : Z.land (u64 (rb_read_pos rb + 24)) (u64 (rb_size rb - 1))
                = (rb_read_pos rb + 24) mod rb_size rb).
  { rewrite Hn, land_pow2_mask by lia. rewrite u64_small by lia. reflexivity. }
  assert (Hnrp : Z.land (u64 (rb_read_pos rb + ms)) (u64 (rb_size rb - 1))
                 = (rb_read_pos rb + ms) mod rb_size rb).
  { rewrite Hn, land_pow2_mask by lia. rewrite u64_small by lia. reflexivity. }
  pose proof (Z.mod_pos_bound (rb_read_pos rb + 24) (rb_size rb) ltac:(lia)) as Hdsb.
  pose proof (Z.mod_pos_bound (rb_read_pos rb + ms) (rb_size rb) ltac:(lia)) as Hnb.
  assert (Hhead : header_of_bytes hdr = frame_header p size now)
    by (apply header_round_trip; lia).
  assert (Hcrc : crc32_of (skipn (Z.to_nat ((rb_read_pos rb + 24) mod rb_size rb))
                                 (arena_bytes rb)) size
                 = crc32_of p size).
  { rewrite !crc32_of_reference. unfold size. rewrite Nat2Z.id, Hpl.
    now rewrite firstn_all. }
  split; [| split].
  - pose proof Hok as (_ & Hv & _).
    unfold ring_buffer_read. rewrite Hv. cbn [negb].
    rewrite available_read_mod by lia. rewrite Hav.
    unfold sizeof_arrow_ipc_header_t.
    destruct (Z.ltb_spec (ms + frames_size frames) 24); [lia |].
    rewrite Hb. cbn [buffer_bytes].
    rewrite read_header_loads by (unfold sizeof_arrow_ipc_header_t; lia).
    unfold sizeof_arrow_ipc_header_t. rewrite Hhdr. cbn [Z.eqb negb].
    rewrite Hhead. cbn [h_magic h_length h_checksum frame_header].
    rewrite Z.eqb_refl. cbn [negb].
    rewrite (u32_small size) by lia.
    destruct (Z.ltb_spec RING_BUFFER_MAX_MESSAGE_SIZE size);
      [unfold RING_BUFFER_MAX_MESSAGE_SIZE in *; lia |].
    fold ms.
    destruct (Z.ltb_spec (ms + frames_size frames) ms); [lia |].
    rewrite Hds, Hnrp. rewrite (u64_small (_ + size)) by lia.
    destruct (Z.leb_spec ((rb_read_pos rb + 24) mod rb_size rb + size) (rb_size rb));
      [| lia].
    rewrite Hcrc, Z.eqb_refl. cbn [negb].
    reflexivity.
  - unfold message_payload, rb', msg'. fields. rewrite Hb. fields.
    cbn [msg_data msg_data_size]. unfold size. rewrite Nat2Z.id. exact Hpl.
  - split.
    + apply (arena_ok_intro rb rb' how (arena_bytes rb)); try assumption;
        try reflexivity; unfold rb'; fields; lia.
    + unfold rb'. fields. change (arena_bytes _) with (arena_bytes rb).
      split; [lia |].
      split; [| exact Hrest].
      rewrite Zplus_mod_idemp_l, <- Hpos. f_equal. lia.
Qed.

(** A read of an empty queue. *)
Lemma queue_read_empty (rb : ring_buffer_t) (msg : ring_buffer_message_t) :
  queue_holds rb [] ->
  ring_buffer_read (Some rb) (Some msg) = (RING_BUFFER_ERROR_EMPTY, Some rb, Some msg).
Proof.
  intros Hq. apply view_read_empty. apply queue_holds_view in Hq. apply Hq.
Qed.

(** A read of a queue whose first frame is [(p, now)]. *)
Lemma queue_read_head (rb : ring_buffer_t) (msg : ring_buffer_message_t)
    (p : list byte) (now : Z) (frames : list (list byte * Z)) :
  queue_holds rb ((p, now) :: frames) ->
  let size := Z.of_nat (length p) in
  let rb' := fetch_add_bytes_read
               (fetch_add_messages_read
                  (store_read_pos rb ((rb_read_pos rb + total_message_size size)
                                      mod rb_size rb)) 1) size in
  let msg' := {| msg_header := frame_header p size now;
                 msg_data := Some ((rb_read_pos rb + sizeof_arrow_ipc_header_t)
                                   mod rb_size rb);
                 msg_data_size := size |} in
  ring_buffer_read (Some rb) (Some msg) = (RING_BUFFER_SUCCESS, Some rb', Some msg')
  /\ message_payload rb' msg' = p
  /\ queue_holds rb' frames.
Proof.
  intros Hq size rb' msg'. apply queue_holds_view in Hq. destruct Hq as (Hv & Hwc).
  destruct (view_read_head rb msg p now frames Hv) as (Hr & Hp & Hv').
  split; [exact Hr |]. split; [exact Hp |].
  apply queue_holds_view. split; [exact Hv' | exact Hwc].
Qed.

(** An accepted write whose payload stays in one piece appends its frame. *)
Lemma queue_write_step (rb : ring_buffer_t) (p : list byte) (now : Z)
    (frames : list (list byte * Z)) (h' : option ring_buffer_t) :
  queue_holds rb frames ->
  ring_buffer_write (Some rb) (Some p) (Z.of_nat (length p)) now
  = (RING_BUFFER_SUCCESS, h') ->
  (rb_write_pos rb + sizeof_arrow_ipc_header_t) mod rb_size rb + Z.of_nat (length p)
  <= rb_size rb ->
  exists rb',
    h' = Some rb' /\ rb_size rb' = rb_size rb
    /\ rb_write_pos rb'
       = (rb_write_pos rb + total_message_size (Z.of_nat (length p))) mod rb_size rb
    /\ queue_holds rb' (frames ++ [(p, now)]).
Proof.
  intros Hq Hw Hfit.
  destruct (queue_holds_used rb _ Hq) as (Hfs0 & _ & Hused').
  destruct Hq as (Hok & Hwc & Hlt & Hpos & Hfr).
  destruct (arena_ok_shape rb Hok) as (e & how0 & He & Hn & Hn' & _ & Hlen & Hwp & Hrp & Hcp).
  destruct (write_success_state rb p (Z.of_nat (length p)) now h' Hok ltac:(lia) Hw)
    as (how & b' & H).
  cbv zeta in H. destruct H as (-> & Hb & Hsz & Hms & Hfree & Hav & Hused & Hl & Hst).
  rewrite Nat2Z.id, firstn_all in Hst.
  unfold sizeof_arrow_ipc_header_t in *.
  set (size := Z.of_nat (length p)) in *.
  set (ms := total_message_size size) in *.
  set (frame := header_to_bytes (frame_header p size now) ++ p) in *.
  assert (Hfl : Z.of_nat (length frame) = 24 + size).
  { unfold frame. rewrite length_app, header_to_bytes_length. lia. }
  pose proof (Z.mod_pos_bound (rb_write_pos rb + ms) (rb_size rb) ltac:(lia)) as Hnb.
  rewrite Hused' in Hused.
  eexists. split; [reflexivity |]. fields.
  split; [reflexivity |]. split; [reflexivity |].
  split.
  { eapply (arena_ok_intro rb _ how b'); try exact Hok; try reflexivity; fields;
      try lia; assumption. }
  fields. change (arena_bytes _) with b'.
  assert (Hsize' : frames_size (frames ++ [(p, now)]) = frames_size frames + ms).
  { clear. induction frames as [| [q t] frames IH]; cbn [app frames_size].
    - fold size ms. lia.
    - rewrite IH. lia. }
  rewrite Hsize'.
  split; [reflexivity |]. split; [lia |].
  split.
  { rewrite Hwc, <- Hpos, Zplus_mod_idemp_l. f_equal. lia. }
  apply frames_at_app; [lia |]. split.
  - rewrite <- (Z.add_0_r (rb_read_pos rb)).
    apply (frames_at_preserved (arena_bytes rb) b' frame (rb_size rb) (rb_read_pos rb)
             (frames_size frames)); try lia.
    + rewrite Hpos, <- Hwc. exact Hst.
    + rewrite Z.add_0_r. exact Hfr.
  - apply frames_at_mod; [lia |]. rewrite Hpos, <- Hwc.
    cbn [frames_at]. cbv zeta. fold size.
    split; [unfold RING_BUFFER_MAX_MESSAGE_SIZE in *; lia |].
    split; [unfold sizeof_arrow_ipc_header_t; exact Hfit |].
    split; [| exact I].
    unfold sizeof_arrow_ipc_header_t.
    replace (Z.to_nat (24 + size)) with (length frame) by lia.
    apply (bytes_from_stored (rb_size rb) ltac:(lia) (arena_bytes rb));
      try lia; try (fold frame; lia); exact Hst.
Qed.

End QueueSteps.

(** X13. First in, first out: start from an arena that holds the frames
    [frames] and run any sequence of whole-payload writes and of reads on one
    thread. If every write of the sequence returns [Success] and no payload
    runs past the arena end, then the calls return what an unbounded queue
    holding the payloads of [frames] returns: each read hands out the oldest
    payload not yet read, byte for byte, and returns [Empty] exactly when
    there is none. Headers may lie across the arena end. *)
Theorem fifo_order (ops : list queue_op) (rb : ring_buffer_t)
    (frames : list (list byte * Z)) (msg : ring_buffer_message_t) :
  queue_holds rb frames ->
  payloads_unsplit (rb_size rb) (rb_write_pos rb) ops ->
  writes_succeeded ops (fst (fst (run_ops (Some rb) (Some msg) ops))) ->
  fst (fst (run_ops (Some rb) (Some msg) ops)) = fifo_model (map fst frames) ops.
Proof.
  revert rb frames msg.
  induction ops as [| [p now |] ops IH]; intros rb frames msg Hq Hun Hok.
  - reflexivity.
  - cbn [run_ops fifo_model payloads_unsplit] in *. cbv zeta in Hun.
    destruct Hun as (Hfit & Hun).
    destruct (ring_buffer_write (Some rb) (Some p) (Z.of_nat (length p)) now)
      as [e h1] eqn:Hw.
    destruct (run_ops h1 (Some msg) ops) as [[rs h2] out2] eqn:Hrun.
    cbn [fst writes_succeeded] in *. destruct Hok as (-> & Hok).
    destruct (queue_write_step rb p now frames h1 Hq Hw Hfit)
      as (rb1 & -> & Hs1 & Hw1 & Hq1).
    f_equal.
    specialize (IH rb1 (frames ++ [(p, now)]) msg Hq1).
    rewrite Hs1, Hw1, Hrun in IH. cbn [fst] in IH.
    rewrite (IH Hun Hok), map_app. reflexivity.
  - cbn [run_ops payloads_unsplit] in *. cbv zeta in *.
    destruct frames as [| [p now] frames].
    + rewrite (queue_read_empty rb msg Hq) in *. cbn [fst snd read_result] in *.
      destruct (run_ops (Some rb) (Some msg) ops) as [[rs h2] out2] eqn:Hrun.
      cbn [fst writes_succeeded map fifo_model] in *.
      f_equal. specialize (IH rb [] msg Hq Hun). rewrite Hrun in IH. exact (IH Hok).
    + destruct (queue_read_head rb msg p now frames Hq) as (Hr & Hp & Hq1).
      cbv zeta in Hr, Hp, Hq1. rewrite Hr in *. cbn [fst snd read_result] in *.
      rewrite Hp in *.
      match type of Hq1 with queue_holds ?r _ => set (rb1 := r) in * end.
      match goal with |- context [run_ops (Some rb1) (Some ?m) ops] => set (msg1 := m) in * end.
      destruct (run_ops (Some rb1) (Some msg1) ops) as [[rs h2] out2] eqn:Hrun.
      cbn [fst writes_succeeded map fifo_model] in *.
      f_equal. specialize (IH rb1 frames msg1 Hq1 Hun). rewrite Hrun in IH. exact (IH Hok).
Qed.

(** X14. A payload across the arena end is accepted and then lost: in an
    empty valid arena, when [ring_buffer_write] returns [Success] for a
    payload that starts before the arena end and runs past it, the frame is
    committed ([ring_buffer_available_read] is its total size) and the next
    [ring_buffer_read] returns [Corrupted], counts a read error and leaves the
    message object untouched. *)
Theorem split_payload_unreadable (rb : ring_buffer_t) (p : list byte) (now : Z)
    (h' : option ring_buffer_t) (msg : ring_buffer_message_t) :
  queue_holds rb [] ->
  ring_buffer_write (Some rb) (Some p) (Z.of_nat (length p)) now
  = (RING_BUFFER_SUCCESS, h') ->
  rb_size rb
  < (rb_write_pos rb + sizeof_arrow_ipc_header_t) mod rb_size rb + Z.of_nat (length p) ->
  exists rb',
    h' = Some rb'
    /\ ring_buffer_available_read (Some rb') = total_message_size (Z.of_nat (length p))
    /\ ring_buffer_read (Some rb') (Some msg)
       = (RING_BUFFER_ERROR_CORRUPTED, Some (fetch_add_read_errors rb' 1), Some msg).
Proof.
  intros Hq Hw Hsplit.
  destruct (queue_holds_used rb _ Hq) as (_ & _ & Hused').
  destruct Hq as (Hok & Hwc & Hlt & Hpos & _).
  destruct (arena_ok_shape rb Hok) as (e & how0 & He & Hn & Hn' & _ & Hlen & Hwp & Hrp & Hcp).
  destruct (write_success_state rb p (Z.of_nat (length p)) now h' Hok ltac:(lia) Hw)
    as (how & b' & H).
  cbv zeta in H. destruct H as (-> & Hb & Hsz & Hms & Hfree & Hav & Hused & Hl & Hst).
  rewrite Nat2Z.id, firstn_all in Hst.
  cbn [frames_size] in *. rewrite Z.add_0_r, Z.mod_small in Hpos by lia.
  unfold sizeof_arrow_ipc_header_t in *.
  set (size := Z.of_nat (length p)) in *.
  set (ms := total_message_size size) in *.
  set (hdr := header_to_bytes (frame_header p size now)) in *.
  assert (Hhl : length hdr = 24%nat) by apply header_to_bytes_length.
  pose proof (Z.mod_pos_bound (rb_write_pos rb + ms) (rb_size rb) ltac:(lia)) as Hnb.
  pose proof (Z.mod_pos_bound (rb_write_pos rb + 24) (rb_size rb) ltac:(lia)) as Hdsb.
  unfold RING_BUFFER_MAX_MESSAGE_SIZE in Hsz.
  set (rb' := write_commit _ _ _).
  assert (Hok' : arena_ok rb').
  { apply (arena_ok_intro rb rb' how b'); try assumption; try reflexivity;
      unfold rb'; fields; lia. }
  assert (Har : ring_buffer_available_read (Some rb') = ms).
  { rewrite available_read_mod by (unfold rb'; fields; lia). unfold rb'. fields.
    rewrite Zminus_mod_idemp_l.
    replace (rb_write_pos rb + ms - rb_read_pos rb) with ms by lia.
    apply Z.mod_small. lia. }
  assert (Hhdr : bytes_from b' (rb_size rb) (rb_read_pos rb) (Z.to_nat 24) = hdr).
  { rewrite <- (bytes_from_firstn _ _ _ (length (hdr ++ p)))
      by (rewrite length_app; lia).
    rewrite Hpos, <- Hwc.
    rewrite (bytes_from_stored (rb_size rb) ltac:(lia) (arena_bytes rb) b' (hdr ++ p));
      try lia; try assumption; [| rewrite length_app; lia].
    rewrite firstn_app, Hhl.
    replace (Z.to_nat 24 - 24)%nat with 0%nat by lia. cbn [firstn].
    rewrite app_nil_r. apply firstn_all2. lia. }
  exists rb'. split; [reflexivity |]. split; [exact Har |].
  pose proof Hok' as (_ & Hv & _).
  unfold ring_buffer_read. rewrite Hv, Har. cbn [negb].
  unfold sizeof_arrow_ipc_header_t.
  destruct (Z.ltb_spec ms 24); [lia |].
  change (rb_read_pos rb') with (rb_read_pos rb).
  change (rb_size rb') with (rb_size rb).
  change (buffer_bytes (rb_buffer rb')) with (Some b').
  rewrite read_header_loads by (unfold sizeof_arrow_ipc_header_t; lia).
  unfold sizeof_arrow_ipc_header_t. rewrite Hhdr. cbn [Z.eqb negb].
  unfold hdr. rewrite header_round_trip by lia.
  cbn [h_magic h_length h_checksum frame_header].
  rewrite Z.eqb_refl. cbn [negb].
  rewrite (u32_small size) by lia.
  destruct (Z.ltb_spec RING_BUFFER_MAX_MESSAGE_SIZE size);
    [unfold RING_BUFFER_MAX_MESSAGE_SIZE in *; lia |].
  fold ms. rewrite Z.ltb_irrefl.
  assert (Hds : Z.land (u64 (rb_read_pos rb + 24)) (u64 (rb_size rb - 1))
                = (rb_read_pos rb + 24) mod rb_size rb).
  { rewrite Hn, land_pow2_mask by lia. rewrite u64_small by lia. reflexivity. }
  rewrite Hds, Hpos, <- Hwc. rewrite (u64_small (_ + size)) by lia.
  destruct (Z.leb_spec ((rb_write_pos rb + 24) mod rb_size rb + size) (rb_size rb));
    [lia | reflexivity].
Qed.

(** ** What the checksum detects *)

Section Detection.

Lemma lxor_range (a b : Z) :
  0 <= a < 2 ^ 32 -> 0 <= b < 2 ^ 32 -> 0 <= Z.lxor a b < 2 ^ 32.
Proof.
  intros Ha Hb.
  assert (0 <= Z.lxor a b) by (apply Z.lxor_nonneg; lia).
  split; [assumption |].
  destruct (Z.eq_dec (Z.lxor a b) 0) as [-> | Hne]; [lia |].
  apply Z.log2_lt_pow2; [lia |].
  eapply Z.le_lt_trans; [apply Z.log2_lxor; lia |].
  apply Z.max_lub_lt.
  - destruct (Z.eq_dec a 0) as [-> | ?]; [reflexivity | apply Z.log2_lt_pow2; lia].
  - destruct (Z.eq_dec b 0) as [-> | ?]; [reflexivity | apply Z.log2_lt_pow2; lia].
Qed.

Lemma reference_bit_range (c : Z) :
  0 <= c < 2 ^ 32 -> 0 <= crc32_reference_bit c < 2 ^ 32.
Proof.
  intros Hc. unfold crc32_reference_bit.
  assert (Hs : 0 <= Z.shiftr c 1 < 2 ^ 32).
  { rewrite Z.shiftr_div_pow2 by lia. change (2 ^ 1) with 2.
    split; [apply Z.div_pos; lia |]. apply Z.div_lt_upper_bound; lia. }
  destruct (Z.testbit c 0); apply lxor_range; lia.
Qed.

Lemma reference_iter_range (n : nat) (c : Z) :
  0 <= c < 2 ^ 32 -> 0 <= Nat.iter n crc32_reference_bit c < 2 ^ 32.
Proof.
  intros Hc. induction n as [| n IH]; [exact Hc |].
  rewrite Nat.iter_succ. apply reference_bit_range, IH.
Qed.

Lemma reference_byte_range (c : Z) (b : byte) :
  0 <= c < 2 ^ 32 -> 0 <= crc32_reference_byte c b < 2 ^ 32.
Proof.
  intros Hc. unfold crc32_reference_byte. apply reference_iter_range, lxor_range; [exact Hc |].
  pose proof (byte.unsigned_range b). lia.
Qed.

Lemma reference_fold_range (l : list byte) (c : Z) :
  0 <= c < 2 ^ 32 -> 0 <= fold_left crc32_reference_byte l c < 2 ^ 32.
Proof.
  revert c. induction l as [| b l IH]; intros c Hc; [exact Hc |].
  cbn [fold_left]. apply IH, reference_byte_range, Hc.
Qed.

(** One step of the shift register loses nothing: the bit shifted out is
    the top bit of the result. *)
Lemma reference_bit_kernel (x : Z) :
  0 <= x < 2 ^ 32 -> crc32_reference_bit x = 0 -> x = 0.
Proof.
  intros Hx H. unfold crc32_reference_bit in H.
  assert (Hs : 0 <= Z.shiftr x 1 < 2 ^ 31).
  { rewrite Z.shiftr_div_pow2 by lia. change (2 ^ 1) with 2.
    split; [apply Z.div_pos; lia |]. apply Z.div_lt_upper_bound; lia. }
  destruct (Z.testbit x 0) eqn:Hb.
  - apply Z.lxor_eq in H. lia.
  - rewrite Z.lxor_0_r in H.
    rewrite Z.bit0_odd in Hb.
    rewrite Z.shiftr_div_pow2 in H by lia. change (2 ^ 1) with 2 in H.
    pose proof (Z.div_mod x 2 ltac:(lia)) as E.
    rewrite Zmod_odd, Hb in E. lia.
Qed.

Lemma lxor_cancel_r (a b c : Z) : Z.lxor a c = Z.lxor b c -> a = b.
Proof.
  intros H. apply (f_equal (fun z => Z.lxor z c)) in H.
  now rewrite !Z.lxor_assoc, Z.lxor_nilpotent, !Z.lxor_0_r in H.
Qed.

Lemma reference_bit_inj (a b : Z) :
  0 <= a < 2 ^ 32 -> 0 <= b < 2 ^ 32 ->
  crc32_reference_bit a = crc32_reference_bit b -> a = b.
Proof.
  intros Ha Hb H. apply Z.lxor_eq.
  apply reference_bit_kernel; [apply lxor_range; assumption |].
  rewrite reference_bit_lxor, H. apply Z.lxor_nilpotent.
Qed.

Lemma reference_iter_inj (n : nat) (a b : Z) :
  0 <= a < 2 ^ 32 -> 0 <= b < 2 ^ 32 ->
  Nat.iter n crc32_reference_bit a = Nat.iter n crc32_reference_bit b -> a = b.
Proof.
  intros Ha Hb. induction n as [| n IH]; [trivial |].
  rewrite !Nat.iter_succ. intros H. apply IH.
  apply reference_bit_inj; [apply reference_iter_range .. | exact H]; assumption.
Qed.

Lemma reference_byte_inj_state (c1 c2 : Z) (b : byte) :
  0 <= c1 < 2 ^ 32 -> 0 <= c2 < 2 ^ 32 ->
  crc32_reference_byte c1 b = crc32_reference_byte c2 b -> c1 = c2.
Proof.
  intros H1 H2 H. unfold crc32_reference_byte in H.
  pose proof (byte.unsigned_range b).
  apply reference_iter_inj in H; [| apply lxor_range; lia ..].
  exact (lxor_cancel_r _ _ _ H).
Qed.

Lemma reference_byte_inj_byte (c : Z) (b1 b2 : byte) :
  0 <= c < 2 ^ 32 ->
  crc32_reference_byte c b1 = crc32_reference_byte c b2 -> b1 = b2.
Proof.
  intros Hc H. unfold crc32_reference_byte in H.
  pose proof (byte.unsigned_range b1). pose proof (byte.unsigned_range b2).
  apply reference_iter_inj in H; [| apply lxor_range; lia ..].
  apply byte.unsigned_inj.
  rewrite (Z.lxor_comm c), (Z.lxor_comm c) in H. exact (lxor_cancel_r _ _ _ H).
Qed.

Lemma reference_fold_inj (l : list byte) (c1 c2 : Z) :
  0 <= c1 < 2 ^ 32 -> 0 <= c2 < 2 ^ 32 ->
  fold_left crc32_reference_byte l c1 = fold_left crc32_reference_byte l c2 -> c1 = c2.
Proof.
  revert c1 c2. induction l as [| b l IH]; intros c1 c2 H1 H2 H; [exact H |].
  cbn [fold_left] in H. apply IH in H; [| apply reference_byte_range; assumption ..].
  exact (reference_byte_inj_state _ _ _ H1 H2 H).
Qed.

Lemma reference_single_byte (pre suf : list byte) (b1 b2 : byte) :
  crc32_reference (pre ++ b1 :: suf) = crc32_reference (pre ++ b2 :: suf) -> b1 = b2.
Proof.
  unfold crc32_reference. intros H. apply lxor_cancel_r in H.
  rewrite !fold_left_app in H. cbn [fold_left] in H.
  assert (Hc : 0 <= fold_left crc32_reference_byte pre 0xFFFFFFFF < 2 ^ 32)
    by (apply reference_fold_range; lia).
  apply reference_fold_inj in H; [| apply reference_byte_range; exact Hc ..].
  exact (reference_byte_inj_byte _ _ _ Hc H).
Qed.

End Detection.

Section CorruptedPayload.

Lemma crc32_of_single_byte (data : list byte) (size : Z) (i : nat) (x : byte) :
  (i < length data)%nat -> Z.of_nat i < size ->
  x <> nth i data Byte.x00 ->
  crc32_of (firstn i data ++ x :: skipn (S i) data) size <> crc32_of data size.
Proof.
  intros Hi Hsize Hx.
  rewrite !crc32_of_reference.
  assert (E : data = firstn i data ++ nth i data Byte.x00 :: skipn (S i) data).
  { rewrite <- (firstn_skipn i data) at 1. f_equal.
    rewrite <- (firstn_skipn i data) at 2.
    destruct (skipn i data) as [| y t] eqn:Hs.
    - apply (f_equal (@length byte)) in Hs. rewrite length_skipn in Hs. cbn in Hs. lia.
    - rewrite app_nth2 by (rewrite length_firstn; lia).
      rewrite length_firstn. replace (i - Nat.min i (length data))%nat with 0%nat by lia.
      cbn [nth]. f_equal.
      replace (S i) with (1 + i)%nat by lia. rewrite <- skipn_skipn, Hs. reflexivity. }
  assert (Hl : length (firstn i data) = i) by (rewrite length_firstn; lia).
  revert E Hx Hl. generalize (nth i data Byte.x00) as y.
  generalize (firstn i data) as pre. generalize (skipn (S i) data) as suf.
  intros suf pre y -> Hx Hl.
  rewrite !firstn_app, Hl.
  replace (Z.to_nat size - i)%nat with (S (Z.to_nat size - S i)) by lia.
  cbn [firstn]. intros H. apply reference_single_byte in H. exact (Hx H).
Qed.

(** The first frame of a queue, as it lies in the arena. *)
Lemma queue_head_frame (rb : ring_buffer_t) (p : list byte) (now : Z)
    (frames : list (list byte * Z)) :
  queue_holds rb ((p, now) :: frames) ->
  let size := Z.of_nat (length p) in
  let ds := (rb_read_pos rb + sizeof_arrow_ipc_header_t) mod rb_size rb in
  1 <= size <= RING_BUFFER_MAX_MESSAGE_SIZE
  /\ 0 <= ds /\ ds + size <= rb_size rb
  /\ sizeof_arrow_ipc_header_t + size <= total_message_size size
  /\ ring_buffer_available_read (Some rb) = total_message_size size + frames_size frames
  /\ 0 <= frames_size frames
  /\ total_message_size size + frames_size frames < rb_size rb
  /\ bytes_from (arena_bytes rb) (rb_size rb) (rb_read_pos rb)
                (Z.to_nat sizeof_arrow_ipc_header_t)
     = header_to_bytes (frame_header p size now)
  /\ firstn (length p) (skipn (Z.to_nat ds) (arena_bytes rb)) = p.
Proof.
  intros Hq size ds.
  destruct (queue_holds_used rb _ Hq) as (Hfs0 & Hav & _).
  destruct Hq as (Hok & Hwc & Hlt & Hpos & Hfr).
  destruct (arena_ok_shape rb Hok) as (e & how & He & Hn & Hn' & Hb & Hlen & Hwp & Hrp & Hcp).
  pose proof (frames_at_sizes _ _ _ _ Hfr) as Hall.
  cbn [frames_at frames_size] in *. cbv zeta in Hfr. fold size in Hfr, Hav, Hlt, Hpos, Hfs0.
  destruct Hfr as (Hs & Hp & Hbytes & Hrest).
  pose proof Hs as Hs'. unfold RING_BUFFER_MAX_MESSAGE_SIZE in Hs'.
  pose proof (total_message_size_bounds size ltac:(lia)) as Hms.
  assert (Hfs : 0 <= frames_size frames).
  { apply frames_size_nonneg. intros q t Hq. apply (Hall q t). now right. }
  pose proof (Z.mod_pos_bound (rb_read_pos rb + sizeof_arrow_ipc_header_t) (rb_size rb)
                ltac:(lia)) as Hdsb.
  fold ds in Hdsb, Hp.
  set (hdr := header_to_bytes (frame_header p size now)) in *.
  assert (Hhl : length hdr = 24%nat) by apply header_to_bytes_length.
  split; [exact Hs |]. split; [lia |]. split; [exact Hp |]. split; [lia |].
  split; [rewrite available_read_mod by lia; exact Hav |].
  split; [exact Hfs |]. split; [exact Hlt |].
  split.
  - unfold sizeof_arrow_ipc_header_t in *.
    rewrite <- (bytes_from_firstn _ _ _ (Z.to_nat (24 + size))) by lia.
    rewrite Hbytes, firstn_app, Hhl.
    replace (Z.to_nat 24 - 24)%nat with 0%nat by lia. cbn [firstn].
    rewrite app_nil_r. apply firstn_all2. lia.
  - apply (payload_in_place _ (rb_size rb) _ hdr); try assumption; try lia.
    unfold sizeof_arrow_ipc_header_t. lia.
Qed.

End CorruptedPayload.

(** X15. The checksum sees every single-byte change: for every object and
    every [i] below both its length and [size], replacing byte [i] by a
    different value changes what [ring_buffer_crc32] returns for the first
    [size] bytes (on the initialised table). *)
Theorem crc32_detects_single_byte (data : list byte) (size : Z) (i : nat) (x : byte) :
  (i < length data)%nat -> Z.of_nat i < size ->
  x <> nth i data Byte.x00 ->
  snd (ring_buffer_crc32 crc32_globals_ready
         (firstn i data ++ x :: skipn (S i) data) size)
  <> snd (ring_buffer_crc32 crc32_globals_ready data size).
Proof.
  intros Hi Hsize Hx. exact (crc32_of_single_byte data size i x Hi Hsize Hx).
Qed.

(** X16. A damaged payload is never delivered: in an arena whose oldest
    committed frame has payload [p], overwrite any one byte of that payload in
    place with a different value; the next [ring_buffer_read] returns
    [Corrupted], counts a read error, leaves [read_pos] where it was and
    stores nothing in the message's header. *)
Theorem read_detects_payload_corruption (rb : ring_buffer_t) (msg : ring_buffer_message_t)
    (p : list byte) (now : Z) (frames : list (list byte * Z)) (k : nat) (x : byte) :
  queue_holds rb ((p, now) :: frames) ->
  (k < length p)%nat ->
  let ds := (rb_read_pos rb + sizeof_arrow_ipc_header_t) mod rb_size rb in
  x <> nth (Z.to_nat ds + k) (arena_bytes rb) Byte.x00 ->
  let rb2 := store_buffer rb
               (buffer_with_bytes (rb_buffer rb)
                  (Some (memcpy (arena_bytes rb) (ds + Z.of_nat k) [x] 0 1))) in
  ring_buffer_read (Some rb2) (Some msg)
  = (RING_BUFFER_ERROR_CORRUPTED, Some (fetch_add_read_errors rb2 1),
     Some {| msg_header := msg_header msg; msg_data := Some ds;
             msg_data_size := Z.of_nat (length p) |}).
Proof.
  intros Hq Hk ds Hx rb2.
  pose proof (queue_head_frame rb p now frames Hq) as H. cbv zeta in H. fold ds in H.
  destruct H as (Hs & Hds0 & Hfit & Hms & Hav & Hfs & Hlt & Hhdr & Hpl).
  destruct Hq as (Hok & Hwc & _ & Hpos & _).
  destruct (arena_ok_shape rb Hok) as (e & how & He & Hn & Hn' & Hb & Hlen & Hwp & Hrp & Hcp).
  unfold sizeof_arrow_ipc_header_t in *. unfold RING_BUFFER_MAX_MESSAGE_SIZE in Hs.
  set (size := Z.of_nat (length p)) in *.
  set (ms := total_message_size size) in *.
  set (b := arena_bytes rb) in *.
  set (b2 := memcpy b (ds + Z.of_nat k) [x] 0 1).
  assert (Hrb2 : rb2 = store_buffer rb (Buf_region how b2)).
  { unfold rb2. rewrite Hb. reflexivity. }
  clearbody rb2. subst rb2.
  assert (Hl2 : length b2 = length b).
  { unfold b2. apply memcpy_length; cbn [length]; lia. }
  assert (Hnth : forall j, (j < length b)%nat -> j <> (Z.to_nat ds + k)%nat ->
                   nth j b2 Byte.x00 = nth j b Byte.x00).
  { intros j Hj Hne. unfold b2. rewrite memcpy_nth by (cbn [length]; lia).
    destruct (Z.leb_spec (ds + Z.of_nat k) (Z.of_nat j)); cbn [andb]; [| reflexivity].
    destruct (Z.ltb_spec (Z.of_nat j) (ds + Z.of_nat k + 1)); [lia | reflexivity]. }
  assert (Hok2 : arena_ok (store_buffer rb (Buf_region how b2))).
  { apply (arena_ok_intro rb _ how b2); try assumption; try reflexivity; fields; lia. }
  assert (Hhdr2 : bytes_from b2 (rb_size rb) (rb_read_pos rb) (Z.to_nat 24)
                  = header_to_bytes (frame_header p size now)).
  { rewrite <- Hhdr. apply bytes_from_ext. intros j Hj.
    pose proof (Z.mod_pos_bound (rb_read_pos rb + Z.of_nat j) (rb_size rb) ltac:(lia)).
    apply Hnth; [lia |]. intros E.
    assert (E' : (rb_read_pos rb + Z.of_nat j) mod rb_size rb = ds + Z.of_nat k) by lia.
    assert (E0 : (rb_read_pos rb + 24 + Z.of_nat k - (rb_read_pos rb + Z.of_nat j))
                 mod rb_size rb = 0).
    { rewrite Zminus_mod, E'.
      rewrite <- (Zplus_mod_idemp_l (rb_read_pos rb + 24)). fold ds.
      rewrite (Z.mod_small (ds + Z.of_nat k)) by lia.
      rewrite Z.sub_diag. apply Z.mod_0_l. lia. }
    rewrite Z.mod_small in E0 by lia. lia. }
  assert (Hdata : skipn (Z.to_nat ds) b2
                  = firstn k (skipn (Z.to_nat ds) b) ++ x :: skipn (S k) (skipn (Z.to_nat ds) b)).
  { unfold b2, memcpy.
    change (firstn (Z.to_nat 1) (skipn (Z.to_nat 0) [x])) with [x].
    rewrite skipn_app, length_firstn.
    replace (Z.to_nat ds - Nat.min (Z.to_nat (ds + Z.of_nat k)) (length b))%nat
      with 0%nat by lia.
    rewrite skipn_O. f_equal.
    - rewrite skipn_firstn_comm. f_equal. lia.
    - change ([x] ++ ?l) with (x :: l). f_equal. rewrite skipn_skipn. f_equal. lia. }
  assert (Hcrc : crc32_of (skipn (Z.to_nat ds) b2) size <> crc32_of p size).
  { rewrite Hdata.
    replace (crc32_of p size) with (crc32_of (skipn (Z.to_nat ds) b) size).
    - apply crc32_of_single_byte; [rewrite length_skipn; lia | lia |].
      rewrite nth_skipn. exact Hx.
    - rewrite !crc32_of_reference. unfold size. rewrite Nat2Z.id, Hpl.
      now rewrite firstn_all. }
  pose proof Hok2 as (_ & Hv & _).
  unfold ring_buffer_read. rewrite Hv. cbn [negb].
  change (ring_buffer_available_read (Some (store_buffer rb (Buf_region how b2))))
    with (ring_buffer_available_read (Some rb)).
  rewrite Hav. fields. unfold sizeof_arrow_ipc_header_t.
  destruct (Z.ltb_spec (ms + frames_size frames) 24); [lia |].
  rewrite read_header_loads by (unfold sizeof_arrow_ipc_header_t; lia).
  unfold sizeof_arrow_ipc_header_t. rewrite Hhdr2. cbn [Z.eqb negb].
  rewrite header_round_trip by lia.
  cbn [h_magic h_length h_checksum frame_header].
  rewrite Z.eqb_refl. cbn [negb].
  rewrite (u32_small size) by lia.
  destruct (Z.ltb_spec RING_BUFFER_MAX_MESSAGE_SIZE size);
    [unfold RING_BUFFER_MAX_MESSAGE_SIZE in *; lia |].
  fold ms.
  destruct (Z.ltb_spec (ms + frames_size frames) ms); [lia |].
  assert (Hdsl : Z.land (u64 (rb_read_pos rb + 24)) (u64 (rb_size rb - 1)) = ds).
  { unfold ds. rewrite Hn, land_pow2_mask by lia. rewrite u64_small by lia. reflexivity. }
  rewrite Hdsl. rewrite (u64_small (ds + size)) by lia.
  destruct (Z.leb_spec (ds + size) (rb_size rb)); [| lia].
  destruct (Z.eqb_spec (crc32_of (skipn (Z.to_nat ds) b2) size) (crc32_of p size));
    [contradiction |].
  cbn [negb]. reflexivity.
Qed.

(** ** The descriptor stays valid *)

Section Validity.

Lemma arena_ok_counters (rb rb' : ring_buffer_t) :
  arena_ok rb ->
  rb_magic rb' = rb_magic rb -> rb_size rb' = rb_size rb ->
  rb_buffer rb' = rb_buffer rb ->
  rb_write_pos rb' = rb_write_pos rb -> rb_read_pos rb' = rb_read_pos rb ->
  rb_commit_pos rb' = rb_commit_pos rb ->
  arena_ok rb' /\ rb_size rb' = rb_size rb
  /\ length (arena_bytes rb') = length (arena_bytes rb).
Proof.
  intros Hok Hm Hs Hb Hw Hr Hc.
  destruct (arena_ok_shape rb Hok) as (e & how & He & Hn & Hn' & Hbuf & Hlen & Hwp & Hrp & Hcp).
  split; [| split; [exact Hs |]].
  - apply (arena_ok_intro rb rb' how (arena_bytes rb)); try assumption; try lia;
      congruence.
  - unfold arena_bytes. rewrite Hb. reflexivity.
Qed.

Lemma write_keeps_ok (rb : ring_buffer_t) (p : list byte) (now : Z)
    (e : ring_buffer_error_t) (h' : option ring_buffer_t) :
  arena_ok rb ->
  ring_buffer_write (Some rb) (Some p) (Z.of_nat (length p)) now = (e, h') ->
  e <> RING_BUFFER_ERROR
  /\ exists rb', h' = Some rb' /\ arena_ok rb' /\ rb_size rb' = rb_size rb
                 /\ length (arena_bytes rb') = length (arena_bytes rb).
Proof.
  intros Hok Hw.
  destruct (arena_ok_shape rb Hok) as (e0 & how & He & Hn & Hn' & Hbuf & Hlen & Hwp & Hrp & Hcp).
  assert (He' : e = RING_BUFFER_SUCCESS \/ e <> RING_BUFFER_SUCCESS)
    by (destruct e; (left; reflexivity) || (right; discriminate)).
  destruct He' as [-> | Hne].
  - split; [discriminate |].
    destruct (write_success_state rb p (Z.of_nat (length p)) now h' Hok ltac:(lia) Hw)
      as (how' & b' & H).
    cbv zeta in H. destruct H as (-> & Hb & _ & _ & _ & _ & _ & Hl & _).
    pose proof (Z.mod_pos_bound (rb_write_pos rb
                                 + total_message_size (Z.of_nat (length p)))
                                (rb_size rb) ltac:(lia)).
    eexists. split; [reflexivity |]. split; [| split].
    + eapply (arena_ok_intro rb _ how' b'); try exact Hok; try reflexivity; fields;
        try lia; assumption.
    + reflexivity.
    + unfold arena_bytes at 1. fields. exact Hl.
  - revert Hw. unfold ring_buffer_write.
    destruct (Z.eqb_spec (Z.of_nat (length p)) 0).
    { intros E. injection E as <- <-. split; [discriminate |].
      exists rb. split; [reflexivity |]. split; [exact Hok |]. split; reflexivity. }
    destruct (write_reserve rb (Z.of_nat (length p))) as [e1 rb1 | rb1 wp nwp] eqn:Hres.
    + intros E. injection E as <- <-.
      destruct (write_refused rb rb1 _ e1 Hres)
        as [(-> & _ & ->) | [(-> & _ & ->) | [(-> & _ & ->) | (-> & _ & ->)]]];
        (split; [discriminate |]); eexists; (split; [reflexivity |]);
        apply arena_ok_counters; try assumption; reflexivity.
    + pose proof (write_frame_ok rb rb1 p (Z.of_nat (length p)) now wp nwp
                    (proj1 Hok) ltac:(lia) Hres) as Hf.
      destruct (write_frame rb1 (Some p) (Z.of_nat (length p)) now wp) as [[|] rb2];
        [| discriminate].
      intros E. injection E as <- _. congruence.
Qed.

Lemma read_keeps_ok (rb : ring_buffer_t) (msg : ring_buffer_message_t)
    (e : ring_buffer_error_t) (h' : option ring_buffer_t)
    (out' : option ring_buffer_message_t) :
  arena_ok rb ->
  ring_buffer_read (Some rb) (Some msg) = (e, h', out') ->
  e <> RING_BUFFER_ERROR
  /\ exists rb' msg', h' = Some rb' /\ out' = Some msg' /\ arena_ok rb'
                      /\ rb_size rb' = rb_size rb
                      /\ length (arena_bytes rb') = length (arena_bytes rb).
Proof.
  intros Hok.
  destruct (arena_ok_shape rb Hok) as (e0 & how & He & Hn & Hn' & Hbuf & Hlen & Hwp & Hrp & Hcp).
  unfold ring_buffer_read.
  destruct (ring_buffer_validate (Some rb)); cbn [negb].
  2:{ intros E. injection E as <- <- <-. split; [discriminate |].
      do 2 eexists. do 2 (split; [reflexivity |]).
      apply arena_ok_counters; try assumption; reflexivity. }
  destruct (_ <? _).
  { intros E. injection E as <- <- <-. split; [discriminate |].
    do 2 eexists. do 2 (split; [reflexivity |]).
    split; [exact Hok |]. split; reflexivity. }
  rewrite Hbuf. cbn [buffer_bytes].
  destruct (read_header_ok (arena_bytes rb) (rb_size rb) (rb_read_pos rb) ltac:(lia) ltac:(lia))
    as [hb ->].
  set (header := header_of_bytes _). clearbody header.
  cbn [Z.eqb negb].
  assert (Hland : forall x, 0 <= Z.land x (u64 (rb_size rb - 1)) < rb_size rb).
  { intros x. rewrite Hn, land_pow2_mask by lia. rewrite <- Hn.
    apply Z.mod_pos_bound. lia. }
  repeat match goal with
         | |- context [if ?c then _ else _] => destruct c
         end;
    intros E; injection E as <- <- <-; (split; [discriminate |]);
    do 2 eexists; do 2 (split; [reflexivity |]);
    try (apply arena_ok_counters; try assumption; reflexivity);
    try (split; [exact Hok |]; split; reflexivity).
  split; [| split; reflexivity].
  apply (arena_ok_intro rb _ how (arena_bytes rb)); try assumption; try reflexivity;
    fields; try apply Hland; lia.
Qed.

End Validity.
(** X17. The interface keeps its descriptor valid: from a valid arena and a
    non-null message object, after any sequence of whole-payload writes and of
    reads, whatever they return, the arena still passes
    [ring_buffer_validate] with every field in range and a region of exactly
    [size] bytes; the capacity is unchanged; and none of the calls returned
    [RING_BUFFER_ERROR]. *)
Theorem interface_keeps_descriptor_valid (ops : list queue_op) (rb : ring_buffer_t)
    (msg : ring_buffer_message_t) :
  arena_ok rb ->
  exists rb' msg',
    snd (fst (run_ops (Some rb) (Some msg) ops)) = Some rb'
    /\ snd (run_ops (Some rb) (Some msg) ops) = Some msg'
    /\ arena_ok rb'
    /\ rb_size rb' = rb_size rb
    /\ length (arena_bytes rb') = length (arena_bytes rb)
    /\ Forall (fun r => fst r <> RING_BUFFER_ERROR)
              (fst (fst (run_ops (Some rb) (Some msg) ops))).
Proof.
  revert rb msg. induction ops as [| [p now |] ops IH]; intros rb msg Hok.
  - exists rb, msg. cbn [run_ops fst snd]. repeat split; try assumption;
      try apply Hok. constructor.
  - cbn [run_ops].
    destruct (ring_buffer_write (Some rb) (Some p) (Z.of_nat (length p)) now)
      as [e h1] eqn:Hw.
    destruct (write_keeps_ok rb p now e h1 Hok Hw) as (He & rb1 & -> & Hok1 & Hs1 & Hl1).
    destruct (IH rb1 msg Hok1) as (rb' & msg' & E1 & E2 & Hok' & Hs' & Hl' & Hall).
    destruct (run_ops (Some rb1) (Some msg) ops) as [[rs h2] out2].
    cbn [fst snd] in *. exists rb', msg'.
    split; [exact E1 |]. split; [exact E2 |]. split; [exact Hok' |].
    split; [congruence |]. split; [congruence |].
    constructor; [exact He | exact Hall].
  - cbn [run_ops]. cbv zeta.
    destruct (ring_buffer_read (Some rb) (Some msg)) as [[e h1] out1] eqn:Hr.
    destruct (read_keeps_ok rb msg e h1 out1 Hok Hr)
      as (He & rb1 & msg1 & -> & -> & Hok1 & Hs1 & Hl1).
    destruct (IH rb1 msg1 Hok1) as (rb' & msg' & E1 & E2 & Hok' & Hs' & Hl' & Hall).
    cbn [fst snd].
    destruct (run_ops (Some rb1) (Some msg1) ops) as [[rs h2] out2].
    cbn [fst snd] in *. exists rb', msg'.
    split; [exact E1 |]. split; [exact E2 |]. split; [exact Hok' |].
    split; [congruence |]. split; [congruence |].
    constructor; [| exact Hall].
    unfold read_result. destruct e; try exact He; cbn [fst]; discriminate.
Qed.

(** ** Statistics are write-only *)

Section Statistics.

Ltac record_fields :=
  cbv [stats_cleared ring_buffer_reset_stats
       rb_buffer rb_size rb_fd rb_write_pos rb_read_pos rb_commit_pos rb_is_full
       rb_backpressure rb_messages_written rb_messages_read rb_bytes_written
       rb_bytes_read rb_write_errors rb_read_errors rb_backpressure_events
       rb_backpressure_threshold rb_magic
       store_buffer store_write_pos store_read_pos store_commit_pos store_backpressure
       store_messages_written store_messages_read store_bytes_written store_bytes_read
       store_write_errors store_read_errors store_backpressure_events
       fetch_add_messages_written fetch_add_messages_read fetch_add_bytes_written
       fetch_add_bytes_read fetch_add_write_errors fetch_add_read_errors
       fetch_add_backpressure_events write_commit option_map fst snd].

Lemma write_ignores_stats (rb1 rb2 : ring_buffer_t) (data : option (list byte))
    (size now : Z) :
  stats_cleared rb1 = stats_cleared rb2 ->
  fst (ring_buffer_write (Some rb1) data size now)
  = fst (ring_buffer_write (Some rb2) data size now)
  /\ option_map stats_cleared (snd (ring_buffer_write (Some rb1) data size now))
     = option_map stats_cleared (snd (ring_buffer_write (Some rb2) data size now)).
Proof.
  destruct rb1, rb2. record_fields. intros E. injection E as -> -> -> -> -> -> -> -> -> ->.
  unfold ring_buffer_write. destruct data as [d |]; [| split; reflexivity].
  destruct (size =? 0); [split; reflexivity |].
  unfold write_reserve, ring_buffer_validate, ring_buffer_utilization, utilization_used,
    ring_buffer_available_write, write_frame.
  record_fields.
  repeat match goal with
         | |- context [write_header ?a ?b ?c ?d] => destruct (write_header a b c d)
         | |- context [write_data ?a ?b ?c ?d ?e] => destruct (write_data a b c d e)
         | |- context [if ?c then _ else _] => destruct c
         | _ => progress record_fields
         end; split; reflexivity.
Qed.

Lemma read_ignores_stats (rb1 rb2 : ring_buffer_t) (out : option ring_buffer_message_t) :
  stats_cleared rb1 = stats_cleared rb2 ->
  read_result (ring_buffer_read (Some rb1) out) = read_result (ring_buffer_read (Some rb2) out)
  /\ option_map stats_cleared (snd (fst (ring_buffer_read (Some rb1) out)))
     = option_map stats_cleared (snd (fst (ring_buffer_read (Some rb2) out)))
  /\ snd (ring_buffer_read (Some rb1) out) = snd (ring_buffer_read (Some rb2) out).
Proof.
  destruct rb1, rb2. record_fields. intros E. injection E as -> -> -> -> -> -> -> -> -> ->.
  unfold ring_buffer_read. destruct out as [msg |]; [| repeat split].
  unfold ring_buffer_validate, ring_buffer_available_read, read_result, message_payload.
  record_fields.
  repeat match goal with
         | |- context [read_header ?a ?b ?c] => destruct (read_header a b c)
         | |- context [if ?c then _ else _] => destruct c
         | _ => progress record_fields
         end; repeat split.
Qed.

Lemma run_ignores_stats (ops : list queue_op) (h1 h2 : option ring_buffer_t)
    (out : option ring_buffer_message_t) :
  option_map stats_cleared h1 = option_map stats_cleared h2 ->
  fst (fst (run_ops h1 out ops)) = fst (fst (run_ops h2 out ops))
  /\ option_map stats_cleared (snd (fst (run_ops h1 out ops)))
     = option_map stats_cleared (snd (fst (run_ops h2 out ops)))
  /\ snd (run_ops h1 out ops) = snd (run_ops h2 out ops).
Proof.
  revert h1 h2 out. induction ops as [| [p now |] ops IH]; intros h1 h2 out Hh.
  - cbn [run_ops fst snd]. split; [reflexivity | split; [exact Hh | reflexivity]].
  - cbn [run_ops].
    assert (Hw : fst (ring_buffer_write h1 (Some p) (Z.of_nat (length p)) now)
                 = fst (ring_buffer_write h2 (Some p) (Z.of_nat (length p)) now)
                 /\ option_map stats_cleared
                      (snd (ring_buffer_write h1 (Some p) (Z.of_nat (length p)) now))
                    = option_map stats_cleared
                        (snd (ring_buffer_write h2 (Some p) (Z.of_nat (length p)) now))).
    { destruct h1 as [rb1 |], h2 as [rb2 |]; try discriminate.
      - apply write_ignores_stats. cbn [option_map] in Hh. congruence.
      - split; reflexivity. }
    destruct (ring_buffer_write h1 _ _ _) as [e1 h1'].
    destruct (ring_buffer_write h2 _ _ _) as [e2 h2'].
    cbn [fst snd] in Hw. destruct Hw as (-> & Hh').
    specialize (IH h1' h2' out Hh').
    destruct (run_ops h1' out ops) as [[rs1 k1] o1].
    destruct (run_ops h2' out ops) as [[rs2 k2] o2].
    cbn [fst snd] in *. destruct IH as (-> & Hk & ->).
    split; [reflexivity | split; [exact Hk | reflexivity]].
  - cbn [run_ops]. cbv zeta.
    assert (Hr : read_result (ring_buffer_read h1 out) = read_result (ring_buffer_read h2 out)
                 /\ option_map stats_cleared (snd (fst (ring_buffer_read h1 out)))
                    = option_map stats_cleared (snd (fst (ring_buffer_read h2 out)))
                 /\ snd (ring_buffer_read h1 out) = snd (ring_buffer_read h2 out)).
    { destruct h1 as [rb1 |], h2 as [rb2 |]; try discriminate.
      - apply read_ignores_stats. cbn [option_map] in Hh. congruence.
      - repeat split. }
    destruct Hr as (-> & Hh' & ->).
    specialize (IH _ _ (snd (ring_buffer_read h2 out)) Hh').
    destruct (run_ops (snd (fst (ring_buffer_read h1 out))) _ ops) as [[rs1 k1] o1].
    destruct (run_ops (snd (fst (ring_buffer_read h2 out))) _ ops) as [[rs2 k2] o2].
    cbn [fst snd] in *. destruct IH as (-> & Hk & ->).
    split; [reflexivity | split; [exact Hk | reflexivity]].
Qed.

End Statistics.

(** X18. Statistics never steer: a call of [ring_buffer_reset_stats] before
    any sequence of writes and reads changes neither the codes nor the
    payloads they return, nor the message object, nor the final arena apart
    from its seven counters; right after the reset [ring_buffer_get_stats]
    reports seven zeros, while the readable and writable byte counts and the
    validity of the arena are what they were. On a null arena the reset does
    nothing. *)
Theorem statistics_do_not_steer (ops : list queue_op) (h : option ring_buffer_t)
    (out : option ring_buffer_message_t) (stats : ring_buffer_stats_t) :
  fst (fst (run_ops (ring_buffer_reset_stats h) out ops)) = fst (fst (run_ops h out ops))
  /\ option_map stats_cleared (snd (fst (run_ops (ring_buffer_reset_stats h) out ops)))
     = option_map stats_cleared (snd (fst (run_ops h out ops)))
  /\ snd (run_ops (ring_buffer_reset_stats h) out ops) = snd (run_ops h out ops)
  /\ ring_buffer_get_stats (ring_buffer_reset_stats h) (Some stats)
     = match h with
       | Some _ => Some {| messages_written := 0; messages_read := 0; bytes_written := 0;
                           bytes_read := 0; write_errors := 0; read_errors := 0;
                           backpressure_events := 0 |}
       | None => Some stats
       end
  /\ ring_buffer_available_read (ring_buffer_reset_stats h) = ring_buffer_available_read h
  /\ ring_buffer_available_write (ring_buffer_reset_stats h) = ring_buffer_available_write h
  /\ ring_buffer_validate (ring_buffer_reset_stats h) = ring_buffer_validate h.
Proof.
  assert (E : option_map stats_cleared (ring_buffer_reset_stats h)
              = option_map stats_cleared h).
  { destruct h as [rb |]; [| reflexivity]. destruct rb. reflexivity. }
  destruct (run_ignores_stats ops _ _ out E) as (H1 & H2 & H3).
  split; [exact H1 |]. split; [exact H2 |]. split; [exact H3 |].
  destruct h as [rb |]; repeat split.
Qed.

(** ** Test data *)

Section TestData.

Lemma test_byte_unsigned (pattern : Z) (i : nat) :
  byte.unsigned (test_byte pattern i) = (pattern + Z.of_nat i) mod 256.
Proof.
  unfold test_byte. rewrite byte.unsigned_of_Z. unfold byte.wrap.
  change 0xFF with (Z.ones 8). rewrite Z.land_ones by lia.
  rewrite Z.mod_mod by lia. unfold u64. change (2 ^ 8) with 256.
  set (a := pattern + Z.of_nat i).
  rewrite (Z.mod_eq a (2 ^ 64)) by lia.
  replace (a - 2 ^ 64 * (a / 2 ^ 64)) with (a + - (a / 2 ^ 64) * 2 ^ 56 * 256) by lia.
  apply Z.mod_add. lia.
Qed.

Lemma test_byte_eq (p p' : Z) (i : nat) :
  test_byte p i = test_byte p' i <-> (p' - p) mod 256 = 0.
Proof.
  split.
  - intros H. apply (f_equal byte.unsigned) in H. rewrite !test_byte_unsigned in H.
    replace (p' - p) with (p' + Z.of_nat i - (p + Z.of_nat i)) by lia.
    rewrite Zminus_mod, H, Z.sub_diag. reflexivity.
  - intros H. apply byte.unsigned_inj. rewrite !test_byte_unsigned.
    replace (p' + Z.of_nat i) with (p + Z.of_nat i + (p' - p)) by lia.
    rewrite <- (Zplus_mod_idemp_r (p' - p) (p + Z.of_nat i)), H, Z.add_0_r. reflexivity.
Qed.

Lemma generate_test_data_prefix (d : list byte) (pattern : Z) (n : nat) :
  (n <= length d)%nat ->
  let g := fold_left (fun bytes i => firstn i bytes ++ test_byte pattern i :: skipn (S i) bytes)
                     (seq 0 n) d in
  length g = length d
  /\ forall i x, nth i g x = if (i <? n)%nat then test_byte pattern i else nth i d x.
Proof.
  induction n as [| n IH]; intros Hn; cbv zeta.
  - cbn [seq fold_left]. split; [reflexivity |]. intros i x. reflexivity.
  - rewrite seq_S, fold_left_app. cbn [fold_left Nat.add].
    destruct (IH ltac:(lia)) as (Hl & Hnth). cbv zeta in Hl, Hnth.
    set (g := fold_left _ (seq 0 n) d) in *.
    split.
    + rewrite length_app, length_firstn. cbn [length]. rewrite length_skipn. lia.
    + intros i x. destruct (Nat.ltb_spec i (S n)) as [Hi | Hi].
      * destruct (Nat.eq_dec i n) as [-> | Hne].
        -- rewrite app_nth2 by (rewrite length_firstn; lia).
           rewrite length_firstn.
           replace (n - Nat.min n (length g))%nat with 0%nat by lia. reflexivity.
        -- rewrite app_nth1 by (rewrite length_firstn; lia).
           rewrite nth_firstn. destruct (Nat.ltb_spec i n); [| lia].
           rewrite Hnth. destruct (Nat.ltb_spec i n); [reflexivity | lia].
      * destruct (Nat.lt_ge_cases i (length g)) as [Hlt | Hge].
        -- rewrite app_nth2 by (rewrite length_firstn; lia).
           rewrite length_firstn.
           replace (i - Nat.min n (length g))%nat with (S (i - S n)) by lia.
           cbn [nth]. rewrite nth_skipn.
           replace (S n + (i - S n))%nat with i by lia.
           rewrite Hnth. destruct (Nat.ltb_spec i n); [lia | reflexivity].
        -- rewrite nth_overflow
             by (rewrite length_app, length_firstn; cbn [length]; rewrite length_skipn; lia).
           symmetry. apply nth_overflow. lia.
Qed.

Lemma verify_test_data_spec (data : list byte) (size pattern : Z) :
  verify_test_data data size pattern = true
  <-> forall i, (i < Z.to_nat size)%nat -> nth i data Byte.x00 = test_byte pattern i.
Proof.
  unfold verify_test_data. rewrite forallb_forall. split.
  - intros H i Hi. apply byte.unsigned_inj. apply Z.eqb_eq. apply H.
    apply in_seq. lia.
  - intros H i Hi. apply in_seq in Hi. rewrite H by lia. apply Z.eqb_refl.
Qed.

End TestData.

(** X19. Test data: for [size] up to the length of the object,
    [generate_test_data] keeps the object's length and its bytes from [size]
    on, and [verify_test_data] with pattern [pattern'] accepts what
    [generate_test_data] wrote with [pattern] exactly when [size] is 0 or the
    two patterns agree modulo 256. *)
Theorem test_data_round_trip (d : list byte) (size pattern pattern' : Z) :
  0 <= size <= Z.of_nat (length d) ->
  length (generate_test_data d size pattern) = length d
  /\ skipn (Z.to_nat size) (generate_test_data d size pattern) = skipn (Z.to_nat size) d
  /\ (verify_test_data (generate_test_data d size pattern) size pattern' = true
      <-> size = 0 \/ (pattern' - pattern) mod 256 = 0).
Proof.
  intros Hsize.
  destruct (generate_test_data_prefix d pattern (Z.to_nat size) ltac:(lia)) as (Hl & Hnth).
  cbv zeta in Hl, Hnth. fold (generate_test_data d size pattern) in Hl, Hnth.
  split; [exact Hl |]. split.
  - apply (nth_ext _ _ Byte.x00 Byte.x00); [rewrite !length_skipn; lia |].
    intros i Hi. rewrite !nth_skipn, Hnth.
    destruct (Nat.ltb_spec (Z.to_nat size + i) (Z.to_nat size)); [lia | reflexivity].
  - rewrite verify_test_data_spec. split.
    + intros H. destruct (Z.eq_dec size 0) as [-> | Hne]; [now left | right].
      specialize (H 0%nat ltac:(lia)). rewrite Hnth in H.
      destruct (Nat.ltb_spec 0 (Z.to_nat size)); [| lia].
      apply (test_byte_eq pattern pattern' 0). exact H.
    + intros [-> | H] i Hi; [cbn in Hi; lia |].
      rewrite Hnth. destruct (Nat.ltb_spec i (Z.to_nat size)); [| lia].
      apply test_byte_eq. exact H.
Qed.

(** ** Error strings *)

(** X20. Error strings: [ring_buffer_error_string] gives different strings
    to different codes in [[-7, 0]]; it answers [Unknown error] exactly for
    the integers outside that range; and every enumerator of
    [ring_buffer_error_t] has its value in that range. *)
Theorem error_strings_distinct (c1 c2 : Z) :
  (-7 <= c1 <= 0 -> -7 <= c2 <= 0 ->
   ring_buffer_error_string c1 = ring_buffer_error_string c2 -> c1 = c2)
  /\ (ring_buffer_error_string c1 = "Unknown error"%string <-> c1 < -7 \/ 0 < c1)
  /\ (forall e, error_code e = Some c1 -> -7 <= c1 <= 0).
Proof.
  split; [| split].
  - intros H1 H2.
    assert (C1 : c1 = 0 \/ c1 = -1 \/ c1 = -2 \/ c1 = -3 \/ c1 = -4 \/ c1 = -5
                 \/ c1 = -6 \/ c1 = -7) by lia.
    assert (C2 : c2 = 0 \/ c2 = -1 \/ c2 = -2 \/ c2 = -3 \/ c2 = -4 \/ c2 = -5
                 \/ c2 = -6 \/ c2 = -7) by lia.
    repeat (destruct C1 as [-> | C1]); try subst c1;
      repeat (destruct C2 as [-> | C2]); try subst c2;
      cbn; intros E; try reflexivity; discriminate E.
  - split.
    + intros H.
      destruct (Z_lt_dec c1 (-7)); [now left |]. destruct (Z_lt_dec 0 c1); [now right |].
      exfalso.
      assert (C1 : c1 = 0 \/ c1 = -1 \/ c1 = -2 \/ c1 = -3 \/ c1 = -4 \/ c1 = -5
                   \/ c1 = -6 \/ c1 = -7) by lia.
      repeat (destruct C1 as [-> | C1]); try subst c1; cbn in H; discriminate H.
    + intros H. unfold ring_buffer_error_string.
      repeat match goal with
             | |- context [?a =? ?b] => destruct (Z.eqb_spec a b); [lia |]
             end.
      reflexivity.
  - intros e H. destruct e; cbn in H; try discriminate; injection H as <-; lia.
Qed.

(** ** One producer and one consumer *)

Section SingleProducer.

(** [write_frame] looks at the region and the capacity only. *)
Lemma write_frame_ext (ra rb : ring_buffer_t) (data : option (list byte))
    (size now wp : Z) :
  rb_buffer ra = rb_buffer rb -> rb_size ra = rb_size rb ->
  write_frame ra data size now wp
  = (fst (write_frame rb data size now wp),
     store_buffer ra (rb_buffer (snd (write_frame rb data size now wp)))).
Proof.
  intros Hb Hs. unfold write_frame. rewrite Hb, Hs.
  destruct (write_header _ _ _ _) as [r b1].
  destruct (negb (r =? 0)); [reflexivity |].
  destruct (write_data _ _ _ _ _) as [r' b2]. reflexivity.
Qed.

(** The phases of an accepted write. *)
Lemma write_phases (rb : ring_buffer_t) (p : list byte) (now : Z)
    (h' : option ring_buffer_t) :
  arena_ok rb ->
  ring_buffer_write (Some rb) (Some p) (Z.of_nat (length p)) now
  = (RING_BUFFER_SUCCESS, h') ->
  exists how b',
    let size := Z.of_nat (length p) in
    let ms := total_message_size size in
    let nwp := (rb_write_pos rb + ms) mod rb_size rb in
    let rb1 := store_write_pos (store_backpressure rb false) nwp in
    let rb2 := store_buffer rb1 (Buf_region how b') in
    size <> 0
    /\ write_reserve rb size = Reserved rb1 (rb_write_pos rb) nwp
    /\ write_frame rb1 (Some p) size now (rb_write_pos rb) = (true, rb2)
    /\ h' = Some (write_commit rb2 size nwp)
    /\ rb_buffer rb = Buf_region how (arena_bytes rb)
    /\ 1 <= size <= RING_BUFFER_MAX_MESSAGE_SIZE
    /\ sizeof_arrow_ipc_header_t + size <= ms
    /\ ms + (rb_write_pos rb - rb_read_pos rb) mod rb_size rb < rb_size rb
    /\ length b' = length (arena_bytes rb)
    /\ forall i, (i < length (arena_bytes rb))%nat ->
         nth i b' Byte.x00
         = stored_at (arena_bytes rb) (rb_size rb) (rb_write_pos rb)
                     (header_to_bytes (frame_header p size now) ++ p) i.
Proof.
  intros Hok Hw.
  destruct (arena_ok_shape rb Hok) as (e & how0 & He & Hn & Hn' & _ & Hlen & Hwp & Hrp & Hcp).
  destruct (write_success_state rb p (Z.of_nat (length p)) now h' Hok ltac:(lia) Hw)
    as (how & b' & H).
  cbv zeta in H. destruct H as (Hh & Hb & Hsz & Hms & Hfree & Hav & Hused & Hl & Hst).
  rewrite Nat2Z.id, firstn_all in Hst.
  destruct (write_success_steps rb (Some p) _ now h' Hw)
    as (d & rb1 & wp & nwp & rb2 & Hd & Hnz & Hres & Hf & Hh').
  injection Hd as <-.
  destruct (write_reserve_reserved rb rb1 _ wp nwp Hres)
    as (_ & _ & _ & _ & -> & Hnwp & ->).
  unfold RING_BUFFER_MAX_MESSAGE_SIZE in Hsz. unfold sizeof_arrow_ipc_header_t in Hms.
  assert (Hnwp' : nwp = (rb_write_pos rb + total_message_size (Z.of_nat (length p)))
                        mod rb_size rb).
  { rewrite Hnwp, Hn, land_pow2_mask by lia. rewrite u64_small by lia. reflexivity. }
  subst nwp.
  destruct (write_frame_stores (store_write_pos (store_backpressure rb false)
              (Z.land (u64 (rb_write_pos rb + total_message_size (Z.of_nat (length p))))
                      (u64 (rb_size rb - 1))))
              (Some p) (Z.of_nat (length p)) now (rb_write_pos rb)) as [bp Hbp].
  rewrite Hf in Hbp. cbn [snd] in Hbp. subst rb2.
  rewrite Hh in Hh'. injection Hh' as <-.
  exists how, b'. cbv zeta. rewrite <- Hnwp'.
  split; [exact Hnz |]. split; [exact Hres |]. split; [exact Hf |].
  split; [rewrite Hh, <- Hnwp'; reflexivity |]. split; [exact Hb |].
  split; [unfold RING_BUFFER_MAX_MESSAGE_SIZE; lia |].
  split; [unfold sizeof_arrow_ipc_header_t; lia |].
  split; [lia |]. split; [exact Hl |]. exact Hst.
Qed.

(** Publishing a frame that lies behind the committed ones. *)
Lemma commit_appends (rb : ring_buffer_t) (frames : list (list byte * Z))
    (p : list byte) (now : Z) :
  let size := Z.of_nat (length p) in
  let ms := total_message_size size in
  reader_view rb frames ->
  1 <= size <= RING_BUFFER_MAX_MESSAGE_SIZE ->
  frames_size frames + ms < rb_size rb ->
  rb_write_pos rb = (rb_commit_pos rb + ms) mod rb_size rb ->
  (rb_commit_pos rb + sizeof_arrow_ipc_header_t) mod rb_size rb + size <= rb_size rb ->
  bytes_from (arena_bytes rb) (rb_size rb) (rb_commit_pos rb)
             (Z.to_nat (sizeof_arrow_ipc_header_t + size))
  = header_to_bytes (frame_header p size now) ++ p ->
  queue_holds (write_commit rb size (rb_write_pos rb)) (frames ++ [(p, now)]).
Proof.
  intros size ms (Hok & Hlt & Hpos & Hfr) Hs Hroom Hwp Hfit Hbytes.
  destruct (arena_ok_shape rb Hok) as (e & how & He & Hn & Hn' & Hb & Hlen & Hw & Hr & Hc).
  assert (Hsize' : frames_size (frames ++ [(p, now)]) = frames_size frames + ms).
  { clear. induction frames as [| [q t] frames IH]; cbn [app frames_size].
    - fold size ms. lia.
    - rewrite IH. lia. }
  split.
  { apply (arena_ok_intro rb _ how (arena_bytes rb)); try assumption; try reflexivity;
      fields; lia. }
  fields. change (arena_bytes _) with (arena_bytes rb). rewrite Hsize'.
  split; [reflexivity |]. split; [exact Hroom |].
  split.
  { rewrite Hwp, <- Hpos, Zplus_mod_idemp_l. f_equal. lia. }
  apply frames_at_app; [lia |]. split; [exact Hfr |].
  apply frames_at_mod; [lia |]. rewrite Hpos.
  cbn [frames_at]. cbv zeta. fold size.
  split; [exact Hs |]. split; [exact Hfit |]. split; [exact Hbytes | exact I].
Qed.

Lemma write_steps_1 (rb : ring_buffer_t) (p : producer) :
  write_steps 1 rb p = producer_step rb p.
Proof. reflexivity. Qed.

Lemma write_steps_2 (rb : ring_buffer_t) (p : producer) :
  write_steps 2 rb p
  = producer_step (fst (producer_step rb p)) (snd (producer_step rb p)).
Proof. reflexivity. Qed.

(** Bytes stored behind the committed frames leave the consumer's view. *)
Lemma view_store (rb : ring_buffer_t) (frames : list (list byte * Z))
    (how : alloc_method) (b' src : list byte) :
  reader_view rb frames ->
  frames_size frames + Z.of_nat (length src) <= rb_size rb ->
  length b' = length (arena_bytes rb) ->
  (forall i, (i < length (arena_bytes rb))%nat ->
     nth i b' Byte.x00
     = stored_at (arena_bytes rb) (rb_size rb) (rb_commit_pos rb) src i) ->
  reader_view (store_buffer rb (Buf_region how b')) frames.
Proof.
  intros (Hok & Hlt & Hpos & Hfr) Hroom Hl Hst.
  destruct (arena_ok_shape rb Hok) as (e & how0 & He & Hn & Hn' & Hb & Hlen & Hw & Hr & Hc).
  assert (H0 : 0 <= frames_size frames)
    by (apply frames_size_nonneg; eapply frames_at_sizes; exact Hfr).
  split.
  { apply (arena_ok_intro rb _ how b'); try assumption; try reflexivity; fields; lia. }
  fields. change (arena_bytes _) with b'.
  split; [exact Hlt |]. split; [exact Hpos |].
  rewrite <- (Z.add_0_r (rb_read_pos rb)).
  apply (frames_at_preserved (arena_bytes rb) b' src (rb_size rb) (rb_read_pos rb)
           (frames_size frames)); try lia.
  - rewrite Hpos. exact Hst.
  - rewrite Z.add_0_r. exact Hfr.
Qed.

(** What a read returns from the consumer's view, and what it leaves. *)
Lemma view_read (rb : ring_buffer_t) (frames : list (list byte * Z))
    (msg : ring_buffer_message_t) :
  reader_view rb frames ->
  exists rb_r,
    snd (fst (ring_buffer_read (Some rb) (Some msg))) = Some rb_r
    /\ [read_result (ring_buffer_read (Some rb) (Some msg))]
       = fifo_model (map fst frames) [Op_read]
    /\ reader_view rb_r (tl frames)
    /\ 0 <= frames_size (tl frames) <= frames_size frames
    /\ rb_buffer rb_r = rb_buffer rb /\ rb_size rb_r = rb_size rb
    /\ rb_write_pos rb_r = rb_write_pos rb /\ rb_commit_pos rb_r = rb_commit_pos rb.
Proof.
  intros Hv. destruct frames as [| [q t] frames].
  - rewrite (view_read_empty rb msg Hv). exists rb. cbn [fst snd tl frames_size].
    repeat split; try assumption; try lia; apply Hv.
  - destruct (view_read_head rb msg q t frames Hv) as (Hr & Hp & Hv').
    cbv zeta in Hr, Hp, Hv'. rewrite Hr. cbn [fst snd read_result map fifo_model tl].
    eexists. split; [reflexivity |]. rewrite Hp. split; [reflexivity |].
    split; [exact Hv' |].
    assert (Hq : Z.of_nat (length q) <= RING_BUFFER_MAX_MESSAGE_SIZE).
    { destruct Hv as (_ & _ & _ & Hfr). eapply frames_at_sizes; [exact Hfr | now left]. }
    unfold RING_BUFFER_MAX_MESSAGE_SIZE in Hq.
    pose proof (total_message_size_bounds (Z.of_nat (length q)) ltac:(lia)).
    unfold sizeof_arrow_ipc_header_t in *.
    destruct (view_used _ _ Hv') as (H0 & _).
    cbn [frames_size]. repeat split; lia.
Qed.

End SingleProducer.

(** X21. One producer, one consumer: let a write that is accepted on an
    arena holding [frames], with its payload in one piece, be interrupted
    after its reservation ([k = 1]) or after its copies ([k = 2]) by a
    [ring_buffer_read]. The read returns what it would have returned before
    the write began: the oldest payload of [frames], or [Empty]. When the
    write then runs to its end it returns [Success], and the arena holds the
    remaining frames followed by the new one. *)
Theorem read_between_write_phases (k : nat) (rb : ring_buffer_t)
    (frames : list (list byte * Z)) (p : list byte) (now : Z)
    (msg : ring_buffer_message_t) (h' : option ring_buffer_t) :
  queue_holds rb frames ->
  ring_buffer_write (Some rb) (Some p) (Z.of_nat (length p)) now
  = (RING_BUFFER_SUCCESS, h') ->
  (rb_write_pos rb + sizeof_arrow_ipc_header_t) mod rb_size rb + Z.of_nat (length p)
  <= rb_size rb ->
  (1 <= k <= 2)%nat ->
  let mid := write_steps k rb (Calling (Some p) (Z.of_nat (length p)) now) in
  let r := ring_buffer_read (Some (fst mid)) (Some msg) in
  exists rb_r,
    snd (fst r) = Some rb_r
    /\ [read_result r] = fifo_model (map fst frames) [Op_read]
    /\ snd (write_steps (3 - k) rb_r (snd mid)) = Returned RING_BUFFER_SUCCESS
    /\ queue_holds (fst (write_steps (3 - k) rb_r (snd mid))) (tl frames ++ [(p, now)]).
Proof.
  intros Hq Hw Hfit Hk.
  destruct (queue_holds_used rb frames Hq) as (Hfs0 & _ & Hused).
  apply queue_holds_view in Hq. destruct Hq as (Hv & Hwc).
  pose proof Hv as (Hok & _).
  destruct (arena_ok_shape rb Hok) as (e & how0 & He & Hn & Hn' & _ & Hlen & Hwp & Hrp & Hcp).
  destruct (write_phases rb p now h' Hok Hw) as (how & b' & H). cbv zeta in H.
  destruct H as (Hnz & Hres & Hf & _ & Hb & Hs & Hms & Hroom & Hl & Hst).
  rewrite Hused in Hroom.
  set (size := Z.of_nat (length p)) in *.
  set (ms := total_message_size size) in *.
  set (nwp := (rb_write_pos rb + ms) mod rb_size rb) in *.
  set (rb1 := store_write_pos (store_backpressure rb false) nwp) in *.
  set (frame := header_to_bytes (frame_header p size now) ++ p) in *.
  assert (Hfl : Z.of_nat (length frame) = sizeof_arrow_ipc_header_t + size).
  { unfold frame. rewrite length_app, header_to_bytes_length.
    unfold sizeof_arrow_ipc_header_t, size. lia. }
  assert (V1 : reader_view rb1 frames).
  { destruct Hv as (_ & Hlt & Hpos & Hfr).
    pose proof (Z.mod_pos_bound (rb_write_pos rb + ms) (rb_size rb) ltac:(lia)).
    split; [| repeat split; assumption].
    apply (arena_ok_intro rb rb1 how (arena_bytes rb)); try assumption; try reflexivity;
      unfold rb1; fields; fold nwp; lia. }
  assert (Hstep1 : write_steps 1 rb (Calling (Some p) size now)
                   = (rb1, Has_reserved (Some p) size now (rb_write_pos rb) nwp)).
  { rewrite write_steps_1. cbn [producer_step].
    destruct (Z.eqb_spec size 0); [contradiction |]. rewrite Hres. reflexivity. }
  assert (Hstored : forall rbv,
            rb_buffer rbv = Buf_region how b' -> rb_size rbv = rb_size rb ->
            rb_commit_pos rbv = rb_write_pos rb ->
            bytes_from (arena_bytes rbv) (rb_size rbv) (rb_commit_pos rbv)
                       (Z.to_nat (sizeof_arrow_ipc_header_t + size)) = frame).
  { intros rbv Eb Es Ec. unfold arena_bytes. rewrite Eb, Es, Ec. cbn [buffer_bytes].
    replace (Z.to_nat (sizeof_arrow_ipc_header_t + size)) with (length frame) by lia.
    apply (bytes_from_stored (rb_size rb) ltac:(lia) (arena_bytes rb)); try lia.
    exact Hst. }
  assert (Hcommit : forall rbv,
            reader_view rbv (tl frames) -> frames_size (tl frames) <= frames_size frames ->
            rb_buffer rbv = Buf_region how b' -> rb_size rbv = rb_size rb ->
            rb_write_pos rbv = nwp -> rb_commit_pos rbv = rb_write_pos rb ->
            queue_holds (write_commit rbv size nwp) (tl frames ++ [(p, now)])).
  { intros rbv Hview Hle Eb Es Ew Ec. rewrite <- Ew.
    apply commit_appends; try assumption; fold size; fold ms.
    - rewrite Es. lia.
    - rewrite Ew, Ec, Es. reflexivity.
    - rewrite Ec, Es. exact Hfit.
    - apply Hstored; assumption. }
  cbv zeta.
  assert (Hk' : k = 1%nat \/ k = 2%nat) by lia.
  destruct Hk' as [-> | ->].
  - rewrite Hstep1. cbn [fst snd Nat.sub].
    destruct (view_read rb1 frames msg V1)
      as (rb_r & Er & Eres & Hview & Hle & Eb & Es & Ew & Ec).
    exists rb_r. split; [exact Er |]. split; [exact Eres |].
    rewrite write_steps_2. cbn [producer_step].
    rewrite (write_frame_ext rb_r rb1) by assumption. rewrite Hf. cbn [fst snd producer_step].
    fields. split; [reflexivity |].
    apply Hcommit; fields; try assumption; try reflexivity; try lia;
      [| rewrite Ec; symmetry; exact Hwc].
    apply view_store with (src := frame); try assumption.
    + rewrite Es. change (rb_size rb1) with (rb_size rb). lia.
    + unfold arena_bytes at 1. rewrite Eb. exact Hl.
    + unfold arena_bytes at 1 2. rewrite Eb, Es, Ec.
      change (rb_commit_pos rb1) with (rb_commit_pos rb). rewrite <- Hwc. exact Hst.
  - assert (Hstep2 : write_steps 2 rb (Calling (Some p) size now)
                     = (store_buffer rb1 (Buf_region how b'),
                        Has_copied size (rb_write_pos rb) nwp)).
    { rewrite write_steps_2, <- (write_steps_1 rb (Calling (Some p) size now)), Hstep1.
      cbn [fst snd producer_step]. rewrite Hf. reflexivity. }
    rewrite Hstep2. cbn [fst snd Nat.sub].
    assert (V2 : reader_view (store_buffer rb1 (Buf_region how b')) frames).
    { apply view_store with (src := frame); try assumption.
      - change (rb_size rb1) with (rb_size rb). lia.
      - change (rb_commit_pos rb1) with (rb_commit_pos rb). rewrite <- Hwc. exact Hst. }
    destruct (view_read _ frames msg V2)
      as (rb_r & Er & Eres & Hview & Hle & Eb & Es & Ew & Ec).
    exists rb_r. split; [exact Er |]. split; [exact Eres |].
    rewrite write_steps_1. cbn [fst snd producer_step].
    split; [reflexivity |].
    apply Hcommit; try assumption; try lia.
    rewrite Ec. fields. symmetry. exact Hwc.
Qed.

(** ** The counters count the calls *)

Section Counters.

Lemma write_tally (rb rb' : ring_buffer_t) (p : list byte) (now : Z)
    (e : ring_buffer_error_t) :
  arena_ok rb ->
  ring_buffer_write (Some rb) (Some p) (Z.of_nat (length p)) now = (e, Some rb') ->
  stats_of rb' = tally_call (Op_write p now) (e, []) (stats_of rb).
Proof.
  intros Hok Hw.
  assert (He' : e = RING_BUFFER_SUCCESS \/ e <> RING_BUFFER_SUCCESS)
    by (destruct e; (left; reflexivity) || (right; discriminate)).
  destruct He' as [-> | Hne].
  - destruct (write_success_state rb p (Z.of_nat (length p)) now _ Hok ltac:(lia) Hw)
      as (how' & b' & H).
    cbv zeta in H. destruct H as (E & _). injection E as ->. reflexivity.
  - revert Hw. unfold ring_buffer_write.
    destruct (Z.eqb_spec (Z.of_nat (length p)) 0).
    { intros E. injection E as <- <-. reflexivity. }
    destruct (write_reserve rb (Z.of_nat (length p))) as [e1 rb1 | rb1 wp nwp] eqn:Hres.
    + intros E. injection E as <- <-.
      destruct (write_refused rb rb1 _ e1 Hres)
        as [(-> & _ & ->) | [(-> & _ & ->) | [(-> & _ & ->) | (-> & _ & ->)]]];
        reflexivity.
    + pose proof (write_frame_ok rb rb1 p (Z.of_nat (length p)) now wp nwp
                    (proj1 Hok) ltac:(lia) Hres) as Hf.
      destruct (write_frame rb1 (Some p) (Z.of_nat (length p)) now wp) as [[|] rb2];
        [| discriminate].
      intros E. injection E as <- _. congruence.
Qed.

Lemma read_tally (rb rb' : ring_buffer_t) (msg : ring_buffer_message_t)
    (e : ring_buffer_error_t) (out' : option ring_buffer_message_t) :
  arena_ok rb ->
  ring_buffer_read (Some rb) (Some msg) = (e, Some rb', out') ->
  stats_of rb' = tally_call Op_read (read_result (e, Some rb', out')) (stats_of rb).
Proof.
  intros Hok.
  destruct (arena_ok_shape rb Hok) as (e0 & how & He & Hn & Hn' & Hbuf & Hlen & Hwp & Hrp & Hcp).
  unfold ring_buffer_read.
  destruct (ring_buffer_validate (Some rb)); cbn [negb];
    [| intros E; injection E as <- <- <-; reflexivity].
  destruct (_ <? _); [intros E; injection E as <- <- <-; reflexivity |].
  rewrite Hbuf. cbn [buffer_bytes].
  destruct (read_header_ok (arena_bytes rb) (rb_size rb) (rb_read_pos rb) ltac:(lia) ltac:(lia))
    as [hb ->].
  pose proof (header_length_range hb) as Hlr.
  set (header := header_of_bytes _) in *. clearbody header.
  cbn [Z.eqb negb].
  set (ds := Z.land _ (u64 (rb_size rb - 1))).
  assert (Hds : 0 <= ds < rb_size rb).
  { unfold ds. rewrite Hn, land_pow2_mask by lia. rewrite <- Hn.
    apply Z.mod_pos_bound. lia. }
  clearbody ds.
  destruct (negb (h_magic header =? ARROW_IPC_MAGIC));
    [intros E; injection E as <- <- <-; reflexivity |].
  destruct (Z.ltb_spec RING_BUFFER_MAX_MESSAGE_SIZE (h_length header));
    [intros E; injection E as <- <- <-; reflexivity |].
  destruct (_ <? _); [intros E; injection E as <- <- <-; reflexivity |].
  unfold RING_BUFFER_MAX_MESSAGE_SIZE in *.
  rewrite (u64_small (ds + h_length header)) by lia.
  destruct (Z.leb_spec (ds + h_length header) (rb_size rb));
    [| intros E; injection E as <- <- <-; reflexivity].
  destruct (negb (_ =? _)); [intros E; injection E as <- <- <-; reflexivity |].
  intros E. injection E as <- <- <-.
  unfold read_result, tally_call, stats_of, message_payload. cbn [fst snd].
  fields. rewrite Hbuf. fields. cbn [msg_data msg_data_size].
  rewrite length_firstn, length_skipn.
  replace (Z.of_nat (Nat.min (Z.to_nat (h_length header))
                             (length (arena_bytes rb) - Z.to_nat ds)))
    with (h_length header) by lia.
  reflexivity.
Qed.

End Counters.

(** X22. The counters count the calls: from a valid arena and a non-null
    message object, after any sequence of whole-payload writes and of reads on
    one thread, [ring_buffer_get_stats] reports the counters of the start plus
    (modulo [2^64]) one message and [size] bytes written per write that
    returned [Success], one write error per write that returned [Corrupted],
    [TooLarge] or [Full], one backpressure event per write that returned
    [Backpressure], one message and the delivered number of bytes read per
    read that returned [Success], one read error per read that returned
    [Corrupted], and nothing for [InvalidParam] and [Empty]. *)
Theorem statistics_are_exact (ops : list queue_op) (rb : ring_buffer_t)
    (msg : ring_buffer_message_t) (stats : ring_buffer_stats_t) :
  arena_ok rb ->
  ring_buffer_get_stats (snd (fst (run_ops (Some rb) (Some msg) ops))) (Some stats)
  = Some (tally ops (fst (fst (run_ops (Some rb) (Some msg) ops))) (stats_of rb)).
Proof.
  revert rb msg. induction ops as [| [p now |] ops IH]; intros rb msg Hok.
  - reflexivity.
  - cbn [run_ops].
    destruct (ring_buffer_write (Some rb) (Some p) (Z.of_nat (length p)) now)
      as [e h1] eqn:Hw.
    destruct (write_keeps_ok rb p now e h1 Hok Hw) as (_ & rb1 & -> & Hok1 & _).
    specialize (IH rb1 msg Hok1).
    destruct (run_ops (Some rb1) (Some msg) ops) as [[rs h2] out2].
    cbn [fst snd tally] in *. rewrite IH.
    rewrite (write_tally rb rb1 p now e Hok Hw). reflexivity.
  - cbn [run_ops]. cbv zeta.
    destruct (ring_buffer_read (Some rb) (Some msg)) as [[e h1] out1] eqn:Hr.
    destruct (read_keeps_ok rb msg e h1 out1 Hok Hr)
      as (_ & rb1 & msg1 & -> & -> & Hok1 & _).
    specialize (IH rb1 msg1 Hok1). cbn [fst snd].
    destruct (run_ops (Some rb1) (Some msg1) ops) as [[rs h2] out2].
    cbn [fst snd tally] in *. rewrite IH.
    rewrite (read_tally rb rb1 msg e (Some msg1) Hok Hr). reflexivity.
Qed.

(** ** The further properties at concrete inputs *)

Ltac by_computation :=
  vm_compute;
  repeat match goal with
         | |- _ /\ _ => split
         | |- True => exact I
         | |- _ = _ => reflexivity
         | |- _ <> _ => discriminate
         | |- _ -> False => discriminate
         end.

(** X1 at [s = 13], which is rounded to 16. *)
Lemma align_size_rounds_up_witness :
  0 <= 13 < 2 ^ 64
  /\ align_size 13 = 16
  /\ align_size (align_size 13) = align_size 13.
Proof.
  assert (H : 0 <= 13 < 2 ^ 64) by lia.
  split; [exact H |]. split; [reflexivity |].
  exact (proj2 (proj2 (align_size_rounds_up 13 H))).
Defined.

(** X2 at [k = 1000], which is rounded to 1024. *)
Lemma next_power_of_2_fixpoints_witness :
  0 <= 1000 < 2 ^ 64
  /\ ring_buffer_next_power_of_2 1000 = 1024
  /\ ring_buffer_next_power_of_2 (ring_buffer_next_power_of_2 1000)
     = ring_buffer_next_power_of_2 1000.
Proof.
  assert (H : 0 <= 1000 < 2 ^ 64) by lia.
  split; [exact H |]. split; [reflexivity |].
  exact (proj1 (proj2 (proj2 (next_power_of_2_fixpoints 1000 H))) ltac:(lia)).
Defined.

(** X3 at a request of [2^63 + 1] bytes served by [mmap]. *)
Lemma create_overflow_unusable_witness :
  2 ^ 63 < 2 ^ 63 + 1 < 2 ^ 64
  /\ snd (ring_buffer_create crc32_globals_initial (2 ^ 63 + 1) Mmap_ok)
     = Some (initial_descriptor By_mmap 0)
  /\ rb_size (initial_descriptor By_mmap 0) = 0
  /\ ring_buffer_validate (Some (initial_descriptor By_mmap 0)) = false
  /\ ring_buffer_read (Some (initial_descriptor By_mmap 0)) (Some blank_message)
     = (RING_BUFFER_ERROR_CORRUPTED,
        Some (fetch_add_read_errors (initial_descriptor By_mmap 0) 1), Some blank_message).
Proof.
  assert (H1 : 2 ^ 63 < 2 ^ 63 + 1 < 2 ^ 64) by lia.
  assert (H2 : snd (ring_buffer_create crc32_globals_initial (2 ^ 63 + 1) Mmap_ok)
               = Some (initial_descriptor By_mmap 0)) by (vm_compute; reflexivity).
  split; [exact H1 |]. split; [exact H2 |].
  pose proof (create_overflow_unusable crc32_globals_initial (2 ^ 63 + 1) Mmap_ok
                (initial_descriptor By_mmap 0) (Some [Byte.x41]) 1 0 blank_message H1 H2)
    as (Hs & Hv & _ & Hr).
  split; [exact Hs |]. split; [exact Hv | exact Hr].
Defined.

(** X4 at a request of 100 bytes served by [mmap]: a 128-byte arena. *)
Lemma create_establishes_witness :
  0 <= 100 <= 2 ^ 63
  /\ snd (ring_buffer_create crc32_globals_initial 100 Mmap_ok)
     = Some (initial_descriptor By_mmap 128)
  /\ arena_ok (initial_descriptor By_mmap 128)
  /\ ring_buffer_available_write (Some (initial_descriptor By_mmap 128)) = 127
  /\ ring_buffer_available_read (Some (initial_descriptor By_mmap 128)) = 0.
Proof.
  assert (H1 : 0 <= 100 <= 2 ^ 63) by lia.
  assert (H2 : snd (ring_buffer_create crc32_globals_initial 100 Mmap_ok)
               = Some (initial_descriptor By_mmap 128)) by (vm_compute; reflexivity).
  split; [exact H1 |]. split; [exact H2 |].
  pose proof (create_establishes crc32_globals_initial 100 Mmap_ok
                (initial_descriptor By_mmap 128) stale_stats H1 H2)
    as (Hok & _ & _ & _ & _ & Hw & Hr & _).
  split; [exact Hok |]. split; [exact Hw | exact Hr].
Defined.

(** X5 at a 128-byte arena with 104 bytes in use and a one-byte write, which
    is refused with [Backpressure]. *)
Lemma write_failure_atomic_witness :
  descriptor_in_range arena_at_threshold
  /\ is_size_t 1
  /\ ring_buffer_write (Some arena_at_threshold) (Some [Byte.x41]) 1 7
     = (RING_BUFFER_ERROR_BACKPRESSURE,
        Some (fetch_add_backpressure_events (store_backpressure arena_at_threshold true) 1))
  /\ RING_BUFFER_ERROR_BACKPRESSURE <> RING_BUFFER_SUCCESS
  /\ exists rb',
       Some (fetch_add_backpressure_events (store_backpressure arena_at_threshold true) 1)
       = Some rb'
       /\ rb_buffer rb' = rb_buffer arena_at_threshold
       /\ rb_write_pos rb' = rb_write_pos arena_at_threshold
       /\ rb_commit_pos rb' = rb_commit_pos arena_at_threshold.
Proof.
  assert (H1 : descriptor_in_range arena_at_threshold)
    by (unfold descriptor_in_range, is_size_t; by_computation).
  assert (H2 : is_size_t 1) by (unfold is_size_t; lia).
  assert (H3 : ring_buffer_write (Some arena_at_threshold) (Some [Byte.x41]) 1 7
               = (RING_BUFFER_ERROR_BACKPRESSURE,
                  Some (fetch_add_backpressure_events
                          (store_backpressure arena_at_threshold true) 1)))
    by (vm_compute; reflexivity).
  assert (H4 : RING_BUFFER_ERROR_BACKPRESSURE <> RING_BUFFER_SUCCESS) by discriminate.
  split; [exact H1 |]. split; [exact H2 |]. split; [exact H3 |]. split; [exact H4 |].
  destruct (write_failure_atomic arena_at_threshold (Some [Byte.x41]) 1 7 _ _ H1 H2 H3 H4)
    as (rb' & E & Hb & Hw & _ & Hc & _).
  exists rb'. repeat split; assumption.
Defined.

(** X6 at a fresh 128-byte arena and the thirteen bytes of [hello_world]. *)
Lemma write_success_accounting_witness :
  descriptor_in_range (initial_descriptor By_mmap 128)
  /\ is_size_t 13
  /\ ring_buffer_write (Some (initial_descriptor By_mmap 128)) (Some hello_world) 13 5
     = (RING_BUFFER_SUCCESS, Some (fresh_written By_mmap 128 hello_world 5))
  /\ exists rb',
       Some (fresh_written By_mmap 128 hello_world 5) = Some rb'
       /\ rb_write_pos rb' = (0 + total_message_size 13) mod 128
       /\ rb_commit_pos rb' = rb_write_pos rb'
       /\ utilization_used rb' = 0 + total_message_size 13.
Proof.
  assert (H1 : descriptor_in_range (initial_descriptor By_mmap 128))
    by (unfold descriptor_in_range, is_size_t; by_computation).
  assert (H2 : is_size_t 13) by (unfold is_size_t; lia).
  assert (H3 : ring_buffer_write (Some (initial_descriptor By_mmap 128))
                 (Some hello_world) 13 5
               = (RING_BUFFER_SUCCESS, Some (fresh_written By_mmap 128 hello_world 5)))
    by (vm_compute; reflexivity).
  split; [exact H1 |]. split; [exact H2 |]. split; [exact H3 |].
  destruct (write_success_accounting (initial_descriptor By_mmap 128) (Some hello_world)
              13 5 _ H1 H2 H3)
    as (rb' & E & _ & Hw & Hc & _ & Hu & _).
  exists rb'. repeat split; assumption.
Defined.

(** X7 at a fresh 128-byte arena and the thirteen bytes of [hello_world]. *)
Lemma write_succeeds_iff_witness :
  descriptor_in_range (initial_descriptor By_mmap 128)
  /\ is_size_t 13
  /\ fst (ring_buffer_write (Some (initial_descriptor By_mmap 128)) (Some hello_world) 13 5)
     = RING_BUFFER_SUCCESS
  /\ double_ge (ring_buffer_utilization (Some (initial_descriptor By_mmap 128)))
               (rb_backpressure_threshold (initial_descriptor By_mmap 128)) = false
  /\ total_message_size 13
     <= ring_buffer_available_write (Some (initial_descriptor By_mmap 128)).
Proof.
  assert (H1 : descriptor_in_range (initial_descriptor By_mmap 128))
    by (unfold descriptor_in_range, is_size_t; by_computation).
  assert (H2 : is_size_t 13) by (unfold is_size_t; lia).
  assert (H3 : fst (ring_buffer_write (Some (initial_descriptor By_mmap 128))
                      (Some hello_world) 13 5) = RING_BUFFER_SUCCESS)
    by (vm_compute; reflexivity).
  split; [exact H1 |]. split; [exact H2 |]. split; [exact H3 |].
  destruct (proj1 (write_succeeds_iff (initial_descriptor By_mmap 128) hello_world 13 5
                     H1 H2) H3) as (_ & _ & _ & Hbp & Hfree).
  split; [exact Hbp | exact Hfree].
Defined.

(** X8 at a 128-byte arena with 104 bytes in use and two one-byte writes. *)
Lemma backpressure_persists_witness :
  ring_buffer_write (Some arena_at_threshold) (Some [Byte.x41]) 1 7
  = (RING_BUFFER_ERROR_BACKPRESSURE,
     Some (fetch_add_backpressure_events (store_backpressure arena_at_threshold true) 1))
  /\ 1 <> 0
  /\ 1 <= RING_BUFFER_MAX_MESSAGE_SIZE
  /\ exists rb'',
       ring_buffer_write
         (Some (fetch_add_backpressure_events (store_backpressure arena_at_threshold true) 1))
         (Some [Byte.x42]) 1 8
       = (RING_BUFFER_ERROR_BACKPRESSURE, Some rb'')
       /\ rb_backpressure_events rb''
          = u64 (u64 (rb_backpressure_events arena_at_threshold + 1) + 1).
Proof.
  assert (H1 : ring_buffer_write (Some arena_at_threshold) (Some [Byte.x41]) 1 7
               = (RING_BUFFER_ERROR_BACKPRESSURE,
                  Some (fetch_add_backpressure_events
                          (store_backpressure arena_at_threshold true) 1)))
    by (vm_compute; reflexivity).
  assert (H2 : 1 <> 0) by discriminate.
  assert (H3 : 1 <= RING_BUFFER_MAX_MESSAGE_SIZE) by (vm_compute; discriminate).
  split; [exact H1 |]. split; [exact H2 |]. split; [exact H3 |].
  destruct (backpressure_persists arena_at_threshold [Byte.x41] [Byte.x42] 1 7 1 8 _
              H1 H2 H3) as (rb' & rb'' & _ & _ & Hw & He).
  exists rb''. split; [exact Hw | exact He].
Defined.

(** X9 at an arena whose committed bytes carry no frame magic. *)
Lemma read_failure_consumes_nothing_witness :
  ring_buffer_read (Some arena_bad_magic) (Some blank_message)
  = (RING_BUFFER_ERROR_CORRUPTED, Some (fetch_add_read_errors arena_bad_magic 1),
     Some blank_message)
  /\ RING_BUFFER_ERROR_CORRUPTED <> RING_BUFFER_SUCCESS
  /\ option_map rb_read_pos (Some (fetch_add_read_errors arena_bad_magic 1))
     = option_map rb_read_pos (Some arena_bad_magic)
  /\ option_map rb_buffer (Some (fetch_add_read_errors arena_bad_magic 1))
     = option_map rb_buffer (Some arena_bad_magic).
Proof.
  assert (H1 : ring_buffer_read (Some arena_bad_magic) (Some blank_message)
               = (RING_BUFFER_ERROR_CORRUPTED,
                  Some (fetch_add_read_errors arena_bad_magic 1), Some blank_message))
    by (vm_compute; reflexivity).
  assert (H2 : RING_BUFFER_ERROR_CORRUPTED <> RING_BUFFER_SUCCESS) by discriminate.
  split; [exact H1 |]. split; [exact H2 |].
  destruct (read_failure_consumes_nothing _ _ _ _ _ H1 H2) as (Hr & _ & _ & Hb & _).
  split; [exact Hr | exact Hb].
Defined.

(** X10 at a 128-byte arena holding the frame of [payload_80]. *)
Lemma read_success_integrity_witness :
  descriptor_in_range arena_at_threshold
  /\ ring_buffer_read (Some arena_at_threshold) (Some blank_message)
     = (RING_BUFFER_SUCCESS,
        snd (fst (ring_buffer_read (Some arena_at_threshold) (Some blank_message))),
        snd (ring_buffer_read (Some arena_at_threshold) (Some blank_message)))
  /\ exists rb' msg',
       snd (fst (ring_buffer_read (Some arena_at_threshold) (Some blank_message))) = Some rb'
       /\ snd (ring_buffer_read (Some arena_at_threshold) (Some blank_message)) = Some msg'
       /\ h_checksum (msg_header msg') = crc32_reference (message_payload rb' msg')
       /\ msg_data_size msg' = h_length (msg_header msg').
Proof.
  assert (H1 : descriptor_in_range arena_at_threshold)
    by (unfold descriptor_in_range, is_size_t; by_computation).
  assert (H2 : ring_buffer_read (Some arena_at_threshold) (Some blank_message)
               = (RING_BUFFER_SUCCESS,
                  snd (fst (ring_buffer_read (Some arena_at_threshold) (Some blank_message))),
                  snd (ring_buffer_read (Some arena_at_threshold) (Some blank_message))))
    by (vm_compute; reflexivity).
  split; [exact H1 |]. split; [exact H2 |].
  destruct (read_success_integrity arena_at_threshold blank_message _ _ H1 H2)
    as (rb' & msg' & ds & E1 & E2 & _ & _ & Hsz & _ & _ & _ & Hc & _).
  exists rb', msg'. repeat split; assumption.
Defined.

(** X11 at an arena whose committed bytes carry no frame magic, read four
    times. *)
Lemma corrupted_frame_blocks_witness :
  ring_buffer_read (Some arena_bad_magic) (Some blank_message)
  = (RING_BUFFER_ERROR_CORRUPTED, Some (fetch_add_read_errors arena_bad_magic 1),
     Some blank_message)
  /\ fst (fst (run_ops (Some (fetch_add_read_errors arena_bad_magic 1))
                       (Some blank_message) (repeat Op_read 3)))
     = repeat (RING_BUFFER_ERROR_CORRUPTED, []) 3.
Proof.
  assert (H1 : ring_buffer_read (Some arena_bad_magic) (Some blank_message)
               = (RING_BUFFER_ERROR_CORRUPTED,
                  Some (fetch_add_read_errors arena_bad_magic 1), Some blank_message))
    by (vm_compute; reflexivity).
  split; [exact H1 |].
  pose proof (corrupted_frame_blocks _ _ _ _ 3 H1) as H.
  destruct (run_ops (Some (fetch_add_read_errors arena_bad_magic 1))
                    (Some blank_message) (repeat Op_read 3)) as [[results h''] out''].
  exact (proj1 H).
Defined.

(** X12 at an empty 128-byte arena with its positions at 112: the header of
    [hello_world] lies across the arena end, and byte 21, behind the frame,
    keeps its value. *)
Lemma write_touches_only_its_frame_witness :
  arena_ok arena_at_112
  /\ 0 <= 13 <= Z.of_nat (length hello_world)
  /\ ring_buffer_write (Some arena_at_112) (Some hello_world) 13 5
     = (RING_BUFFER_SUCCESS,
        snd (ring_buffer_write (Some arena_at_112) (Some hello_world) 13 5))
  /\ exists rb',
       snd (ring_buffer_write (Some arena_at_112) (Some hello_world) 13 5) = Some rb'
       /\ bytes_from (arena_bytes rb') 128 112 (Z.to_nat (24 + 13))
          = header_to_bytes (frame_header hello_world 13 5) ++ hello_world
       /\ nth 21 (arena_bytes rb') Byte.x00 = nth 21 (arena_bytes arena_at_112) Byte.x00.
Proof.
  assert (H1 : arena_ok arena_at_112)
    by (unfold arena_ok, descriptor_in_range, is_size_t; by_computation).
  assert (H2 : 0 <= 13 <= Z.of_nat (length hello_world)) by by_computation.
  assert (H3 : ring_buffer_write (Some arena_at_112) (Some hello_world) 13 5
               = (RING_BUFFER_SUCCESS,
                  snd (ring_buffer_write (Some arena_at_112) (Some hello_world) 13 5)))
    by (vm_compute; reflexivity).
  split; [exact H1 |]. split; [exact H2 |]. split; [exact H3 |].
  destruct (write_touches_only_its_frame arena_at_112 hello_world 13 5 _ H1 H2 H3)
    as (rb' & E & _ & Hfr & Hout & _).
  exists rb'. split; [exact E |]. split; [exact Hfr |].
  apply Hout; [vm_compute; lia | by_computation].
Defined.

(** X13 at an empty 128-byte arena with its positions at 112: two writes,
    the first with its header across the arena end, then three reads. *)
Lemma fifo_order_witness :
  queue_holds arena_at_112 []
  /\ payloads_unsplit (rb_size arena_at_112) (rb_write_pos arena_at_112)
       [Op_write hello_world 1; Op_write [Byte.x41] 2; Op_read; Op_read; Op_read]
  /\ writes_succeeded
       [Op_write hello_world 1; Op_write [Byte.x41] 2; Op_read; Op_read; Op_read]
       (fst (fst (run_ops (Some arena_at_112) (Some blank_message)
                    [Op_write hello_world 1; Op_write [Byte.x41] 2;
                     Op_read; Op_read; Op_read])))
  /\ fst (fst (run_ops (Some arena_at_112) (Some blank_message)
                 [Op_write hello_world 1; Op_write [Byte.x41] 2; Op_read; Op_read; Op_read]))
     = [(RING_BUFFER_SUCCESS, []); (RING_BUFFER_SUCCESS, []);
        (RING_BUFFER_SUCCESS, hello_world); (RING_BUFFER_SUCCESS, [Byte.x41]);
        (RING_BUFFER_ERROR_EMPTY, [])].
Proof.
  assert (H1 : queue_holds arena_at_112 [])
    by (unfold queue_holds, arena_ok, descriptor_in_range, is_size_t; by_computation).
  assert (H2 : payloads_unsplit (rb_size arena_at_112) (rb_write_pos arena_at_112)
                 [Op_write hello_world 1; Op_write [Byte.x41] 2; Op_read; Op_read; Op_read])
    by by_computation.
  assert (H3 : writes_succeeded
                 [Op_write hello_world 1; Op_write [Byte.x41] 2; Op_read; Op_read; Op_read]
                 (fst (fst (run_ops (Some arena_at_112) (Some blank_message)
                              [Op_write hello_world 1; Op_write [Byte.x41] 2;
                               Op_read; Op_read; Op_read]))))
    by by_computation.
  split; [exact H1 |]. split; [exact H2 |]. split; [exact H3 |].
  exact (fifo_order _ arena_at_112 [] blank_message H1 H2 H3).
Defined.

(** X14 at an empty 128-byte arena with its positions at 32 and a payload of
    eighty bytes, which would end at offset 136. *)
Lemma split_payload_unreadable_witness :
  queue_holds arena_at_32 []
  /\ ring_buffer_write (Some arena_at_32) (Some payload_80) (Z.of_nat (length payload_80)) 0
     = (RING_BUFFER_SUCCESS,
        snd (ring_buffer_write (Some arena_at_32) (Some payload_80)
               (Z.of_nat (length payload_80)) 0))
  /\ rb_size arena_at_32
     < (rb_write_pos arena_at_32 + sizeof_arrow_ipc_header_t) mod rb_size arena_at_32
       + Z.of_nat (length payload_80)
  /\ exists rb',
       snd (ring_buffer_write (Some arena_at_32) (Some payload_80)
              (Z.of_nat (length payload_80)) 0) = Some rb'
       /\ ring_buffer_read (Some rb') (Some blank_message)
          = (RING_BUFFER_ERROR_CORRUPTED, Some (fetch_add_read_errors rb' 1),
             Some blank_message).
Proof.
  assert (H1 : queue_holds arena_at_32 [])
    by (unfold queue_holds, arena_ok, descriptor_in_range, is_size_t; by_computation).
  assert (H2 : ring_buffer_write (Some arena_at_32) (Some payload_80)
                 (Z.of_nat (length payload_80)) 0
               = (RING_BUFFER_SUCCESS,
                  snd (ring_buffer_write (Some arena_at_32) (Some payload_80)
                         (Z.of_nat (length payload_80)) 0)))
    by (vm_compute; reflexivity).
  assert (H3 : rb_size arena_at_32
               < (rb_write_pos arena_at_32 + sizeof_arrow_ipc_header_t)
                 mod rb_size arena_at_32 + Z.of_nat (length payload_80))
    by (vm_compute; reflexivity).
  split; [exact H1 |]. split; [exact H2 |]. split; [exact H3 |].
  destruct (split_payload_unreadable arena_at_32 payload_80 0 _ blank_message H1 H2 H3)
    as (rb' & E & _ & Hr).
  exists rb'. split; [exact E | exact Hr].
Defined.

(** X15 at [hello_world] with its first byte set to zero. *)
Lemma crc32_detects_single_byte_witness :
  (0 < length hello_world)%nat
  /\ Z.of_nat 0 < 13
  /\ Byte.x00 <> nth 0 hello_world Byte.x00
  /\ snd (ring_buffer_crc32 crc32_globals_ready
            (firstn 0 hello_world ++ Byte.x00 :: skipn 1 hello_world) 13)
     <> snd (ring_buffer_crc32 crc32_globals_ready hello_world 13).
Proof.
  assert (H1 : (0 < length hello_world)%nat) by (vm_compute; lia).
  assert (H2 : Z.of_nat 0 < 13) by reflexivity.
  assert (H3 : Byte.x00 <> nth 0 hello_world Byte.x00) by (vm_compute; discriminate).
  split; [exact H1 |]. split; [exact H2 |]. split; [exact H3 |].
  exact (crc32_detects_single_byte hello_world 13 0 Byte.x00 H1 H2 H3).
Defined.

(** X16 at a 128-byte arena holding the frame of [payload_80], with the
    first payload byte overwritten. *)
Lemma read_detects_payload_corruption_witness :
  queue_holds arena_at_threshold [(payload_80, 0)]
  /\ (0 < length payload_80)%nat
  /\ Byte.x42 <> nth (Z.to_nat 24 + 0) (arena_bytes arena_at_threshold) Byte.x00
  /\ ring_buffer_read (Some arena_bad_checksum) (Some blank_message)
     = (RING_BUFFER_ERROR_CORRUPTED, Some (fetch_add_read_errors arena_bad_checksum 1),
        Some {| msg_header := msg_header blank_message; msg_data := Some 24;
                msg_data_size := 80 |}).
Proof.
  assert (H1 : queue_holds arena_at_threshold [(payload_80, 0)])
    by (unfold queue_holds, arena_ok, descriptor_in_range, is_size_t; by_computation).
  assert (H2 : (0 < length payload_80)%nat) by (vm_compute; lia).
  assert (H3 : Byte.x42 <> nth (Z.to_nat 24 + 0) (arena_bytes arena_at_threshold) Byte.x00)
    by (vm_compute; discriminate).
  split; [exact H1 |]. split; [exact H2 |]. split; [exact H3 |].
  exact (read_detects_payload_corruption arena_at_threshold blank_message payload_80 0 []
           0 Byte.x42 H1 H2 H3).
Defined.

(** X17 at an empty 128-byte arena with its positions at 32: an accepted
    write, a read that is refused, a write of no bytes and another read. *)
Lemma interface_keeps_descriptor_valid_witness :
  arena_ok arena_at_32
  /\ exists rb',
       snd (fst (run_ops (Some arena_at_32) (Some blank_message)
                   [Op_write payload_80 0; Op_read; Op_write [] 1; Op_read]))
       = Some rb'
       /\ arena_ok rb' /\ rb_size rb' = rb_size arena_at_32.
Proof.
  assert (H1 : arena_ok arena_at_32)
    by (unfold arena_ok, descriptor_in_range, is_size_t; by_computation).
  split; [exact H1 |].
  destruct (interface_keeps_descriptor_valid
              [Op_write payload_80 0; Op_read; Op_write [] 1; Op_read]
              arena_at_32 blank_message H1)
    as (rb' & msg' & E & _ & Hok & Hs & _).
  exists rb'. split; [exact E |]. split; [exact Hok | exact Hs].
Defined.

(** X19 at eight zero bytes, five of them generated with pattern 254 and
    verified with pattern -2. *)
Lemma test_data_round_trip_witness :
  0 <= 5 <= Z.of_nat (length (repeat Byte.x00 8))
  /\ generate_test_data (repeat Byte.x00 8) 5 254
     = bytes_of [254; 255; 0; 1; 2; 0; 0; 0]
  /\ (verify_test_data (generate_test_data (repeat Byte.x00 8) 5 254) 5 (-2) = true
      <-> 5 = 0 \/ (-2 - 254) mod 256 = 0).
Proof.
  assert (H1 : 0 <= 5 <= Z.of_nat (length (repeat Byte.x00 8))) by by_computation.
  split; [exact H1 |]. split; [vm_compute; reflexivity |].
  exact (proj2 (proj2 (test_data_round_trip (repeat Byte.x00 8) 5 254 (-2) H1))).
Defined.

(** X21 at a 128-byte arena holding the frame of [hello_world], with a read
    between the copies and the commit of a one-byte write. *)
Lemma read_between_write_phases_witness :
  queue_holds arena_hello [(hello_world, 0)]
  /\ ring_buffer_write (Some arena_hello) (Some [Byte.x41]) (Z.of_nat (length [Byte.x41])) 1
     = (RING_BUFFER_SUCCESS,
        snd (ring_buffer_write (Some arena_hello) (Some [Byte.x41])
               (Z.of_nat (length [Byte.x41])) 1))
  /\ (rb_write_pos arena_hello + sizeof_arrow_ipc_header_t) mod rb_size arena_hello
     + Z.of_nat (length [Byte.x41]) <= rb_size arena_hello
  /\ (1 <= 2 <= 2)%nat
  /\ exists rb_r,
       snd (fst (ring_buffer_read
                   (Some (fst (write_steps 2 arena_hello
                                 (Calling (Some [Byte.x41])
                                    (Z.of_nat (length [Byte.x41])) 1))))
                   (Some blank_message))) = Some rb_r
       /\ [read_result
             (ring_buffer_read
                (Some (fst (write_steps 2 arena_hello
                              (Calling (Some [Byte.x41])
                                 (Z.of_nat (length [Byte.x41])) 1))))
                (Some blank_message))]
          = [(RING_BUFFER_SUCCESS, hello_world)]
       /\ queue_holds
            (fst (write_steps (3 - 2) rb_r
                    (snd (write_steps 2 arena_hello
                            (Calling (Some [Byte.x41])
                               (Z.of_nat (length [Byte.x41])) 1)))))
            [([Byte.x41], 1)].
Proof.
  assert (H1 : queue_holds arena_hello [(hello_world, 0)])
    by (unfold queue_holds, arena_ok, descriptor_in_range, is_size_t; by_computation).
  assert (H2 : ring_buffer_write (Some arena_hello) (Some [Byte.x41])
                 (Z.of_nat (length [Byte.x41])) 1
               = (RING_BUFFER_SUCCESS,
                  snd (ring_buffer_write (Some arena_hello) (Some [Byte.x41])
                         (Z.of_nat (length [Byte.x41])) 1)))
    by (vm_compute; reflexivity).
  assert (H3 : (rb_write_pos arena_hello + sizeof_arrow_ipc_header_t)
               mod rb_size arena_hello
               + Z.of_nat (length [Byte.x41]) <= rb_size arena_hello)
    by (vm_compute; discriminate).
  assert (H4 : (1 <= 2 <= 2)%nat) by lia.
  split; [exact H1 |]. split; [exact H2 |]. split; [exact H3 |]. split; [exact H4 |].
  destruct (read_between_write_phases 2 arena_hello [(hello_world, 0)] [Byte.x41] 1
              blank_message _ H1 H2 H3 H4) as (rb_r & E & Hres & _ & Hq).
  exists rb_r. split; [exact E |]. split; [exact Hres | exact Hq].
Defined.

(** X22 at an empty 128-byte arena with its positions at 32, which has
    seen one write and one read of one byte: an accepted write of eighty
    bytes, a refused read, a write of no bytes and another refused read. *)
Lemma statistics_are_exact_witness :
  arena_ok arena_at_32
  /\ ring_buffer_get_stats
       (snd (fst (run_ops (Some arena_at_32) (Some blank_message)
                    [Op_write payload_80 0; Op_read; Op_write [] 1; Op_read])))
       (Some stale_stats)
     = Some {| messages_written := 2; messages_read := 1; bytes_written := 81;
               bytes_read := 1; write_errors := 0; read_errors := 2;
               backpressure_events := 0 |}.
Proof.
  assert (H1 : arena_ok arena_at_32)
    by (unfold arena_ok, descriptor_in_range, is_size_t; by_computation).
  split; [exact H1 |].
  rewrite (statistics_are_exact
             [Op_write payload_80 0; Op_read; Op_write [] 1; Op_read]
             arena_at_32 blank_message stale_stats H1).
  vm_compute. reflexivity.
Defined.
